(** * Payment-event reconciliation core: rate limiter, crypto vault,
      notifier and Stripe webhook handler.

    Shallow embedding of
      - system-build/src/lib/rate-limit.ts
      - system-build/src/lib/encryption.ts
      - system-build/src/lib/notifications.ts
      - the Stripe webhook endpoint (POST and its event handlers), the
        second route kept in
        system-build/src/app/api/stripe/checkout-session/route.ts
    together with the properties stated about them.

    Conventions.  JavaScript numbers that only ever hold integers
    (counters, millisecond timestamps, cents) are [Z].  Identifiers and
    keys are [string].  A value that may be [null]/[undefined] is an
    [option].  Code that throws returns a [Completion]. *)

From Stdlib Require Import ZArith QArith List Bool Lia Init.Byte Ascii.
From stdpp Require Import base option list gmap strings.

Local Open Scope Z_scope.

(** ** JavaScript completions: normal return or a thrown exception *)

Inductive Completion (A : Type) : Type :=
  | Return (a : A)
  | Throw (msg : string).
Arguments Return {A} a.
Arguments Throw {A} msg.

(** JavaScript truthiness of a possibly-absent string: [undefined],
    [null] and the empty string are falsy. *)
Definition truthy (s : option string) : bool :=
  match s with
  | Some s => negb (String.eqb s "")
  | None => false
  end.

(* ===================================================================== *)
(** * Rate limiter (lib/rate-limit.ts)                                    *)
(* ===================================================================== *)

Module RateLimit.

Record RateLimitConfig := { window : Z; max : Z; fallbackMax : Z }.

Inductive RateLimitPreset := INTAKE | AUTH | ADMIN | API.

(** [RATE_LIMITS] *)
Definition RATE_LIMITS (p : RateLimitPreset) : RateLimitConfig :=
  match p with
  | INTAKE => {| window := 60; max := 10; fallbackMax := 5 |}
  | AUTH   => {| window := 60; max := 5;  fallbackMax := 3 |}
  | ADMIN  => {| window := 60; max := 20; fallbackMax := 10 |}
  | API    => {| window := 60; max := 30; fallbackMax := 15 |}
  end.

(** [preset.toLowerCase()] *)
Definition presetLower (p : RateLimitPreset) : string :=
  match p with
  | INTAKE => "intake" | AUTH => "auth" | ADMIN => "admin" | API => "api"
  end.

(** One slot of [inMemoryRateLimits]. *)
Record Entry := { count : Z; resetAt : Z }.

(** What [checkRateLimit] and [checkInMemoryRateLimit] return. *)
Record RateLimitResult := { allowed : bool; remaining : Z; resetAtDate : Z }.

(** The expired-entry sweep of [checkInMemoryRateLimit]: every entry
    with [now > v.resetAt] is deleted. *)
Definition sweepExpired (now : Z) (m : gmap string Entry) : gmap string Entry :=
  filter (fun kv => negb (resetAt kv.2 <? now) = true) m.

(** [checkInMemoryRateLimit(key, windowSeconds, maxRequests)].
    [now] is the reading of [Date.now()]; [sweep] is the outcome of the
    test [Math.random() < 0.01].  The entry is read before the sweep, as
    in the source; in the second branch the entry object is mutated in
    place, and it is still in the map because the sweep only removes
    entries with [now > resetAt]. *)
Definition checkInMemoryRateLimit (key : string) (windowSeconds maxRequests : Z)
    (now : Z) (sweep : bool) (m : gmap string Entry)
    : RateLimitResult * gmap string Entry :=
  let entry := m !! key in
  let m1 := if sweep then sweepExpired now m else m in
  match entry with
  | Some e =>
      if resetAt e <? now then
        let r := now + windowSeconds * 1000 in
        ({| allowed := true; remaining := maxRequests - 1; resetAtDate := r |},
         <[key := {| count := 1; resetAt := r |}]> m1)
      else
        let c := count e + 1 in
        ({| allowed := (c <=? maxRequests);
            remaining := Z.max 0 (maxRequests - c);
            resetAtDate := resetAt e |},
         alter (fun e => {| count := count e + 1; resetAt := resetAt e |}) key m1)
  | None =>
      let r := now + windowSeconds * 1000 in
      ({| allowed := true; remaining := maxRequests - 1; resetAtDate := r |},
       <[key := {| count := 1; resetAt := r |}]> m1)
  end.

(** The three commands sent to the durable counter store. *)
Inductive Command :=
  | INCR (key : string)
  | EXPIRE (key : string) (seconds : Z)
  | TTL (key : string).

(** Outcome of the [fetch] inside [redisCommand]: the call throws
    (network error), the response is not OK, or the response carries
    [data.result] (a number, or [null]). *)
Inductive FetchOutcome :=
  | NetworkError (msg : string)
  | HttpError
  | HttpOk (result : option Z).

(** JavaScript [ToNumber] on [null | number], as used by [<=], [>] and
    [-] on the unchecked [as number] values. *)
Definition toNumber (v : option Z) : Z := default 0 v.

Section Store.

(** The durable store is an external service: a state [S] and a
    transition [upstash] giving the outcome of one REST call made at
    time [now]. *)
Context {S : Type}.
Variable upstash : Z -> Command -> S -> FetchOutcome * S.

(** Process state seen by the limiter: whether both
    [UPSTASH_REDIS_REST_URL] and [UPSTASH_REDIS_REST_TOKEN] are set,
    the store, and the in-process map. *)
Record World := {
  configured : bool;
  store : S;
  inMemoryRateLimits : gmap string Entry;
}.

(** [redisCommand(command)] *)
Definition redisCommand (now : Z) (command : Command) (w : World)
    : Completion (option Z) * World :=
  if negb (configured w) then (Return None, w)
  else
    let '(out, s') := upstash now command (store w) in
    let w' := {| configured := configured w; store := s';
                 inMemoryRateLimits := inMemoryRateLimits w |} in
    match out with
    | NetworkError msg => (Throw msg, w')
    | HttpError => (Return None, w')
    | HttpOk result => (Return result, w')
    end.

(** The key built by [checkRateLimit]. *)
Definition rateLimitKey (identifier : string) (preset : RateLimitPreset)
    (namespace : option string) : string :=
  if truthy namespace
  then "rate_limit:" +:+ default "" namespace +:+ ":" +:+ identifier
  else "rate_limit:" +:+ presetLower preset +:+ ":" +:+ identifier.

Definition fallback (key : string) (config : RateLimitConfig)
    (now : Z) (sweep : bool) (w : World) : RateLimitResult * World :=
  let '(r, m') := checkInMemoryRateLimit key (window config) (fallbackMax config)
                    now sweep (inMemoryRateLimits w) in
  (r, {| configured := configured w; store := store w; inMemoryRateLimits := m' |}).

(** [checkRateLimit(identifier, preset, namespace)] *)
Definition checkRateLimit (identifier : string) (preset : RateLimitPreset)
    (namespace : option string) (now : Z) (sweep : bool) (w : World)
    : RateLimitResult * World :=
  let config := RATE_LIMITS preset in
  let key := rateLimitKey identifier preset namespace in
  if negb (configured w) then fallback key config now sweep w
  else
    match redisCommand now (INCR key) w with
    | (Throw _, w1) => fallback key config now sweep w1
    | (Return count, w1) =>
        let afterExpire :=
          if decide (count = Some 1)
          then redisCommand now (EXPIRE key (window config)) w1
          else (Return None, w1) in
        match afterExpire with
        | (Throw _, w2) => fallback key config now sweep w2
        | (Return _, w2) =>
            match redisCommand now (TTL key) w2 with
            | (Throw _, w3) => fallback key config now sweep w3
            | (Return ttl, w3) =>
                let resetAt :=
                  now + (if 0 <? toNumber ttl then toNumber ttl * 1000
                         else window config * 1000) in
                ({| allowed := (toNumber count <=? max config);
                    remaining := Z.max 0 (max config - toNumber count);
                    resetAtDate := resetAt |}, w3)
            end
        end
    end.

(** A run of consecutive calls for one caller; each call comes with its
    clock reading and sweep decision. *)
Fixpoint checkMany (identifier : string) (preset : RateLimitPreset)
    (namespace : option string) (calls : list (Z * bool)) (w : World)
    : list RateLimitResult * World :=
  match calls with
  | [] => ([], w)
  | (now, sweep) :: rest =>
      let '(r, w1) := checkRateLimit identifier preset namespace now sweep w in
      let '(rs, w2) := checkMany identifier preset namespace rest w1 in
      (r :: rs, w2)
  end.

(** Every REST call fails inside [fetch] (refused connection, DNS
    failure, timeout): the promise rejects and [redisCommand] throws.
    This is one way of being unreachable. *)
Definition fetchRejects : Prop :=
  forall now command s, exists msg, (upstash now command s).1 = NetworkError msg.

(** Every REST call is answered with a non-OK status (401, 502, 503):
    [redisCommand] logs and returns [null].  This is the other way of
    being unreachable: the limiter gets no count from the store. *)
Definition answersNotOk : Prop :=
  forall now command s, (upstash now command s).1 = HttpError.

(** The cases in which [checkRateLimit] takes its fallback: the store
    is not configured, or every [fetch] rejects. *)
Definition fallbackTaken (w : World) : Prop :=
  configured w = false \/ fetchRejects.

End Store.

(** Verdicts expected from [k] further calls inside a window whose
    counter stands at [c], under threshold [N]. *)
Fixpoint verdicts (c N : Z) (k : nat) : list bool :=
  match k with
  | O => []
  | S k' => (c + 1 <=? N) :: verdicts (c + 1) N k'
  end.

(** Number of admitted calls among the results. *)
Definition admitted (rs : list RateLimitResult) : nat :=
  length (filter (fun r => allowed r = true) rs).

(** A store with the Redis semantics of the three commands, which
    always answers.  A key with an expiry is gone once the clock
    reaches it. *)
Record RedisEntry := { value : Z; expireAt : option Z }.

Definition live (now : Z) (e : RedisEntry) : bool :=
  match expireAt e with
  | Some t => now <? t
  | None => true
  end.

Definition liveEntry (now : Z) (key : string) (s : gmap string RedisEntry)
    : option RedisEntry :=
  match s !! key with
  | Some e => if live now e then Some e else None
  | None => None
  end.

Definition redis (now : Z) (c : Command) (s : gmap string RedisEntry)
    : FetchOutcome * gmap string RedisEntry :=
  match c with
  | INCR key =>
      match liveEntry now key s with
      | Some e =>
          (HttpOk (Some (value e + 1)),
           <[key := {| value := value e + 1; expireAt := expireAt e |}]> s)
      | None =>
          (HttpOk (Some 1), <[key := {| value := 1; expireAt := None |}]> s)
      end
  | EXPIRE key seconds =>
      match liveEntry now key s with
      | Some e =>
          (HttpOk (Some 1),
           <[key := {| value := value e; expireAt := Some (now + seconds * 1000) |}]> s)
      | None => (HttpOk (Some 0), s)
      end
  | TTL key =>
      match liveEntry now key s with
      | Some e =>
          match expireAt e with
          | Some t => (HttpOk (Some ((t - now + 500) / 1000)), s)
          | None => (HttpOk (Some (-1)), s)
          end
      | None => (HttpOk (Some (-2)), s)
      end
  end.

(** A store that cannot be reached: every call fails in [fetch]. *)
Definition storeDown (now : Z) (c : Command) (s : unit) : FetchOutcome * unit :=
  (NetworkError "fetch failed", s).

(** A store that is reached but answers every call with a non-OK
    status. *)
Definition storeFailing (now : Z) (c : Command) (s : unit) : FetchOutcome * unit :=
  (HttpError, s).

(** The threshold in force: [config.max] on the primary path,
    [config.fallbackMax] when the store is not configured. *)
Definition effectiveMax {S} (preset : RateLimitPreset) (w : @World S) : Z :=
  if configured w then max (RATE_LIMITS preset) else fallbackMax (RATE_LIMITS preset).

(** The counter currently held for [key] in the path in force, with the
    time at which its window ends. *)
Definition counter (key : string) (w : @World (gmap string RedisEntry))
    : option (Z * Z) :=
  if configured w then
    match store w !! key with
    | Some e => match expireAt e with
                | Some t => Some (value e, t)
                | None => None
                end
    | None => None
    end
  else
    match inMemoryRateLimits w !! key with
    | Some e => Some (count e, resetAt e)
    | None => None
    end.

(** No window is open for [key] at time [now]. *)
Definition noOpenWindow (key : string) (now : Z) (w : @World (gmap string RedisEntry))
    : bool :=
  if configured w then
    match liveEntry now key (store w) with Some _ => false | None => true end
  else
    match inMemoryRateLimits w !! key with
    | Some e => resetAt e <? now
    | None => true
    end.

End RateLimit.

(* ===================================================================== *)
(** * Crypto vault (lib/encryption.ts)                                    *)
(* ===================================================================== *)

Module Encryption.

(** A JavaScript string is a sequence of UTF-16 code units. *)
Definition jsstring := list Z.

(** A [Buffer] is a sequence of bytes. *)
Definition Buffer := list Byte.byte.

Definition Z_of_byte (b : Byte.byte) : Z := Z.of_N (Byte.to_N b).

Definition byte_of_Z (z : Z) : Byte.byte :=
  match Byte.of_N (Z.to_N (z mod 256)) with
  | Some b => b
  | None => Byte.x00
  end.

(** [buf.subarray(start, end)] and [buf.subarray(start)]; indices past
    the end are clamped. *)
Definition subarray (start stop : nat) (buf : Buffer) : Buffer :=
  take (stop - start) (drop start buf).
Definition subarrayFrom (start : nat) (buf : Buffer) : Buffer := drop start buf.

(** *** UTF-8 conversion between strings and buffers

    [Buffer.from(s, 'utf8')] / [cipher.update(s, 'utf8')]: a surrogate
    pair becomes one four-byte sequence, and a surrogate that is not
    part of a pair is replaced by U+FFFD (EF BF BD). *)

Definition isHighSurrogate (c : Z) : bool := (0xD800 <=? c) && (c <=? 0xDBFF).
Definition isLowSurrogate (c : Z) : bool := (0xDC00 <=? c) && (c <=? 0xDFFF).

Definition utf8OfCodePoint (cp : Z) : Buffer :=
  if cp <? 0x80 then [byte_of_Z cp]
  else if cp <? 0x800 then
    [byte_of_Z (0xC0 + cp / 64); byte_of_Z (0x80 + cp mod 64)]
  else if cp <? 0x10000 then
    [byte_of_Z (0xE0 + cp / 4096); byte_of_Z (0x80 + (cp / 64) mod 64);
     byte_of_Z (0x80 + cp mod 64)]
  else
    [byte_of_Z (0xF0 + cp / 262144); byte_of_Z (0x80 + (cp / 4096) mod 64);
     byte_of_Z (0x80 + (cp / 64) mod 64); byte_of_Z (0x80 + cp mod 64)].

Definition replacementBytes : Buffer := [byte_of_Z 0xEF; byte_of_Z 0xBF; byte_of_Z 0xBD].

Fixpoint utf8Encode (s : jsstring) : Buffer :=
  match s with
  | [] => []
  | c :: rest =>
      if isHighSurrogate c then
        match rest with
        | d :: rest' =>
            if isLowSurrogate d then
              utf8OfCodePoint (0x10000 + (c - 0xD800) * 0x400 + (d - 0xDC00))
                ++ utf8Encode rest'
            else replacementBytes ++ utf8Encode rest
        | [] => replacementBytes
        end
      else if isLowSurrogate c then replacementBytes ++ utf8Encode rest
      else utf8OfCodePoint c ++ utf8Encode rest
  end.

(** The code units of a decoded code point. *)
Definition codeUnits (cp : Z) : jsstring :=
  if cp <? 0x10000 then [cp]
  else [0xD800 + (cp - 0x10000) / 0x400; 0xDC00 + (cp - 0x10000) mod 0x400].

Definition inRange (lo hi : Z) (b : Byte.byte) : bool :=
  (lo <=? Z_of_byte b) && (Z_of_byte b <=? hi).

(** One step of the UTF-8 decoder on the input [b0 :: r0]: a
    well-formed sequence is decoded; an ill-formed or truncated one
    yields U+FFFD and decoding resumes (through [resume]) at the byte
    that broke it. *)
Definition decodeSequence (resume : Buffer -> jsstring) (b0 : Byte.byte) (r0 : Buffer)
    : jsstring :=
  let x0 := Z_of_byte b0 in
  if x0 <? 0x80 then x0 :: resume r0
  else if inRange 0xC2 0xDF b0 then
    match r0 with
    | b1 :: r1 =>
        if inRange 0x80 0xBF b1 then
          ((x0 - 0xC0) * 64 + (Z_of_byte b1 - 0x80)) :: resume r1
        else 0xFFFD :: resume r0
    | [] => [0xFFFD]
    end
  else if inRange 0xE0 0xEF b0 then
    match r0 with
    | b1 :: r1 =>
        if inRange (if x0 =? 0xE0 then 0xA0 else 0x80)
                   (if x0 =? 0xED then 0x9F else 0xBF) b1 then
          match r1 with
          | b2 :: r2 =>
              if inRange 0x80 0xBF b2 then
                ((x0 - 0xE0) * 4096 + (Z_of_byte b1 - 0x80) * 64
                   + (Z_of_byte b2 - 0x80)) :: resume r2
              else 0xFFFD :: resume r1
          | [] => [0xFFFD]
          end
        else 0xFFFD :: resume r0
    | [] => [0xFFFD]
    end
  else if inRange 0xF0 0xF4 b0 then
    match r0 with
    | b1 :: r1 =>
        if inRange (if x0 =? 0xF0 then 0x90 else 0x80)
                   (if x0 =? 0xF4 then 0x8F else 0xBF) b1 then
          match r1 with
          | b2 :: r2 =>
              if inRange 0x80 0xBF b2 then
                match r2 with
                | b3 :: r3 =>
                    if inRange 0x80 0xBF b3 then
                      codeUnits ((x0 - 0xF0) * 262144
                                 + (Z_of_byte b1 - 0x80) * 4096
                                 + (Z_of_byte b2 - 0x80) * 64
                                 + (Z_of_byte b3 - 0x80))
                        ++ resume r3
                    else 0xFFFD :: resume r2
                | [] => [0xFFFD]
                end
              else 0xFFFD :: resume r1
          | [] => [0xFFFD]
          end
        else 0xFFFD :: resume r0
    | [] => [0xFFFD]
    end
  else 0xFFFD :: resume r0.

(** [buf.toString('utf8')] *)
Fixpoint utf8Decode (bs : Buffer) : jsstring :=
  match bs with
  | [] => []
  | b0 :: r0 => decodeSequence utf8Decode b0 r0
  end.

(** A string is well formed when every surrogate is part of a
    high-low pair. *)
Fixpoint wellFormed (s : jsstring) : bool :=
  match s with
  | [] => true
  | c :: rest =>
      if isHighSurrogate c then
        match rest with
        | d :: rest' => isLowSurrogate d && wellFormed rest'
        | [] => false
        end
      else if isLowSurrogate c then false
      else (0 <=? c) && (c <? 0x10000) && wellFormed rest
  end.

(** *** Base64 conversion between buffers and strings *)

(** The character (as a code unit) of a 6-bit value. *)
Definition base64Char (v : Z) : Z :=
  if v <? 26 then 65 + v
  else if v <? 52 then 97 + (v - 26)
  else if v <? 62 then 48 + (v - 52)
  else if v =? 62 then 43
  else 47.

(** [buf.toString('base64')] *)
Fixpoint base64Encode (bs : Buffer) : jsstring :=
  match bs with
  | [] => []
  | a :: r1 =>
      let a := Z_of_byte a in
      match r1 with
      | [] => [base64Char (a / 4); base64Char ((a mod 4) * 16); 61; 61]
      | b :: r2 =>
          let b := Z_of_byte b in
          match r2 with
          | [] => [base64Char (a / 4); base64Char ((a mod 4) * 16 + b / 16);
                   base64Char ((b mod 16) * 4); 61]
          | c :: rest =>
              let c := Z_of_byte c in
              base64Char (a / 4) :: base64Char ((a mod 4) * 16 + b / 16)
                :: base64Char ((b mod 16) * 4 + c / 64) :: base64Char (c mod 64)
                :: base64Encode rest
          end
      end
  end.

(** The decoder reads every code unit through a cast to [uint8_t]: a
    code unit above 255 counts as its low byte. *)
Definition lowByte (c : Z) : Z := c mod 256.

(** The 6-bit value of a character, read by its low byte; both the
    standard and the URL-safe alphabet are accepted.  [None] for any
    other character. *)
Definition unbase64 (c : Z) : option Z :=
  let b := lowByte c in
  if (65 <=? b) && (b <=? 90) then Some (b - 65)
  else if (97 <=? b) && (b <=? 122) then Some (b - 97 + 26)
  else if (48 <=? b) && (b <=? 57) then Some (b - 48 + 52)
  else if (b =? 43) || (b =? 45) then Some 62
  else if (b =? 47) || (b =? 95) then Some 63
  else None.

(** The decoder skips characters outside the alphabet and stops at the
    first padding character (a code unit whose low byte is 61). *)
Fixpoint sextets (s : jsstring) : list Z :=
  match s with
  | [] => []
  | c :: r =>
      if lowByte c =? 61 then []
      else match unbase64 c with
           | Some v => v :: sextets r
           | None => sextets r
           end
  end.

Fixpoint bytesOfSextets (vs : list Z) : Buffer :=
  match vs with
  | a :: r1 =>
      match r1 with
      | b :: r2 =>
          byte_of_Z (a * 4 + b / 16) ::
          match r2 with
          | c :: r3 =>
              byte_of_Z ((b mod 16) * 16 + c / 4) ::
              match r3 with
              | d :: rest => byte_of_Z ((c mod 4) * 64 + d) :: bytesOfSextets rest
              | [] => []
              end
          | [] => []
          end
      | [] => []
      end
  | [] => []
  end.

(** [Buffer.from(s, 'base64')]; it never throws. *)
Definition base64Decode (s : jsstring) : Buffer := bytesOfSextets (sextets s).

(** *** The primitives of [node:crypto]

    The hash, key-derivation and cipher primitives are library code.
    [aesGcmEncrypt] stands for [createCipheriv] + [update] + [final] +
    [getAuthTag] and returns the ciphertext with its tag, or [None] when
    the library throws (for instance on a key of the wrong length);
    [aesGcmDecrypt] stands for [createDecipheriv] + [setAuthTag] +
    [update] + [final] and returns [None] when the library throws (tag
    mismatch, malformed nonce or tag). *)
Record NodeCrypto := {
  hkdfSync : Buffer -> Buffer -> Buffer -> nat -> Buffer;
  aesGcmEncrypt : Buffer -> Buffer -> Buffer -> option (Buffer * Buffer);
  aesGcmDecrypt : Buffer -> Buffer -> Buffer -> Buffer -> option Buffer;
  hmacSha256Hex : Buffer -> Buffer -> jsstring;
}.

Definition IV_LENGTH : nat := 12.
Definition AUTH_TAG_LENGTH : nat := 16.
Definition SALT_LENGTH : nat := 16.

(** What the vault relies on: HKDF returns the requested number of
    bytes, and AES-256-GCM under a 32-byte key and a 12-byte nonce
    produces a 16-byte tag and decrypts its own output. *)
Record Lawful (c : NodeCrypto) : Prop := {
  hkdf_length : forall key salt info n, length (hkdfSync c key salt info n) = n;
  gcm_inverse : forall key iv pt,
    length key = 32%nat -> length iv = IV_LENGTH ->
    exists ct tag,
      aesGcmEncrypt c key iv pt = Some (ct, tag)
      /\ length tag = AUTH_TAG_LENGTH
      /\ aesGcmDecrypt c key iv tag ct = Some pt;
}.

(** The random source behind [crypto.randomBytes]: an unbounded supply
    of bytes and the position reached in it. *)
Record Entropy := { supply : nat -> Byte.byte; position : nat }.

(** [crypto.randomBytes(n)] *)
Definition randomBytes (n : nat) (e : Entropy) : Buffer * Entropy :=
  (map (supply e) (seq (position e) n),
   {| supply := supply e; position := (position e + n)%nat |}).

(** [process.env] as far as the vault reads it. *)
Record Env := { ENCRYPTION_KEY : option jsstring }.

(** JavaScript truthiness of a string value. *)
Definition nonEmpty (s : jsstring) : bool :=
  match s with [] => false | _ => true end.

(** The HKDF info parameter ['aes-256-gcm']. *)
Definition hkdfInfo : Buffer :=
  utf8Encode [97; 101; 115; 45; 50; 53; 54; 45; 103; 99; 109].

(** [getEncryptionKey()] *)
Definition getEncryptionKey (env : Env) : Completion Buffer :=
  match ENCRYPTION_KEY env with
  | Some key =>
      if nonEmpty key then
        let keyBuffer := base64Decode key in
        if decide (length keyBuffer = 32%nat) then Return keyBuffer
        else Throw "ENCRYPTION_KEY must be exactly 32 bytes (256 bits) when decoded"
      else Throw "ENCRYPTION_KEY environment variable is required for encryption"
  | None => Throw "ENCRYPTION_KEY environment variable is required for encryption"
  end.

(** A vault key is correctly configured: present and decoding to
    exactly 32 bytes. *)
Definition keyConfigured (env : Env) : Prop :=
  exists key, ENCRYPTION_KEY env = Some key /\ length (base64Decode key) = 32%nat.

(** The vault key is absent, or does not decode to exactly 32 bytes. *)
Definition keyUnusable (env : Env) : Prop :=
  match ENCRYPTION_KEY env with
  | Some key => length (base64Decode key) <> 32%nat
  | None => True
  end.

Section Vault.
Variable crypto : NodeCrypto.
Variable env : Env.

(** [encrypt(plaintext)] *)
Definition encrypt (plaintext : jsstring) (e : Entropy)
    : Completion jsstring * Entropy :=
  if negb (nonEmpty plaintext) then (Return [], e)
  else
    match getEncryptionKey env with
    | Throw msg => (Throw msg, e)
    | Return key =>
        let '(iv, e1) := randomBytes IV_LENGTH e in
        let '(salt, e2) := randomBytes SALT_LENGTH e1 in
        let derivedKey := hkdfSync crypto key salt hkdfInfo 32 in
        match aesGcmEncrypt crypto derivedKey iv (utf8Encode plaintext) with
        | None => (Throw "Invalid key length", e2)
        | Some (encrypted, authTag) =>
            let combined := salt ++ iv ++ authTag ++ encrypted in
            (Return (base64Encode combined), e2)
        end
    end.

(** [decrypt(encryptedData)] *)
Definition decrypt (encryptedData : jsstring) : Completion jsstring :=
  if negb (nonEmpty encryptedData) then Return []
  else
    match getEncryptionKey env with
    | Throw msg => Throw msg
    | Return key =>
        let combined := base64Decode encryptedData in
        let salt := subarray 0 SALT_LENGTH combined in
        let iv := subarray SALT_LENGTH (SALT_LENGTH + IV_LENGTH) combined in
        let authTag :=
          subarray (SALT_LENGTH + IV_LENGTH)
                   (SALT_LENGTH + IV_LENGTH + AUTH_TAG_LENGTH) combined in
        let ciphertext :=
          subarrayFrom (SALT_LENGTH + IV_LENGTH + AUTH_TAG_LENGTH) combined in
        let derivedKey := hkdfSync crypto key salt hkdfInfo 32 in
        match aesGcmDecrypt crypto derivedKey iv authTag ciphertext with
        | None => Throw "Unsupported state or unable to authenticate data"
        | Some decrypted => Return (utf8Decode decrypted)
        end
    end.

(** [isEncrypted(value)]; [Buffer.from] does not throw on a string, so
    the [catch] branch is never taken. *)
Definition isEncrypted (value : jsstring) : bool :=
  if negb (nonEmpty value) then false
  else
    let decoded := base64Decode value in
    (SALT_LENGTH + IV_LENGTH + AUTH_TAG_LENGTH + 1 <=? length decoded)%nat.

(** [safeDecrypt(value)]; the second component tells whether the
    [console.error] of the [catch] branch was written. *)
Definition safeDecrypt (value : jsstring) : jsstring * bool :=
  if negb (nonEmpty value) then ([], false)
  else if negb (isEncrypted value) then (value, false)
  else
    match decrypt value with
    | Return s => (s, false)
    | Throw _ => (value, true)
    end.

(** [secureHash(value)] *)
Definition secureHash (value : jsstring) : Completion jsstring :=
  if negb (nonEmpty value) then Return []
  else
    match getEncryptionKey env with
    | Throw msg => Throw msg
    | Return key => Return (hmacSha256Hex crypto key (utf8Encode value))
    end.

(** [isEncryptionConfigured()] *)
Definition isEncryptionConfigured : bool :=
  match getEncryptionKey env with
  | Return _ => true
  | Throw _ => false
  end.

End Vault.

(** *** A small instance of the primitives

    Not a secure cipher: it only has the shape of the interface (a
    derived key of the requested length, a 16-byte tag checked on
    decryption), so that the vault can be run on concrete inputs. *)

Definition shift (k : Z) (b : Byte.byte) : Byte.byte := byte_of_Z (Z_of_byte b + k).

Definition keyByte (key : Buffer) : Z :=
  match key with b :: _ => Z_of_byte b | [] => 0 end.

Definition checksum (key iv ct : Buffer) : Buffer :=
  replicate AUTH_TAG_LENGTH
    (byte_of_Z (foldr (fun b acc => Z_of_byte b + acc) 0 (key ++ iv ++ ct))).

Definition sameBytes (a b : Buffer) : bool :=
  bool_decide (map Z_of_byte a = map Z_of_byte b).

Definition toyCrypto : NodeCrypto := {|
  hkdfSync key salt info n :=
    take n (salt ++ key ++ info) ++ replicate (n - length (salt ++ key ++ info)) Byte.x00;
  aesGcmEncrypt key iv pt :=
    if decide (length key = 32%nat) then
      let ct := map (shift (keyByte key)) pt in
      Some (ct, checksum key iv ct)
    else None;
  aesGcmDecrypt key iv tag ct :=
    if decide (length key = 32%nat) then
      if sameBytes tag (checksum key iv ct)
      then Some (map (shift (- keyByte key)) ct)
      else None
    else None;
  hmacSha256Hex key msg := base64Encode (checksum key [] msg);
|}.

(** A key of 32 zero bytes, base64-encoded, and a fixed byte supply. *)
Definition sampleEnv : Env :=
  {| ENCRYPTION_KEY := Some (replicate 43 65 ++ [61]) |}.
Definition noKeyEnv : Env := {| ENCRYPTION_KEY := None |}.

(** Sixty times the letter B: long enough to pass [isEncrypted], but
    not the output of [encrypt]. *)
Definition forgedBlob : jsstring := replicate 60 66.
Definition sampleEntropy : Entropy :=
  {| supply := fun i => byte_of_Z (Z.of_nat i * 37 + 11); position := 0 |}.

(** The blob [encrypt] returns for the plaintext "a", and the same blob
    with an exclamation mark written after each of its characters. *)
Definition sampleBlob : jsstring :=
  match encrypt toyCrypto sampleEnv [97] sampleEntropy with
  | (Return blob, _) => blob
  | (Throw _, _) => []
  end.
Definition punctuatedBlob : jsstring := flat_map (fun c => [c; 33]) sampleBlob.

End Encryption.

(* ===================================================================== *)
(** * Notifier (lib/notifications.ts)                                     *)
(* ===================================================================== *)

Module Notifications.

Inductive NotificationType := payment | refund | dispute.

(** [PaymentNotificationData]; amounts are JavaScript numbers in
    currency units (cents divided by 100), kept as rationals. *)
Record PaymentNotificationData := {
  type : NotificationType;
  amount : Q;
  currency : string;
  projectName : string;
  projectId : option string;
  chargeId : option string;
  disputeId : option string;
  reason : option string;
  priority : option Z;
  isPartialRefund : option bool;
  originalAmount : option Q;
}.

(** The JSON body posted to Pushover. *)
Record PushoverMessage := {
  token : string;
  user : string;
  message : string;
  title : string;
  url : option string;
  url_title : option string;
  msgPriority : Z;
  sound : string;
}.

(** Outcome of [fetch]: the promise rejects, or a response arrives with
    its [ok] flag and the outcome of reading [response.text()]. *)
Inductive FetchResult :=
  | FetchRejects (err : string)
  | FetchResponse (ok : bool) (text : Completion string).

Record Env := {
  PUSHOVER_API_TOKEN : option string;
  PUSHOVER_USER_KEY : option string;
}.

Inductive LogLevel := LogInfo | LogWarn | LogError.

(** What the notifier does to the outside world: the requests handed to
    [fetch], and the console lines written. *)
Record Effects := {
  sent : list PushoverMessage;
  console : list (LogLevel * string);
}.

Definition newline : string := String (ascii_of_nat 10) "".

Definition typeName (t : NotificationType) : string :=
  match t with payment => "payment" | refund => "refund" | dispute => "dispute" end.

Definition logLine (level : LogLevel) (line : string) (fx : Effects) : Effects :=
  {| sent := sent fx; console := console fx ++ [(level, line)] |}.

Definition isAsciiLetter (a : ascii) : bool :=
  let n := nat_of_ascii a in
  ((65 <=? n) && (n <=? 90) || (97 <=? n) && (n <=? 122))%nat.

(** ECMA-402 IsWellFormedCurrencyCode: exactly three ASCII letters.
    [new Intl.NumberFormat(locale, { style: 'currency', currency })]
    throws a RangeError on any other currency code. *)
Definition isWellFormedCurrencyCode (code : string) : bool :=
  (String.length code =? 3)%nat && forallb isAsciiLetter (String.list_ascii_of_string code).

(** JavaScript truthiness of a number kept as a rational: zero is falsy. *)
Definition truthyNumber (q : option Q) : bool :=
  match q with
  | Some q => negb (Qeq_bool q 0)
  | None => false
  end.

Section Notifier.

(** [Intl.NumberFormat('en-CA', { style: 'currency', currency }).format],
    for a well-formed currency code; and the Pushover endpoint as seen
    through [fetch]. *)
Variable format : string -> Q -> string.
Variable pushover : PushoverMessage -> FetchResult.
Variable env : Env.

(** [new Intl.NumberFormat('en-CA', { style: 'currency', currency: currency || 'CAD' })] *)
Definition numberFormat (currency : string) : Completion (Q -> string) :=
  let code := if String.eqb currency "" then "CAD" else currency in
  if isWellFormedCurrencyCode code then Return (format code)
  else Throw ("Invalid currency code : " +:+ code).

Definition projectUrl (projectId : string) : string :=
  "https://dash.bertrandgroup.ca/projects/" +:+ projectId.

(** The [switch (type)] of [sendPaymentNotification]: title, message,
    url and urlTitle.  The partial-refund branch builds a second
    formatter, which throws like the first. *)
Definition buildMessage (data : PaymentNotificationData) (formattedAmount : string)
    : Completion (string * string * option string * option string) :=
  match type data with
  | payment =>
      let message := formattedAmount +:+ " received for " +:+ projectName data in
      Return ("💰 Payment Received", message,
              if truthy (projectId data) then projectUrl <$> projectId data else None,
              if truthy (projectId data) then Some "View Project" else None)
  | refund =>
      let titled :=
        if default false (isPartialRefund data) then
          let formattedOriginal :=
            if truthyNumber (originalAmount data) then
              match numberFormat (currency data) with
              | Return fmt => Return (Some (fmt (default 0%Q (originalAmount data))))
              | Throw e => Throw e
              end
            else Return None in
          match formattedOriginal with
          | Return fo =>
              Return ("↩️ Partial Refund",
                      formattedAmount +:+ " of "
                        +:+ (if truthy fo then default "" fo else "original")
                        +:+ " refunded for " +:+ projectName data)
          | Throw e => Throw e
          end
        else
          Return ("↩️ Full Refund",
                  formattedAmount +:+ " refunded for " +:+ projectName data) in
      match titled with
      | Return (title, message) =>
          let message :=
            if truthy (chargeId data)
            then message +:+ newline +:+ "Charge: " +:+ default "" (chargeId data)
            else message in
          Return (title, message,
                  if truthy (projectId data) then projectUrl <$> projectId data else None,
                  if truthy (projectId data) then Some "View Project" else None)
      | Throw e => Throw e
      end
  | dispute =>
      let message := formattedAmount +:+ " disputed for " +:+ projectName data in
      let message :=
        if truthy (reason data)
        then message +:+ newline +:+ "Reason: " +:+ default "" (reason data)
        else message in
      if truthy (disputeId data) then
        Return ("⚠️ DISPUTE ALERT",
                message +:+ newline +:+ "Dispute ID: " +:+ default "" (disputeId data),
                Some ("https://dashboard.stripe.com/disputes/"
                        +:+ default "" (disputeId data)),
                Some "View in Stripe")
      else Return ("⚠️ DISPUTE ALERT", message, None, None)
  end.

(** [sendPaymentNotification(data)] *)
Definition sendPaymentNotification (data : PaymentNotificationData) (fx : Effects)
    : Completion unit * Effects :=
  if negb (truthy (PUSHOVER_API_TOKEN env)) || negb (truthy (PUSHOVER_USER_KEY env)) then
    (Return tt,
     logLine LogWarn
       "[Notifications] PUSHOVER credentials not configured, skipping notification" fx)
  else
    match numberFormat (currency data) with
    | Throw e => (Throw e, fx)
    | Return fmt =>
        let formattedAmount := fmt (amount data) in
        match buildMessage data formattedAmount with
        | Throw e => (Throw e, fx)
        | Return (title, message, url, urlTitle) =>
            (* try { ... } catch { ... } *)
            let request := {|
              token := default "" (PUSHOVER_API_TOKEN env);
              user := default "" (PUSHOVER_USER_KEY env);
              message := message;
              title := title;
              url := url;
              url_title := urlTitle;
              msgPriority :=
                match priority data with
                | Some p => p
                | None => match type data with dispute => 1 | _ => 0 end
                end;
              sound := match type data with dispute => "siren" | _ => "cashregister" end;
            |} in
            let fx1 := {| sent := sent fx ++ [request]; console := console fx |} in
            match pushover request with
            | FetchRejects err =>
                (Return tt,
                 logLine LogError "[Notifications] Failed to send notification:" fx1)
            | FetchResponse false (Throw err) =>
                (Return tt,
                 logLine LogError "[Notifications] Failed to send notification:" fx1)
            | FetchResponse false (Return errorText) =>
                (Return tt,
                 logLine LogError ("[Notifications] Pushover API error: " +:+ errorText) fx1)
            | FetchResponse true _ =>
                (Return tt,
                 logLine LogInfo ("[Notifications] Sent " +:+ typeName (type data)
                                    +:+ " notification for " +:+ projectName data) fx1)
            end
        end
    end.

End Notifier.

(** Sample instances: a formatter, an endpoint that is down, and
    configured credentials. *)
Definition plainFormat (code : string) (q : Q) : string := code.
Definition pushoverDown (m : PushoverMessage) : FetchResult := FetchRejects "fetch failed".
Definition pushoverUp (m : PushoverMessage) : FetchResult := FetchResponse true (Return "{}").
Definition sampleEnv : Env :=
  {| PUSHOVER_API_TOKEN := Some "app-token"; PUSHOVER_USER_KEY := Some "user-key" |}.
Definition noCredentials : Env :=
  {| PUSHOVER_API_TOKEN := None; PUSHOVER_USER_KEY := None |}.
Definition noEffects : Effects := {| sent := []; console := [] |}.

(** A payment notice whose currency code has two letters. *)
Definition twoLetterCurrency : PaymentNotificationData := {|
  type := payment; amount := 25 # 1; currency := "US";
  projectName := "Website refresh"; projectId := None; chargeId := None;
  disputeId := None; reason := None; priority := None;
  isPartialRefund := None; originalAmount := None |}.

End Notifications.

(* ===================================================================== *)
(** * Stripe webhook endpoint (the webhook route: POST and its handlers)  *)
(* ===================================================================== *)

Module StripeWebhook.

(** ** Stripe objects *)

(** An expandable reference: the id as a string, or the expanded
    object (of which only the id is read). *)
Inductive Expandable :=
  | AsId (id : string)
  | AsObject (id : string).

Record CheckoutSession := {
  session_id : string;
  metadata : option (gmap string string);
  customer_email : option string;
  amount_total : option Z;
  session_currency : option string;
  session_payment_intent : option Expandable;
}.

Record LastPaymentError := {
  error_message : option string;
  error_code : option string;
  error_type : option string;
}.

Record PaymentIntent := {
  intent_id : string;
  last_payment_error : option LastPaymentError;
}.

Record Charge := {
  charge_id : string;
  charge_amount : Z;
  amount_refunded : Z;
  refunded : bool;
  charge_currency : string;
  charge_payment_intent : option Expandable;
}.

Record Dispute := {
  dispute_id : string;
  dispute_charge : Expandable;
  dispute_amount : Z;
  dispute_currency : string;
  dispute_reason : string;
  dispute_payment_intent : option Expandable;
}.

(** [event.type] together with [event.data.object]. *)
Inductive EventData :=
  | CheckoutSessionCompleted (session : CheckoutSession)
  | CheckoutSessionExpired (session : CheckoutSession)
  | PaymentIntentPaymentFailed (paymentIntent : PaymentIntent)
  | ChargeRefunded (charge : Charge)
  | ChargeDisputeCreated (dispute : Dispute)
  | OtherEvent (type : string).

Record StripeEvent := { event_id : string; data : EventData }.

Definition eventType (e : StripeEvent) : string :=
  match data e with
  | CheckoutSessionCompleted _ => "checkout.session.completed"
  | CheckoutSessionExpired _ => "checkout.session.expired"
  | PaymentIntentPaymentFailed _ => "payment_intent.payment_failed"
  | ChargeRefunded _ => "charge.refunded"
  | ChargeDisputeCreated _ => "charge.dispute.created"
  | OtherEvent type => type
  end.

(** [session.metadata?.[key]] *)
Definition metadataGet (session : CheckoutSession) (key : string) : option string :=
  match metadata session with
  | Some m => m !! key
  | None => None
  end.

(** ** The database (through Prisma) *)

Inductive PaymentStatus := UNPAID | PAID | PARTIALLY_REFUNDED | REFUNDED | DISPUTED.

Record Project := {
  project_id : string;
  publicId : string;
  project_name : string;
  paymentStatus : PaymentStatus;
  stripePaymentIntentId : option string;
  stripeCheckoutSessionId : option string;
}.

Record Invoice := {
  invoiceNumber : string;
  invoice_status : string;
  paidAt : option Z;
}.

Inductive PaymentEventStatus := SUCCESS | FAILED | UNMATCHED | DISPUTE.

(** A value of the free-form [metadata] column. *)
Inductive Json :=
  | JString (s : string)
  | JNumber (n : Z)
  | JBool (b : bool)
  | JNull.

Definition jsonOfString (s : option string) : Json :=
  match s with Some s => JString s | None => JNull end.
Definition jsonOfNumber (n : option Z) : Json :=
  match n with Some n => JNumber n | None => JNull end.

Record PaymentEventRow := {
  provider : string;
  eventId : string;
  row_eventType : string;
  row_projectId : option string;
  row_status : PaymentEventStatus;
  errorMsg : option string;
  row_metadata : list (string * Json);
}.

Record DB := {
  projects : list Project;
  invoices : gmap string Invoice;
  payment_events : list PaymentEventRow;
}.

(** Modelled from the spec: [isEventProcessed] lives in
    lib/payment-status, which is not among the sources.  "A fast
    existence check against the ReconciliationRecord store." *)
Definition isEventProcessed (id : string) (db : DB) : bool :=
  existsb (fun row => String.eqb (eventId row) id) (payment_events db).

(** Modelled from the spec: the Prisma schema is not among the sources;
    the spec makes [eventId] unique at the storage layer, so
    [prisma.payment_events.create({ data })] throws on a second row
    with the same [eventId] and appends the row otherwise. *)
Definition payment_events_create (row : PaymentEventRow) (db : DB) : Completion unit * DB :=
  if isEventProcessed (eventId row) db
  then (Throw "Unique constraint failed on the fields: (`eventId`)", db)
  else (Return tt,
        {| projects := projects db; invoices := invoices db;
           payment_events := payment_events db ++ [row] |}).

(** [prisma.invoices.update({ where: { id }, data: { status: 'PAID', paidAt } })];
    Prisma throws when no record has this id. *)
Definition invoices_markPaid (id : string) (now : Z) (db : DB) : Completion unit * DB :=
  match invoices db !! id with
  | Some inv =>
      (Return tt,
       {| projects := projects db;
          invoices := <[id := {| invoiceNumber := invoiceNumber inv;
                                 invoice_status := "PAID";
                                 paidAt := Some now |}]> (invoices db);
          payment_events := payment_events db |})
  | None => (Throw "Record to update not found.", db)
  end.

(** [prisma.projects.findUnique({ where: { publicId } })] *)
Definition projects_findByPublicId (pid : string) (db : DB) : option Project :=
  find (fun p => String.eqb (publicId p) pid) (projects db).

(** [prisma.projects.findFirst({ where: { stripePaymentIntentId } })] *)
Definition projects_findByPaymentIntent (pi : string) (db : DB) : option Project :=
  find (fun p => bool_decide (stripePaymentIntentId p = Some pi)) (projects db).

(** ** The per-IP limiter of the route *)

Definition RATE_LIMIT_WINDOW : Z := 60 * 1000.
Definition RATE_LIMIT_MAX : Z := 100.
Definition RATE_LIMIT_CLEANUP_INTERVAL : Z := 5 * 60 * 1000.
Definition RATE_LIMIT_MAX_ENTRIES : Z := 1000.

Record Limiter := {
  rateLimitMap : gmap string RateLimit.Entry;
  lastCleanup : Z;
}.

(** [cleanupRateLimitMap()]; [now] is the reading of [Date.now()] the
    function takes itself. *)
Definition cleanupRateLimitMap (now : Z) (l : Limiter) : Limiter :=
  if (now - lastCleanup l <? RATE_LIMIT_CLEANUP_INTERVAL)
     && (Z.of_nat (size (rateLimitMap l)) <? RATE_LIMIT_MAX_ENTRIES)
  then l
  else {| rateLimitMap := RateLimit.sweepExpired now (rateLimitMap l);
          lastCleanup := now |}.

(** [checkRateLimit(ip)].  [now] is the reading of [Date.now()] at its
    first line; [cleanupRateLimitMap] then takes a reading of its own,
    [cleanupAt]. *)
Definition checkRateLimit (ip : string) (now cleanupAt : Z) (l : Limiter)
    : bool * Limiter :=
  let l := cleanupRateLimitMap cleanupAt l in
  let fresh :=
    (true, {| rateLimitMap :=
                <[ip := {| RateLimit.count := 1;
                           RateLimit.resetAt := now + RATE_LIMIT_WINDOW |}]>
                  (rateLimitMap l);
              lastCleanup := lastCleanup l |}) in
  match rateLimitMap l !! ip with
  | None => fresh
  | Some entry =>
      if RateLimit.resetAt entry <? now then fresh
      else if RATE_LIMIT_MAX <=? RateLimit.count entry then (false, l)
      else (true, {| rateLimitMap :=
                       <[ip := {| RateLimit.count := RateLimit.count entry + 1;
                                  RateLimit.resetAt := RateLimit.resetAt entry |}]>
                         (rateLimitMap l);
                     lastCleanup := lastCleanup l |})
  end.

(** ** Requests, responses and the process around the route *)

Record Request := {
  x_forwarded_for : option string;
  stripe_signature : option string;
  text : Completion string;
}.

(** [NextResponse.json(body, { status })] *)
Record Response := { httpStatus : Z; body : list (string * Json) }.

Definition json (status : Z) (body : list (string * Json)) : Response :=
  {| httpStatus := status; body := body |}.

Record ProcessEnv := {
  STRIPE_WEBHOOK_SECRET : option string;
  NODE_ENV : option string;
  pushoverEnv : Notifications.Env;
}.

(** Everything the route can change. *)
Record World := {
  db : DB;
  limiter : Limiter;
  notifier : Notifications.Effects;
}.

Definition withDb (w : World) (d : DB) : World :=
  {| db := d; limiter := limiter w; notifier := notifier w |}.
Definition withLimiter (w : World) (l : Limiter) : World :=
  {| db := db w; limiter := l; notifier := notifier w |}.
Definition withNotifier (w : World) (n : Notifications.Effects) : World :=
  {| db := db w; limiter := limiter w; notifier := n |}.

(** Asynchronous code of the route: it reads and changes the world and
    either returns or throws; what was changed before a throw stays
    changed. *)
Definition M (A : Type) : Type := World -> Completion A * World.

Definition ret {A} (a : A) : M A := fun w => (Return a, w).

Definition bind {A B} (m : M A) (k : A -> M B) : M B :=
  fun w =>
    match m w with
    | (Return a, w') => k a w'
    | (Throw e, w') => (Throw e, w')
    end.

(** [try { m } catch (error) { handler }] *)
Definition tryCatch {A} (m : M A) (handler : string -> M A) : M A :=
  fun w =>
    match m w with
    | (Return a, w') => (Return a, w')
    | (Throw e, w') => handler e w'
    end.

Notation "x <- m ;; k" := (bind m (fun x => k))
  (at level 100, m at next level, right associativity).
Notation "m ;;; k" := (bind m (fun _ => k))
  (at level 100, right associativity).

Definition onDb {A} (op : DB -> Completion A * DB) : M A :=
  fun w => let '(r, d) := op (db w) in (r, withDb w d).

Definition readDb {A} (q : DB -> A) : M A := fun w => (Return (q (db w)), w).

(** [s.split(',')[0]] *)
Fixpoint firstSegment (s : string) : string :=
  match s with
  | EmptyString => EmptyString
  | String a rest =>
      if Ascii.eqb a ","%char then EmptyString else String a (firstSegment rest)
  end.

Definition upperAscii (a : ascii) : ascii :=
  let n := nat_of_ascii a in
  if ((97 <=? n) && (n <=? 122))%nat then ascii_of_nat (n - 32) else a.

(** [s.toUpperCase()] on ASCII text. *)
Fixpoint toUpperCase (s : string) : string :=
  match s with
  | EmptyString => EmptyString
  | String a rest => String (upperAscii a) (toUpperCase rest)
  end.

(** [typeof x === 'string' ? x : undefined] on an expandable reference. *)
Definition stringOnly (x : option Expandable) : option string :=
  match x with
  | Some (AsId id) => Some id
  | _ => None
  end.

(** The id of an expandable reference, expanded or not. *)
Definition referenceId (x : Expandable) : string :=
  match x with AsId id => id | AsObject id => id end.

(** JavaScript truthiness of [string | object | null]: an object is
    truthy, a string when it is not empty. *)
Definition truthyReference (x : option Expandable) : bool :=
  match x with
  | Some (AsId id) => negb (String.eqb id "")
  | Some (AsObject _) => true
  | None => false
  end.

(** JavaScript truthiness of [number | null]. *)
Definition truthyAmount (n : option Z) : bool :=
  match n with
  | Some n => negb (n =? 0)
  | None => false
  end.

(** [request.headers.get('x-forwarded-for')?.split(',')[0] || 'unknown'] *)
Definition clientIp (request : Request) : string :=
  let first := firstSegment <$> x_forwarded_for request in
  if truthy first then default "" first else "unknown".

(** ** What lib/stripe and lib/payment-status provide *)

(** [STRIPE_METADATA_KEYS], as far as the route reads it. *)
Record MetadataKeys := { PROJECT_PUBLIC_ID : string; ENVIRONMENT : string }.

Record CheckoutParams := {
  cp_eventId : string;
  cp_eventType : string;
  cp_projectPublicId : string;
  cp_checkoutSessionId : string;
  cp_paymentIntentId : option string;
  cp_amountTotal : option Z;
  cp_customerEmail : option string;
  cp_metadata : option (gmap string string);
}.

Record CheckoutResult := {
  cr_success : bool;
  cr_error : option string;
  cr_unmatched : bool;
  cr_skipped : bool;
  cr_projectId : option string;
}.

Record RefundParams := {
  rp_eventId : string;
  rp_eventType : string;
  rp_chargeId : string;
  rp_paymentIntentId : option string;
  rp_refundAmount : Z;
  rp_originalAmount : Z;
  rp_isFullRefund : bool;
  rp_currency : string;
  rp_projectId : option string;
}.

Record RefundResult := {
  rr_success : bool;
  rr_isPartial : bool;
  rr_projectId : option string;
  rr_error : option string;
}.

Section Route.

(** The parts of lib/stripe and lib/payment-status the route calls, the
    formatter and endpoint behind the notifier, and the environment. *)
Variable STRIPE_METADATA_KEYS : MetadataKeys.
Variable verifyStripeWebhook : string -> string -> string -> Completion StripeEvent.
Variable processStripeCheckoutCompleted : CheckoutParams -> DB -> Completion CheckoutResult * DB.
Variable processStripeRefund : RefundParams -> DB -> Completion RefundResult * DB.
Variable format : string -> Q -> string.
Variable pushover : Notifications.PushoverMessage -> Notifications.FetchResult.
Variable env : ProcessEnv.

Definition sendPaymentNotification (data : Notifications.PaymentNotificationData) : M unit :=
  fun w =>
    let '(r, fx) := Notifications.sendPaymentNotification format pushover
                      (pushoverEnv env) data (notifier w) in
    (r, withNotifier w fx).

Definition received (status : string) : list (string * Json) :=
  [("received", JBool true); ("status", JString status)].

(** [process.env.NODE_ENV === 'production' ? 'production' : 'development'] *)
Definition currentEnv : string :=
  if bool_decide (NODE_ENV env = Some "production") then "production" else "development".

Definition paymentNotice (amountTotal : Z) (currency : option string)
    (projectName : string) (projectId : option string)
    : Notifications.PaymentNotificationData :=
  {| Notifications.type := Notifications.payment;
     Notifications.amount := amountTotal # 100;
     Notifications.currency :=
       (let c := toUpperCase <$> currency in if truthy c then default "" c else "CAD");
     Notifications.projectName := projectName;
     Notifications.projectId := projectId;
     Notifications.chargeId := None;
     Notifications.disputeId := None;
     Notifications.reason := None;
     Notifications.priority := None;
     Notifications.isPartialRefund := None;
     Notifications.originalAmount := None |}.

(** [handleCheckoutSessionCompleted(event)] *)
Definition handleCheckoutSessionCompleted (event : StripeEvent)
    (session : CheckoutSession) (now : Z) : M Response :=
  let projectPublicId := metadataGet session (PROJECT_PUBLIC_ID STRIPE_METADATA_KEYS) in
  let environment := metadataGet session (ENVIRONMENT STRIPE_METADATA_KEYS) in
  if truthy environment && negb (String.eqb (default "" environment) currentEnv) then
    ret (json 200 (received "wrong_environment"))
  else
    let invoiceId := metadataGet session "invoice_id" in
    if negb (truthy projectPublicId) then
      if truthy invoiceId then
        let invoiceId := default "" invoiceId in
        tryCatch
          (onDb (invoices_markPaid invoiceId now) ;;;
           onDb (payment_events_create
                   {| provider := "STRIPE";
                      eventId := event_id event;
                      row_eventType := eventType event;
                      row_projectId := None;
                      row_status := SUCCESS;
                      errorMsg := None;
                      row_metadata :=
                        [("sessionId", JString (session_id session));
                         ("invoiceId", JString invoiceId);
                         ("customerEmail", jsonOfString (customer_email session));
                         ("amountTotal", jsonOfNumber (amount_total session));
                         ("note", JString "Invoice paid without linked project")] |}) ;;;
           (if truthyAmount (amount_total session) then
              invoice <- readDb (fun d => invoices d !! invoiceId) ;;
              sendPaymentNotification
                (paymentNotice (default 0 (amount_total session))
                   (session_currency session)
                   ("Invoice " +:+
                      (let n := invoiceNumber <$> invoice in
                       if truthy n then default "" n else invoiceId))
                   None)
            else ret tt) ;;;
           ret (json 200 (received "success" ++ [("invoiceId", JString invoiceId)])))
          (fun _ => ret (json 500 [("error", JString "Failed to process")]))
      else
        onDb (payment_events_create
                {| provider := "STRIPE";
                   eventId := event_id event;
                   row_eventType := eventType event;
                   row_projectId := None;
                   row_status := UNMATCHED;
                   errorMsg := Some "Missing project_public_id in session metadata";
                   row_metadata :=
                     [("sessionId", JString (session_id session));
                      ("customerEmail", jsonOfString (customer_email session));
                      ("amountTotal", jsonOfNumber (amount_total session))] |}) ;;;
        ret (json 200 (received "unmatched"))
    else
      let projectPublicId := default "" projectPublicId in
      result <- onDb (processStripeCheckoutCompleted
                        {| cp_eventId := event_id event;
                           cp_eventType := eventType event;
                           cp_projectPublicId := projectPublicId;
                           cp_checkoutSessionId := session_id session;
                           cp_paymentIntentId := stringOnly (session_payment_intent session);
                           cp_amountTotal := amount_total session;
                           cp_customerEmail := customer_email session;
                           cp_metadata := metadata session |}) ;;
      if negb (cr_success result) then
        if cr_unmatched result then ret (json 200 (received "unmatched"))
        else ret (json 500 [("error", jsonOfString (cr_error result))])
      else
        (if cr_skipped result then ret tt
         else
           (if truthy invoiceId then
              tryCatch (onDb (invoices_markPaid (default "" invoiceId) now))
                       (fun _ => ret tt)
            else ret tt) ;;;
           (if truthyAmount (amount_total session) then
              project <- readDb (projects_findByPublicId projectPublicId) ;;
              sendPaymentNotification
                (paymentNotice (default 0 (amount_total session))
                   (session_currency session)
                   (let n := project_name <$> project in
                    if truthy n then default "" n else projectPublicId)
                   (project_id <$> project))
            else ret tt)) ;;;
        ret (json 200 (received "success"
                         ++ [("projectId", jsonOfString (cr_projectId result))])).

(** [handleCheckoutSessionExpired(event)] *)
Definition handleCheckoutSessionExpired (event : StripeEvent)
    (session : CheckoutSession) : M Response :=
  let projectPublicId := metadataGet session (PROJECT_PUBLIC_ID STRIPE_METADATA_KEYS) in
  onDb (payment_events_create
          {| provider := "STRIPE";
             eventId := event_id event;
             row_eventType := eventType event;
             row_projectId := None;
             row_status := SUCCESS;
             errorMsg := None;
             row_metadata :=
               [("sessionId", JString (session_id session));
                ("projectPublicId", jsonOfString projectPublicId);
                ("reason", JString "Session expired before completion")] |}) ;;;
  ret (json 200 (received "logged")).

(** [handlePaymentIntentFailed(event)] *)
Definition handlePaymentIntentFailed (event : StripeEvent)
    (paymentIntent : PaymentIntent) : M Response :=
  let lastError := last_payment_error paymentIntent in
  let message := lastError ≫= error_message in
  onDb (payment_events_create
          {| provider := "STRIPE";
             eventId := event_id event;
             row_eventType := eventType event;
             row_projectId := None;
             row_status := FAILED;
             errorMsg := Some (if truthy message then default "" message
                               else "Payment failed");
             row_metadata :=
               [("paymentIntentId", JString (intent_id paymentIntent));
                ("errorCode", jsonOfString (lastError ≫= error_code));
                ("errorType", jsonOfString (lastError ≫= error_type))] |}) ;;;
  ret (json 200 (received "logged")).

(** [handleChargeRefunded(event)] *)
Definition handleChargeRefunded (event : StripeEvent) (charge : Charge) : M Response :=
  let refundAmount := amount_refunded charge in
  let originalAmount := charge_amount charge in
  let isFullRefund := refunded charge in
  let currency := toUpperCase (charge_currency charge) in
  let paymentIntentId := stringOnly (charge_payment_intent charge) in
  project <- (if truthy paymentIntentId
              then readDb (projects_findByPaymentIntent (default "" paymentIntentId))
              else ret None) ;;
  result <- onDb (processStripeRefund
                    {| rp_eventId := event_id event;
                       rp_eventType := eventType event;
                       rp_chargeId := charge_id charge;
                       rp_paymentIntentId := paymentIntentId;
                       rp_refundAmount := refundAmount;
                       rp_originalAmount := originalAmount;
                       rp_isFullRefund := isFullRefund;
                       rp_currency := currency;
                       rp_projectId := project_id <$> project |}) ;;
  sendPaymentNotification
    {| Notifications.type := Notifications.refund;
       Notifications.amount := refundAmount # 100;
       Notifications.currency := currency;
       Notifications.projectName :=
         (let n := project_name <$> project in
          if truthy n then default "" n else "Unknown Project");
       Notifications.projectId := project_id <$> project;
       Notifications.chargeId := Some (charge_id charge);
       Notifications.disputeId := None;
       Notifications.reason := None;
       Notifications.priority := None;
       Notifications.isPartialRefund := Some (negb isFullRefund);
       Notifications.originalAmount := Some (originalAmount # 100) |} ;;;
  ret (json 200 (received (if rr_success result then "success" else "logged"))).

(** [handleChargeDisputeCreated(event)] *)
Definition handleChargeDisputeCreated (event : StripeEvent) (dispute : Dispute)
    : M Response :=
  let charge := referenceId (dispute_charge dispute) in
  let amount := dispute_amount dispute in
  let currency := toUpperCase (dispute_currency dispute) in
  let reason := dispute_reason dispute in
  project <- (if truthyReference (dispute_payment_intent dispute)
              then readDb (projects_findByPaymentIntent
                             (default "" (referenceId <$> dispute_payment_intent dispute)))
              else ret None) ;;
  onDb (payment_events_create
          {| provider := "STRIPE";
             eventId := event_id event;
             row_eventType := eventType event;
             row_projectId := project_id <$> project;
             row_status := DISPUTE;
             errorMsg := Some ("Dispute: " +:+ reason);
             row_metadata :=
               [("disputeId", JString (dispute_id dispute));
                ("chargeId", JString charge);
                ("amount", JNumber amount);
                ("currency", JString currency);
                ("reason", JString reason);
                ("projectName", jsonOfString (project_name <$> project))] |}) ;;;
  sendPaymentNotification
    {| Notifications.type := Notifications.dispute;
       Notifications.amount := amount # 100;
       Notifications.currency := currency;
       Notifications.projectName :=
         (let n := project_name <$> project in
          if truthy n then default "" n else "Unknown Project");
       Notifications.projectId := project_id <$> project;
       Notifications.chargeId := None;
       Notifications.disputeId := Some (dispute_id dispute);
       Notifications.reason := Some reason;
       Notifications.priority := Some 1;
       Notifications.isPartialRefund := None;
       Notifications.originalAmount := None |} ;;;
  ret (json 200 (received "logged")).

(** The [switch (event.type)] of [POST]. *)
Definition dispatch (event : StripeEvent) (now : Z) : M Response :=
  match data event with
  | CheckoutSessionCompleted session => handleCheckoutSessionCompleted event session now
  | CheckoutSessionExpired session => handleCheckoutSessionExpired event session
  | PaymentIntentPaymentFailed paymentIntent => handlePaymentIntentFailed event paymentIntent
  | ChargeRefunded charge => handleChargeRefunded event charge
  | ChargeDisputeCreated dispute => handleChargeDisputeCreated event dispute
  | OtherEvent _ => ret (json 200 (received "unhandled"))
  end.

(** [POST(request)]; [now] is the clock reading of the request, and
    [cleanupAt] the reading [cleanupRateLimitMap] takes inside the
    admission check. *)
Definition POST (request : Request) (now cleanupAt : Z) (w : World)
    : Response * World :=
  let ip := clientIp request in
  let '(admitted, l) := checkRateLimit ip now cleanupAt (limiter w) in
  let w := withLimiter w l in
  if negb admitted then (json 429 [("error", JString "Rate limit exceeded")], w)
  else if negb (truthy (STRIPE_WEBHOOK_SECRET env)) then
    (json 500 [("error", JString "Webhook not configured")], w)
  else if negb (truthy (stripe_signature request)) then
    (json 400 [("error", JString "Missing signature")], w)
  else
    match text request with
    | Throw _ => (json 400 [("error", JString "Invalid body")], w)
    | Return rawBody =>
        match verifyStripeWebhook rawBody (default "" (stripe_signature request))
                (default "" (STRIPE_WEBHOOK_SECRET env)) with
        | Throw _ => (json 401 [("error", JString "Invalid signature")], w)
        | Return event =>
            if isEventProcessed (event_id event) (db w) then
              (json 200 (received "already_processed"), w)
            else
              match dispatch event now w with
              | (Return response, w') => (response, w')
              | (Throw _, w') => (json 500 [("error", JString "Internal error")], w')
              end
        end
    end.

(** The request gets past the limiter and the configuration check:
    it reaches the signature handling of [POST]. *)
Definition reachesVerification (request : Request) (now cleanupAt : Z) (w : World)
    : Prop :=
  (checkRateLimit (clientIp request) now cleanupAt (limiter w)).1 = true
  /\ truthy (STRIPE_WEBHOOK_SECRET env) = true.

(** The request reaches verification and [verifyStripeWebhook] returns
    [event] for it. *)
Definition verifiedAs (request : Request) (now cleanupAt : Z) (w : World)
    (event : StripeEvent) : Prop :=
  reachesVerification request now cleanupAt w
  /\ truthy (stripe_signature request) = true
  /\ exists rawBody,
       text request = Return rawBody
       /\ verifyStripeWebhook rawBody (default "" (stripe_signature request))
            (default "" (STRIPE_WEBHOOK_SECRET env)) = Return event.

(** Signature verification fails for the request: the header is
    missing, or [verifyStripeWebhook] throws on it. *)
Definition verificationFails (request : Request) : Prop :=
  truthy (stripe_signature request) = false
  \/ exists rawBody msg,
       text request = Return rawBody
       /\ verifyStripeWebhook rawBody (default "" (stripe_signature request))
            (default "" (STRIPE_WEBHOOK_SECRET env)) = Throw msg.

(** The session's environment tag is one the handler skips: present,
    non-empty and different from the current environment. *)
Definition foreignEnvironment (session : CheckoutSession) : bool :=
  let environment := metadataGet session (ENVIRONMENT STRIPE_METADATA_KEYS) in
  truthy environment && negb (String.eqb (default "" environment) currentEnv).

(** The session names neither a project nor an invoice. *)
Definition noCorrelationId (session : CheckoutSession) : bool :=
  negb (truthy (metadataGet session (PROJECT_PUBLIC_ID STRIPE_METADATA_KEYS)))
  && negb (truthy (metadataGet session "invoice_id")).

End Route.

(** ** Sample instances *)

Definition sampleKeys : MetadataKeys :=
  {| PROJECT_PUBLIC_ID := "project_public_id"; ENVIRONMENT := "environment" |}.

Definition sampleSession (meta : list (string * string)) : CheckoutSession :=
  {| session_id := "cs_test_1";
     metadata := Some (list_to_map meta);
     customer_email := Some "client@example.com";
     amount_total := Some 120000;
     session_currency := Some "cad";
     session_payment_intent := Some (AsId "pi_1") |}.

(** Three deliveries: a checkout without correlation ids, the same with
    a production tag, and one naming a project. *)
Definition sampleParse (rawBody : string) : option StripeEvent :=
  if String.eqb rawBody "no-ids" then
    Some {| event_id := "evt_1"; data := CheckoutSessionCompleted (sampleSession []) |}
  else if String.eqb rawBody "no-ids-production" then
    Some {| event_id := "evt_2";
            data := CheckoutSessionCompleted (sampleSession [("environment", "production")]) |}
  else if String.eqb rawBody "project" then
    Some {| event_id := "evt_3";
            data := CheckoutSessionCompleted
                      (sampleSession [("project_public_id", "prj_1");
                                      ("environment", "production")]) |}
  else None.

(** A verifier with the shape of [verifyStripeWebhook]: it accepts the
    signature derived from the secret and throws otherwise. *)
Definition sampleVerify (rawBody signature secret : string) : Completion StripeEvent :=
  if String.eqb signature ("v1=" +:+ secret) then
    match sampleParse rawBody with
    | Some e => Return e
    | None => Throw "Unexpected token in JSON"
    end
  else Throw "No signatures found matching the expected signature for payload".

Definition sampleCheckout (params : CheckoutParams) (d : DB) : Completion CheckoutResult * DB :=
  (Return {| cr_success := false; cr_error := Some "Project not found";
             cr_unmatched := true; cr_skipped := false; cr_projectId := None |}, d).

Definition sampleRefund (params : RefundParams) (d : DB) : Completion RefundResult * DB :=
  (Return {| rr_success := true; rr_isPartial := negb (rp_isFullRefund params);
             rr_projectId := rp_projectId params; rr_error := None |}, d).

Definition sampleEnv : ProcessEnv :=
  {| STRIPE_WEBHOOK_SECRET := Some "whsec_test";
     NODE_ENV := Some "development";
     pushoverEnv := Notifications.sampleEnv |}.

Definition emptyWorld : World :=
  {| db := {| projects := []; invoices := ∅; payment_events := [] |};
     limiter := {| rateLimitMap := ∅; lastCleanup := 0 |};
     notifier := Notifications.noEffects |}.

(** The world after event evt_1 has been recorded. *)
Definition recordedWorld : World :=
  withDb emptyWorld
    {| projects := []; invoices := ∅;
       payment_events :=
         [{| provider := "STRIPE"; eventId := "evt_1";
             row_eventType := "checkout.session.completed";
             row_projectId := None; row_status := UNMATCHED;
             errorMsg := Some "Missing project_public_id in session metadata";
             row_metadata := [] |}] |}.

Definition signedRequest (rawBody : string) : Request :=
  {| x_forwarded_for := Some "203.0.113.7, 10.0.0.1";
     stripe_signature := Some "v1=whsec_test";
     text := Return rawBody |}.

Definition unsignedRequest (rawBody : string) : Request :=
  {| x_forwarded_for := Some "203.0.113.7, 10.0.0.1";
     stripe_signature := None;
     text := Return rawBody |}.

Definition forgedRequest (rawBody : string) : Request :=
  {| x_forwarded_for := Some "203.0.113.7, 10.0.0.1";
     stripe_signature := Some "v1=guess";
     text := Return rawBody |}.

(** [POST] with the sample collaborators. *)
Definition samplePOST : Request -> Z -> Z -> World -> Response * World :=
  POST sampleKeys sampleVerify sampleCheckout sampleRefund
    Notifications.plainFormat Notifications.pushoverUp sampleEnv.

End StripeWebhook.

(* ===================================================================== *)
(** * The rest of lib/encryption.ts: tokens, comparison, lead records     *)
(* ===================================================================== *)

Module Tokens.
Import Encryption.

(** The lower-case hexadecimal digit of a value below 16. *)
Definition hexDigit (v : Z) : Z := if v <? 10 then 48 + v else 87 + v.

(** [buf.toString('hex')] *)
Fixpoint hexEncode (bs : Buffer) : jsstring :=
  match bs with
  | [] => []
  | b :: rest =>
      hexDigit (Z_of_byte b / 16) :: hexDigit (Z_of_byte b mod 16) :: hexEncode rest
  end.

Definition isHexDigit (c : Z) : bool :=
  (48 <=? c) && (c <=? 57) || (97 <=? c) && (c <=? 102).

(** [buffer.constants.MAX_STRING_LENGTH] of the 64-bit runtime,
    2^29 - 24: the longest string [buf.toString] can build. *)
Definition MAX_STRING_LENGTH : Z := 536870888.

(** [generateSecureToken(length)], for an integer [length];
    [crypto.randomBytes] throws a RangeError when the size is negative
    or above 2^31 - 1, and [toString('hex')] throws
    ERR_STRING_TOO_LONG, after the bytes were drawn, when the two
    digits per byte exceed the longest string. *)
Definition generateSecureToken (length : Z) (e : Entropy)
    : Completion jsstring * Entropy :=
  if (0 <=? length) && (length <=? 2147483647) then
    let '(bytes, e') := randomBytes (Z.to_nat length) e in
    if 2 * length <=? MAX_STRING_LENGTH then (Return (hexEncode bytes), e')
    else (Throw "Cannot create a string longer than 0x1fffffe8 characters", e')
  else (Throw "The value of size is out of range", e).

(** [secureCompare(a, b)]: both strings are turned into UTF-8 buffers;
    buffers of different lengths are unequal, buffers of the same
    length are compared by [crypto.timingSafeEqual]. *)
Definition secureCompare (a b : jsstring) : bool :=
  let bufA := utf8Encode a in
  let bufB := utf8Encode b in
  if negb (length bufA =? length bufB)%nat then false
  else sameBytes bufA bufB.

End Tokens.

Module Leads.
Import Encryption.

(** AES-GCM is a stream mode: the ciphertext is as long as the
    plaintext. *)
Definition CiphertextLength (c : NodeCrypto) : Prop :=
  forall key iv pt ct tag,
    aesGcmEncrypt c key iv pt = Some (ct, tag) -> length ct = length pt.


(** JavaScript truthiness of [string | null | undefined]. *)
Definition present (s : option jsstring) : bool :=
  match s with
  | Some s => nonEmpty s
  | None => false
  end.

Section LeadFunctions.
Variable crypto : NodeCrypto.
Variable env : Env.




(** A lead row as the data-access layer sees it: the three sensitive
    columns (each [string | null]) and everything else. *)
Record LeadRow (A : Type) := {
  row_email : option jsstring;
  row_phone : option jsstring;
  row_message : option jsstring;
  row_rest : A;
}.
Arguments row_email {A}.
Arguments row_phone {A}.
Arguments row_message {A}.
Arguments row_rest {A}.

(** [field && typeof field === 'string' ? safeDecrypt(field) : field] *)
Definition decryptField (x : option jsstring) : option jsstring :=
  if present x then Some (safeDecrypt crypto env (default [] x)).1 else x.

(** [decryptLeadFields(lead)] of the lead data-access layer, for a
    lead that is not [null]. *)
Definition decryptLeadFields {A} (lead : LeadRow A) : LeadRow A :=
  {| row_email := decryptField (row_email lead);
     row_phone := decryptField (row_phone lead);
     row_message := decryptField (row_message lead);
     row_rest := row_rest lead |}.

(** [decryptLeadArray(leads)] *)
Definition decryptLeadArray {A} (leads : list (LeadRow A)) : list (LeadRow A) :=
  map decryptLeadFields leads.

(** The sensitive columns as the intake route computes them before
    [prisma.leads.create]:
    [storedEmail = shouldEncrypt ? encrypt(email) : email],
    [storedPhone = phone ? (shouldEncrypt ? encrypt(phone) : phone) : null],
    and the same for the message, with
    [shouldEncrypt = isEncryptionConfigured()]. *)
Definition storedColumns (email phone message : jsstring) (e : Entropy)
    : Completion (jsstring * option jsstring * option jsstring) * Entropy :=
  let shouldEncrypt := isEncryptionConfigured env in
  let store (x : jsstring) (e : Entropy) : Completion jsstring * Entropy :=
    if shouldEncrypt then encrypt crypto env x e else (Return x, e) in
  let storeOptional (x : jsstring) (e : Entropy)
      : Completion (option jsstring) * Entropy :=
    if nonEmpty x then
      match store x e with
      | (Return v, e') => (Return (Some v), e')
      | (Throw msg, e') => (Throw msg, e')
      end
    else (Return None, e) in
  match store email e with
  | (Throw msg, e1) => (Throw msg, e1)
  | (Return storedEmail, e1) =>
      match storeOptional phone e1 with
      | (Throw msg, e2) => (Throw msg, e2)
      | (Return storedPhone, e2) =>
          match storeOptional message e2 with
          | (Throw msg, e3) => (Throw msg, e3)
          | (Return storedMessage, e3) =>
              (Return (storedEmail, storedPhone, storedMessage), e3)
          end
      end
  end.

End LeadFunctions.




End Leads.

(* ===================================================================== *)
(** * Vocabulary for the properties of the route and the notifier         *)
(* ===================================================================== *)

Module RouteFacts.
Import StripeWebhook.

(** Every response the computation returns has status 200 or 500. *)
Definition answers200or500 (m : M Response) : Prop :=
  forall w r w', m w = (Return r, w') -> httpStatus r = 200 \/ httpStatus r = 500.

(** The computation leaves the per-IP limiter alone. *)
Definition keepsLimiter {A} (m : M A) : Prop :=
  forall w, limiter (m w).2 = limiter w.

(** Both Pushover credentials are set. *)
Definition credentialsSet (env : Notifications.Env) : bool :=
  truthy (Notifications.PUSHOVER_API_TOKEN env)
  && truthy (Notifications.PUSHOVER_USER_KEY env).

(** The title [sendPaymentNotification] gives to a notice. *)
Definition titleOf (data : Notifications.PaymentNotificationData) : string :=
  match Notifications.type data with
  | Notifications.payment => "💰 Payment Received"
  | Notifications.refund =>
      if default false (Notifications.isPartialRefund data)
      then "↩️ Partial Refund" else "↩️ Full Refund"
  | Notifications.dispute => "⚠️ DISPUTE ALERT"
  end.

(** The requests handed to Pushover grew by exactly one, of the given
    title, priority and sound, when the credentials are set, and not at
    all otherwise. *)
Definition notifiedOnce (env : Notifications.Env) (title : string) (priority : Z)
    (sound : string) (before after : Notifications.Effects) : Prop :=
  if credentialsSet env then
    exists m,
      Notifications.sent after = Notifications.sent before ++ [m]
      /\ Notifications.title m = title
      /\ Notifications.msgPriority m = priority
      /\ Notifications.sound m = sound
  else Notifications.sent after = Notifications.sent before.

(** The project a payment intent resolves to, as [handleChargeRefunded]
    and [handleChargeDisputeCreated] look it up. *)
Definition refundProject (charge : Charge) (d : DB) : option Project :=
  let paymentIntentId := stringOnly (charge_payment_intent charge) in
  if truthy paymentIntentId
  then projects_findByPaymentIntent (default "" paymentIntentId) d
  else None.

Definition disputeProject (dispute : Dispute) (d : DB) : option Project :=
  if truthyReference (dispute_payment_intent dispute)
  then projects_findByPaymentIntent
         (default "" (referenceId <$> dispute_payment_intent dispute)) d
  else None.

(** The argument [handleChargeRefunded] passes to [processStripeRefund]. *)
Definition refundParamsOf (event : StripeEvent) (charge : Charge) (d : DB)
    : RefundParams :=
  {| rp_eventId := event_id event;
     rp_eventType := eventType event;
     rp_chargeId := charge_id charge;
     rp_paymentIntentId := stringOnly (charge_payment_intent charge);
     rp_refundAmount := amount_refunded charge;
     rp_originalAmount := charge_amount charge;
     rp_isFullRefund := refunded charge;
     rp_currency := toUpperCase (charge_currency charge);
     rp_projectId := project_id <$> refundProject charge d |}.

(** The currency a checkout notice is formatted in:
    [session.currency?.toUpperCase() || 'CAD']. *)
Definition checkoutCurrency (session : CheckoutSession) : string :=
  let c := toUpperCase <$> session_currency session in
  if truthy c then default "" c else "CAD".

(** The argument [handleCheckoutSessionCompleted] passes to
    [processStripeCheckoutCompleted]. *)
Definition checkoutParamsOf (keys : MetadataKeys) (event : StripeEvent)
    (session : CheckoutSession) : CheckoutParams :=
  {| cp_eventId := event_id event;
     cp_eventType := eventType event;
     cp_projectPublicId := default "" (metadataGet session (PROJECT_PUBLIC_ID keys));
     cp_checkoutSessionId := session_id session;
     cp_paymentIntentId := stringOnly (session_payment_intent session);
     cp_amountTotal := amount_total session;
     cp_customerEmail := customer_email session;
     cp_metadata := metadata session |}.

(** The invoice a session names in its metadata, when the database
    holds it. *)
Definition linkedInvoice (session : CheckoutSession) (d : DB)
    : option (string * Invoice) :=
  let invoiceId := metadataGet session "invoice_id" in
  if truthy invoiceId
  then (fun invoice => (default "" invoiceId, invoice))
         <$> invoices d !! default "" invoiceId
  else None.

(** A dispute on a charge that matches no project, and a refund. *)
Definition sampleDispute : Dispute :=
  {| dispute_id := "dp_1"; dispute_charge := AsId "ch_1";
     dispute_amount := 120000; dispute_currency := "cad";
     dispute_reason := "fraudulent";
     dispute_payment_intent := Some (AsId "pi_unknown") |}.

Definition sampleCharge : Charge :=
  {| charge_id := "ch_1"; charge_amount := 120000; amount_refunded := 20000;
     refunded := false; charge_currency := "cad";
     charge_payment_intent := Some (AsId "pi_1") |}.

(** A world holding one sent invoice. *)
Definition invoiceWorld : World :=
  withDb emptyWorld
    {| projects := [];
       invoices := {[ "inv_1" := {| invoiceNumber := "INV-0001";
                                    invoice_status := "SENT";
                                    paidAt := None |} ]};
       payment_events := [] |}.

(** Further deliveries: an expired checkout, a dispute, a refund, and a
    checkout that names only an invoice. *)
Definition moreParse (rawBody : string) : option StripeEvent :=
  if String.eqb rawBody "expired" then
    Some {| event_id := "evt_10"; data := CheckoutSessionExpired (sampleSession []) |}
  else if String.eqb rawBody "dispute" then
    Some {| event_id := "evt_11"; data := ChargeDisputeCreated sampleDispute |}
  else if String.eqb rawBody "refund" then
    Some {| event_id := "evt_12"; data := ChargeRefunded sampleCharge |}
  else if String.eqb rawBody "invoice-only" then
    Some {| event_id := "evt_13";
            data := CheckoutSessionCompleted (sampleSession [("invoice_id", "inv_1")]) |}
  else if String.eqb rawBody "invoice-missing" then
    Some {| event_id := "evt_14";
            data := CheckoutSessionCompleted (sampleSession [("invoice_id", "inv_404")]) |}
  else if String.eqb rawBody "project" then
    Some {| event_id := "evt_15";
            data := CheckoutSessionCompleted
                      (sampleSession [("project_public_id", "prj_1");
                                      ("invoice_id", "inv_404")]) |}
  else None.

Definition moreVerify (rawBody signature secret : string) : Completion StripeEvent :=
  if String.eqb signature ("v1=" +:+ secret) then
    match moreParse rawBody with
    | Some e => Return e
    | None => Throw "Unexpected token in JSON"
    end
  else Throw "No signatures found matching the expected signature for payload".

(** [POST] with these deliveries. *)
Definition morePOST : Request -> Z -> Z -> World -> Response * World :=
  POST sampleKeys moreVerify sampleCheckout sampleRefund
    Notifications.plainFormat Notifications.pushoverUp sampleEnv.

(** A reconciliation that succeeds, and [POST] with it. *)
Definition payingCheckout (params : CheckoutParams) (d : DB)
    : Completion CheckoutResult * DB :=
  (Return {| cr_success := true; cr_error := None; cr_unmatched := false;
             cr_skipped := false; cr_projectId := Some "project-1" |}, d).

Definition paidPOST : Request -> Z -> Z -> World -> Response * World :=
  POST sampleKeys moreVerify payingCheckout sampleRefund
    Notifications.plainFormat Notifications.pushoverUp sampleEnv.

End RouteFacts.

(* ===================================================================== *)
(** * The checkout-session route (POST /api/stripe/checkout-session)      *)
(* ===================================================================== *)

Module CheckoutSessionRoute.

(** ** The per-user limiter of the route *)

Definition RATE_LIMIT_WINDOW : Z := 60 * 1000.
Definition RATE_LIMIT_MAX : Z := 10.
Definition RATE_LIMIT_CLEANUP_INTERVAL : Z := 5 * 60 * 1000.
Definition RATE_LIMIT_MAX_ENTRIES : Z := 1000.

(** The module-level [rateLimitMap] and [lastCleanup]. *)
Record Limiter := {
  rateLimitMap : gmap string RateLimit.Entry;
  lastCleanup : Z;
}.

(** [cleanupRateLimitMap()]; [now] is the reading of [Date.now()] the
    function takes itself. *)
Definition cleanupRateLimitMap (now : Z) (l : Limiter) : Limiter :=
  if (now - lastCleanup l <? RATE_LIMIT_CLEANUP_INTERVAL)
     && (Z.of_nat (size (rateLimitMap l)) <? RATE_LIMIT_MAX_ENTRIES)
  then l
  else {| rateLimitMap := RateLimit.sweepExpired now (rateLimitMap l);
          lastCleanup := now |}.

(** [checkRateLimit(key)].  [now] is the reading of [Date.now()] at
    its first line; [cleanupRateLimitMap] then takes a reading of its
    own, [cleanupAt]. *)
Definition checkRateLimit (key : string) (now cleanupAt : Z) (l : Limiter)
    : bool * Limiter :=
  let l := cleanupRateLimitMap cleanupAt l in
  let fresh :=
    (true, {| rateLimitMap :=
                <[key := {| RateLimit.count := 1;
                            RateLimit.resetAt := now + RATE_LIMIT_WINDOW |}]>
                  (rateLimitMap l);
              lastCleanup := lastCleanup l |}) in
  match rateLimitMap l !! key with
  | None => fresh
  | Some entry =>
      if RateLimit.resetAt entry <? now then fresh
      else if RATE_LIMIT_MAX <=? RateLimit.count entry then (false, l)
      else (true, {| rateLimitMap :=
                       <[key := {| RateLimit.count := RateLimit.count entry + 1;
                                   RateLimit.resetAt := RateLimit.resetAt entry |}]>
                         (rateLimitMap l);
                     lastCleanup := lastCleanup l |})
  end.

(** ** The metadata put on a checkout session *)

(** [STRIPE_METADATA_KEYS], as far as this route reads it: the two keys
    the webhook reads, and two more. *)
Record MetadataKeys := {
  shared : StripeWebhook.MetadataKeys;
  PURPOSE : string;
  CLIENT_ID : string;
}.

(** The invoice as [prisma.invoices.findFirst] returns it, with the
    fields the metadata is built from. *)
Record InvoiceProject := { linked_id : string; linked_publicId : string }.

Record PayableInvoice := {
  payable_id : string;
  payable_invoiceNumber : string;
  payable_clientId : string;
  payable_project : option InvoiceProject;
}.

(** The object literal [metadata] and the conditional assignment that
    follows it.  Properties of the literal are defined in order, a later
    one replacing an earlier one of the same name. *)
Definition checkoutMetadata (keys : MetadataKeys) (projectPayment : string)
    (nodeEnv : option string) (invoice : PayableInvoice) : gmap string string :=
  let metadata : gmap string string :=
    <["invoice_number" := payable_invoiceNumber invoice]>
      (<["invoice_id" := payable_id invoice]>
         (<[CLIENT_ID keys := payable_clientId invoice]>
            (<[StripeWebhook.ENVIRONMENT (shared keys) :=
                 if bool_decide (nodeEnv = Some "production")
                 then "production" else "development"]>
               (<[PURPOSE keys := projectPayment]> ∅)))) in
  let publicId := linked_publicId <$> payable_project invoice in
  if truthy publicId
  then <[StripeWebhook.PROJECT_PUBLIC_ID (shared keys) := default "" publicId]> metadata
  else metadata.

(** The names under which metadata is stored. *)
Definition metadataNames (keys : MetadataKeys) : list string :=
  [PURPOSE keys; StripeWebhook.ENVIRONMENT (shared keys); CLIENT_ID keys;
   StripeWebhook.PROJECT_PUBLIC_ID (shared keys); "invoice_id"; "invoice_number"].

Definition sampleKeys : MetadataKeys :=
  {| shared := StripeWebhook.sampleKeys; PURPOSE := "purpose"; CLIENT_ID := "client_id" |}.

Definition sampleInvoice : PayableInvoice :=
  {| payable_id := "inv_1"; payable_invoiceNumber := "INV-0001";
     payable_clientId := "cl_1"; payable_project := None |}.

(** The session Stripe reports back for [sampleInvoice]. *)
Definition createdSession : StripeWebhook.CheckoutSession :=
  {| StripeWebhook.session_id := "cs_test_2";
     StripeWebhook.metadata :=
       Some (checkoutMetadata sampleKeys "project_payment" (Some "development")
               sampleInvoice);
     StripeWebhook.customer_email := Some "client@example.com";
     StripeWebhook.amount_total := Some 120000;
     StripeWebhook.session_currency := Some "cad";
     StripeWebhook.session_payment_intent := Some (StripeWebhook.AsId "pi_2") |}.

End CheckoutSessionRoute.

(* ===================================================================== *)
(** * Helpers of lib/rate-limit.ts and lib/notifications.ts               *)
(* ===================================================================== *)

Module ClientAddress.

(** The two headers [getClientIP] reads; [None] when [headers.get]
    returns null. *)
Record Headers := {
  x_forwarded_for : option string;
  x_real_ip : option string;
}.

Section Trim.

(** [String.prototype.trim] *)
Variable trim : string -> string.

(** [getClientIP(headers)] *)
Definition getClientIP (headers : Headers) : string :=
  let first := trim <$> (StripeWebhook.firstSegment <$> x_forwarded_for headers) in
  if truthy first then default "" first
  else if truthy (x_real_ip headers) then default "" (x_real_ip headers)
  else "unknown".

End Trim.

End ClientAddress.

Module GenericNotification.
Import Notifications.

(** The argument of [sendNotification]. *)
Record Notice := {
  notice_title : string;
  notice_message : string;
  notice_url : option string;
  notice_urlTitle : option string;
  notice_priority : option Z;
  notice_sound : option string;
}.

(** The JSON body [sendNotification] posts; [JSON.stringify] leaves
    out the properties that are undefined. *)
Record Message := {
  posted_token : string;
  posted_user : string;
  posted_message : string;
  posted_title : string;
  posted_url : option string;
  posted_url_title : option string;
  posted_priority : Z;
  posted_sound : option string;
}.

Record Outbox := {
  posted : list Message;
  logged : list (LogLevel * string);
}.

Definition logTo (level : LogLevel) (line : string) (fx : Outbox) : Outbox :=
  {| posted := posted fx; logged := logged fx ++ [(level, line)] |}.

(** [sendNotification({ title, message, url, urlTitle, priority = 0, sound })] *)
Definition sendNotification (pushover : Message -> FetchResult) (env : Env)
    (notice : Notice) (fx : Outbox) : Completion unit * Outbox :=
  if negb (truthy (PUSHOVER_API_TOKEN env)) || negb (truthy (PUSHOVER_USER_KEY env)) then
    (Return tt,
     logTo LogWarn
       "[Notifications] PUSHOVER credentials not configured, skipping notification" fx)
  else
    (* try { ... } catch { ... } *)
    let request := {|
      posted_token := default "" (PUSHOVER_API_TOKEN env);
      posted_user := default "" (PUSHOVER_USER_KEY env);
      posted_message := notice_message notice;
      posted_title := notice_title notice;
      posted_url := notice_url notice;
      posted_url_title := notice_urlTitle notice;
      posted_priority := default 0 (notice_priority notice);
      posted_sound := notice_sound notice;
    |} in
    let fx1 := {| posted := posted fx ++ [request]; logged := logged fx |} in
    match pushover request with
    | FetchRejects err =>
        (Return tt, logTo LogError "[Notifications] Failed to send notification:" fx1)
    | FetchResponse false (Throw err) =>
        (Return tt, logTo LogError "[Notifications] Failed to send notification:" fx1)
    | FetchResponse false (Return errorText) =>
        (Return tt,
         logTo LogError ("[Notifications] Pushover API error: " +:+ errorText) fx1)
    | FetchResponse true _ => (Return tt, fx1)
    end.

End GenericNotification.

(* ===================================================================== *)
(** * Properties of the rate limiter                                      *)
(* ===================================================================== *)

Section RateLimitProofs.
Import RateLimit.

Lemma sweepExpired_keeps now (m : gmap string Entry) key e :
  m !! key = Some e -> (resetAt e <? now) = false ->
  sweepExpired now m !! key = Some e.
Proof.
  intros Hk Hr. unfold sweepExpired.
  apply map_lookup_filter_Some. split; [done|]. simpl. by rewrite Hr.
Qed.

(** A call inside an open window increments the entry in place. *)
Lemma inMemory_in_window key win mx now sweep (m : gmap string Entry) e :
  m !! key = Some e -> (resetAt e <? now) = false ->
  exists m',
    checkInMemoryRateLimit key win mx now sweep m =
      ({| allowed := (count e + 1 <=? mx);
          remaining := Z.max 0 (mx - (count e + 1));
          resetAtDate := resetAt e |}, m')
    /\ m' !! key = Some {| count := count e + 1; resetAt := resetAt e |}.
Proof.
  intros Hk Hr. unfold checkInMemoryRateLimit. rewrite Hk, Hr.
  eexists. split; [reflexivity|].
  rewrite lookup_alter_eq.
  destruct sweep.
  - by rewrite (sweepExpired_keeps _ _ _ _ Hk Hr).
  - by rewrite Hk.
Qed.

(** A call with no entry, or an expired one, opens a new window. *)
Lemma inMemory_new_window key win mx now sweep (m : gmap string Entry) :
  match m !! key with Some e => resetAt e <? now | None => true end = true ->
  exists m',
    checkInMemoryRateLimit key win mx now sweep m =
      ({| allowed := true; remaining := mx - 1;
          resetAtDate := now + win * 1000 |}, m')
    /\ m' !! key = Some {| count := 1; resetAt := now + win * 1000 |}.
Proof.
  intros H. unfold checkInMemoryRateLimit.
  destruct (m !! key) as [e|]; [rewrite H|];
    (eexists; split; [reflexivity | by rewrite lookup_insert_eq]).
Qed.

Ltac break_preset p := destruct p; simpl in *.

Lemma liveEntry_insert now key e (s : gmap string RedisEntry) :
  liveEntry now key (<[key := e]> s) = if live now e then Some e else None.
Proof. unfold liveEntry. by rewrite lookup_insert_eq. Qed.

(** The first call of a window is admitted and leaves a counter of 1
    that expires one window later, on either path. *)
Lemma check_opens_window identifier preset namespace now sweep
    (w : @World (gmap string RedisEntry)) :
  noOpenWindow (rateLimitKey identifier preset namespace) now w = true ->
  exists r w',
    checkRateLimit redis identifier preset namespace now sweep w = (r, w')
    /\ allowed r = true
    /\ configured w' = configured w
    /\ counter (rateLimitKey identifier preset namespace) w'
         = Some (1, now + window (RATE_LIMITS preset) * 1000).
Proof.
  set (key := rateLimitKey identifier preset namespace).
  unfold noOpenWindow, checkRateLimit, counter. fold key.
  destruct w as [cfg st mem]. simpl. destruct cfg; simpl; intros H.
  - unfold redisCommand; simpl.
    destruct (liveEntry now key st) eqn:Hl; [done|]. simpl.
    assert (Hw : (now <? now + window (RATE_LIMITS preset) * 1000) = true)
      by (break_preset preset; lia).
    rewrite liveEntry_insert. simpl. rewrite liveEntry_insert.
    unfold live; simpl. rewrite Hw. simpl.
    do 2 eexists. split; [reflexivity|]. simpl.
    rewrite lookup_insert_eq. simpl. break_preset preset; done.
  - unfold fallback. simpl.
    destruct (inMemory_new_window key (window (RATE_LIMITS preset))
                (fallbackMax (RATE_LIMITS preset)) now sweep mem H)
      as (m' & -> & Hm').
    do 2 eexists. split; [reflexivity|]. simpl. by rewrite Hm'.
Qed.

(** A later call inside the window counts one more and is admitted
    exactly while the count stays within the threshold in force. *)
Lemma check_in_window identifier preset namespace now sweep
    (w : @World (gmap string RedisEntry)) c t :
  counter (rateLimitKey identifier preset namespace) w = Some (c, t) ->
  1 <= c -> now < t ->
  exists r w',
    checkRateLimit redis identifier preset namespace now sweep w = (r, w')
    /\ allowed r = (c + 1 <=? effectiveMax preset w)
    /\ configured w' = configured w
    /\ counter (rateLimitKey identifier preset namespace) w' = Some (c + 1, t).
Proof.
  set (key := rateLimitKey identifier preset namespace).
  unfold checkRateLimit, counter, effectiveMax. fold key.
  destruct w as [cfg st mem]. simpl. destruct cfg; simpl; intros H Hc Ht.
  - destruct (st !! key) as [e|] eqn:Hk; [|done].
    destruct e as [v [t'|]]; simpl in H; [|done].
    injection H as -> ->.
    assert (Hlive : (now <? t) = true) by lia.
    unfold redisCommand; simpl.
    unfold liveEntry at 1. rewrite Hk. unfold live at 1. simpl.
    rewrite Hlive. simpl.
    rewrite decide_False by (intros [=]; lia). simpl.
    rewrite liveEntry_insert. unfold live; simpl. rewrite Hlive. simpl.
    do 2 eexists. split; [reflexivity|]. simpl.
    by rewrite lookup_insert_eq.
  - destruct (mem !! key) as [e|] eqn:Hk; [|done].
    injection H as <- <-.
    assert (Hr : (resetAt e <? now) = false) by lia.
    unfold fallback. simpl.
    destruct (inMemory_in_window key (window (RATE_LIMITS preset))
                (fallbackMax (RATE_LIMITS preset)) now sweep mem e Hk Hr)
      as (m' & -> & Hm').
    do 2 eexists. split; [reflexivity|]. simpl. by rewrite Hm'.
Qed.

(** Once the window has ended, no window is open any more. *)
Lemma window_elapsed key (w : @World (gmap string RedisEntry)) c t now :
  counter key w = Some (c, t) -> t < now -> noOpenWindow key now w = true.
Proof.
  unfold counter, noOpenWindow, liveEntry, live.
  destruct (configured w).
  - destruct (store w !! key) as [[v [t'|]]|]; simpl; try done.
    intros [= -> ->] Ht. by replace (now <? t) with false by lia.
  - destruct (inMemoryRateLimits w !! key) as [e|]; [|done].
    intros [= <- <-] Ht. lia.
Qed.

Lemma verdicts_until_limit N k c :
  c + Z.of_nat k = N ->
  verdicts c N k = repeat true k
  /\ verdicts c N (S k) = repeat true k ++ [false].
Proof.
  revert c. induction k as [|k IH]; intros c Hc; simpl.
  - split; [done|]. by replace (c + 1 <=? N) with false by lia.
  - destruct (IH (c + 1) ltac:(lia)) as [IH1 IH2].
    replace (c + 1 <=? N) with true by lia.
    split; [by rewrite IH1 | by rewrite <- IH2].
Qed.

Lemma checkMany_in_window identifier preset namespace calls :
  forall (w : @World (gmap string RedisEntry)) c t,
  counter (rateLimitKey identifier preset namespace) w = Some (c, t) ->
  1 <= c ->
  Forall (fun call : Z * bool => call.1 < t) calls ->
  exists rs w',
    checkMany redis identifier preset namespace calls w = (rs, w')
    /\ map allowed rs = verdicts c (effectiveMax preset w) (length calls)
    /\ configured w' = configured w
    /\ counter (rateLimitKey identifier preset namespace) w'
         = Some (c + Z.of_nat (length calls), t).
Proof.
  induction calls as [|[now sweep] calls IH]; intros w c t Hc H1 Hin.
  - exists [], w. simpl. by rewrite Z.add_0_r.
  - inversion Hin as [|? ? Hnow Hrest]; subst. simpl in Hnow.
    destruct (check_in_window identifier preset namespace now sweep w c t
                Hc H1 Hnow) as (r & w1 & Hr & Ha & Hcfg & Hc1).
    destruct (IH w1 (c + 1) t Hc1 ltac:(lia) Hrest)
      as (rs & w2 & Hrs & Hv & Hcfg2 & Hc2).
    exists (r :: rs), w2. cbn [checkMany]. rewrite Hr, Hrs.
    split; [done|]. split.
    + cbn [map length verdicts]. rewrite Ha, Hv. unfold effectiveMax.
      by rewrite Hcfg.
    + split; [congruence|]. rewrite Hc2. f_equal. f_equal.
      cbn [length]. lia.
Qed.

(** C7.  For every identifier and preset, with N the threshold in force
    (max on the primary path, fallbackMax on the in-process path): when a
    call opens a window and N further calls arrive before the window
    ends, these N+1 checks answer allowed=true N times and then
    allowed=false; and a call arriving after the window's reset time is
    allowed again. *)
Theorem rate_limit_window_enforced identifier preset namespace
    (w : @World (gmap string RedisEntry)) t0 sweep0 (rest : list (Z * bool)) :
  let key := rateLimitKey identifier preset namespace in
  let N := effectiveMax preset w in
  let windowMs := window (RATE_LIMITS preset) * 1000 in
  noOpenWindow key t0 w = true ->
  length rest = Z.to_nat N ->
  Forall (fun call : Z * bool => call.1 < t0 + windowMs) rest ->
  exists rs w',
    checkMany redis identifier preset namespace ((t0, sweep0) :: rest) w = (rs, w')
    /\ map allowed rs = repeat true (Z.to_nat N) ++ [false]
    /\ forall t sweep, t0 + windowMs < t ->
         allowed (checkRateLimit redis identifier preset namespace t sweep w').1 = true.
Proof.
  intros key N windowMs Hfresh Hlen Hin.
  destruct (check_opens_window identifier preset namespace t0 sweep0 w Hfresh)
    as (r & w1 & Hr & Ha & Hcfg & Hc).
  destruct (checkMany_in_window identifier preset namespace rest w1 1
              (t0 + windowMs) Hc ltac:(lia) Hin)
    as (rs & w2 & Hrs & Hv & Hcfg2 & Hc2).
  assert (HN : 1 <= N).
  { unfold N, effectiveMax. destruct (configured w); break_preset preset; lia. }
  exists (r :: rs), w2. cbn [checkMany]. rewrite Hr, Hrs.
  split; [done|]. split.
  - cbn [map]. rewrite Ha, Hv. replace (effectiveMax preset w1) with N
      by (unfold N, effectiveMax; by rewrite Hcfg).
    rewrite Hlen.
    destruct (Z.to_nat N) as [|k] eqn:Hk; [lia|].
    destruct (verdicts_until_limit N k 1 ltac:(lia)) as [_ ->].
    reflexivity.
  - intros t sweep Ht.
    pose proof (window_elapsed _ _ _ _ t Hc2 Ht) as Hopen.
    destruct (check_opens_window identifier preset namespace t sweep w2 Hopen)
      as (r' & w3 & -> & Ha' & _). done.
Qed.

(** C7 on a concrete run: the AUTH preset without a configured store
    (threshold 3), four calls one second apart. *)
Lemma rate_limit_window_enforced_witness :
  exists rs w',
    checkMany redis "203.0.113.7" AUTH None
      [(0, false); (1000, true); (2000, false); (3000, false)]
      {| configured := false; store := ∅; inMemoryRateLimits := ∅ |} = (rs, w')
    /\ map allowed rs = [true; true; true; false]
    /\ forall t sweep, 0 + 60 * 1000 < t ->
         allowed (checkRateLimit redis "203.0.113.7" AUTH None t sweep w').1 = true.
Proof.
  apply (rate_limit_window_enforced "203.0.113.7" AUTH None
           {| configured := false; store := ∅; inMemoryRateLimits := ∅ |}
           0 false [(1000, true); (2000, false); (3000, false)]).
  - reflexivity.
  - reflexivity.
  - repeat constructor; simpl; lia.
Defined.

(** *** The fallback path *)

Section Fallback.
Context {S : Type} (upstash : Z -> Command -> S -> FetchOutcome * S).

(** When the fallback is taken the answer is the in-process limiter's,
    under [fallbackMax]. *)
Lemma fallbackTaken_uses_fallback identifier preset namespace now sweep (w : @World S) :
  fallbackTaken upstash w ->
  exists s',
    checkRateLimit upstash identifier preset namespace now sweep w =
      (let rm := checkInMemoryRateLimit (rateLimitKey identifier preset namespace)
                   (window (RATE_LIMITS preset)) (fallbackMax (RATE_LIMITS preset))
                   now sweep (inMemoryRateLimits w) in
       (rm.1, {| configured := configured w; store := s';
                 inMemoryRateLimits := rm.2 |})).
Proof.
  intros Hun. unfold checkRateLimit.
  destruct (configured w) eqn:Hcfg; simpl.
  - destruct Hun as [Hun|Hun]; [congruence|].
    unfold redisCommand. rewrite Hcfg. simpl.
    destruct (Hun now (INCR (rateLimitKey identifier preset namespace)) (store w))
      as [msg Hmsg].
    destruct (upstash now _ (store w)) as [out s'] eqn:Hup. simpl in Hmsg. subst out.
    exists s'. unfold fallback. simpl.
    by destruct (checkInMemoryRateLimit _ _ _ _ _ _).
  - exists (store w). unfold fallback. rewrite Hcfg.
    by destruct (checkInMemoryRateLimit _ _ _ _ _ _).
Qed.

Lemma fallbackTaken_preserved (w w' : @World S) :
  configured w' = configured w -> fallbackTaken upstash w -> fallbackTaken upstash w'.
Proof. intros Hc [H|H]; [left; congruence | by right]. Qed.

Lemma fallback_run_in_window identifier preset namespace calls :
  forall (w : @World S) e,
  fallbackTaken upstash w ->
  inMemoryRateLimits w !! rateLimitKey identifier preset namespace = Some e ->
  Forall (fun call : Z * bool => call.1 <= resetAt e) calls ->
  exists rs w',
    checkMany upstash identifier preset namespace calls w = (rs, w')
    /\ map allowed rs
        = verdicts (count e) (fallbackMax (RATE_LIMITS preset)) (length calls).
Proof.
  induction calls as [|[now sweep] calls IH]; intros w e Hun He Hin.
  - by exists [], w.
  - inversion Hin as [|? ? Hnow Hrest]; subst. simpl in Hnow.
    destruct (fallbackTaken_uses_fallback identifier preset namespace now sweep w Hun)
      as [s' Hstep].
    assert (Hr : (resetAt e <? now) = false) by lia.
    destruct (inMemory_in_window _ (window (RATE_LIMITS preset))
                (fallbackMax (RATE_LIMITS preset)) now sweep _ e He Hr)
      as (m' & Hm & Hm').
    rewrite Hm in Hstep. simpl in Hstep.
    destruct (IH {| configured := configured w; store := s';
                    inMemoryRateLimits := m' |}
                {| count := count e + 1; resetAt := resetAt e |})
      as (rs & w2 & Hrs & Hv); [by eapply fallbackTaken_preserved | done | done |].
    eexists (_ :: rs), w2. cbn [checkMany]. rewrite Hstep, Hrs.
    split; [done|]. cbn [map length verdicts allowed]. by rewrite Hv.
Qed.

(** A store that answers with a non-OK status does not make
    [redisCommand] throw: it returns [null], the primary path goes on
    with a count of [null], and the call is admitted. *)
Lemma http_error_is_admitted identifier preset namespace now sweep (w : @World S) :
  configured w = true ->
  (forall t command s, (upstash t command s).1 = HttpError) ->
  allowed (checkRateLimit upstash identifier preset namespace now sweep w).1 = true.
Proof.
  intros Hcfg Hup. unfold checkRateLimit, redisCommand. rewrite Hcfg. simpl.
  pose proof (Hup now (INCR (rateLimitKey identifier preset namespace)) (store w)) as H1.
  destruct (upstash now (INCR _) (store w)) as [o1 s1]. simpl in H1. subst o1.
  simpl.
  pose proof (Hup now (TTL (rateLimitKey identifier preset namespace)) s1) as H2.
  destruct (upstash now (TTL _) s1) as [o2 s2]. simpl in H2. subst o2.
  simpl. break_preset preset; reflexivity.
Qed.

(** One call against a store that answers without success: admitted,
    with the full allowance reported, and the in-process map untouched. *)
Lemma answersNotOk_step identifier preset namespace now sweep (w : @World S) :
  configured w = true ->
  answersNotOk upstash ->
  exists r w',
    checkRateLimit upstash identifier preset namespace now sweep w = (r, w')
    /\ allowed r = true
    /\ remaining r = max (RATE_LIMITS preset)
    /\ configured w' = true
    /\ inMemoryRateLimits w' = inMemoryRateLimits w.
Proof.
  intros Hcfg Hup. unfold checkRateLimit, redisCommand. rewrite Hcfg. simpl.
  pose proof (Hup now (INCR (rateLimitKey identifier preset namespace)) (store w)) as H1.
  destruct (upstash now (INCR _) (store w)) as [o1 s1]. simpl in H1. subst o1.
  simpl.
  pose proof (Hup now (TTL (rateLimitKey identifier preset namespace)) s1) as H2.
  destruct (upstash now (TTL _) s1) as [o2 s2]. simpl in H2. subst o2.
  simpl. eexists _, _. split; [reflexivity|]. simpl.
  break_preset preset; by repeat split.
Qed.

End Fallback.

Lemma verdicts_admit_at_most N k c :
  c <= N ->
  (length (filter (fun b : bool => b = true) (verdicts c N k)) <= Z.to_nat (N - c))%nat.
Proof.
  revert c. induction k as [|k IH]; intros c Hc; cbn [verdicts].
  - simpl. lia.
  - destruct (c + 1 <=? N) eqn:Hle.
    + rewrite filter_cons_True by done. cbn [length].
      specialize (IH (c + 1) ltac:(lia)). lia.
    + rewrite filter_cons_False by done.
      clear IH. assert (c = N) as -> by lia.
      assert (forall j d, N <= d ->
                filter (fun b : bool => b = true) (verdicts d N j) = []) as Hnone.
      { induction j as [|j IHj]; intros d Hd; cbn [verdicts]; [done|].
        replace (d + 1 <=? N) with false by lia.
        rewrite filter_cons_False by done. apply IHj. lia. }
      rewrite Hnone by lia. simpl. lia.
Qed.

Lemma admitted_map rs :
  admitted rs = length (filter (fun b : bool => b = true) (map allowed rs)).
Proof.
  unfold admitted. induction rs as [|r rs IH]; [done|].
  cbn [map]. destruct (allowed r) eqn:Ha.
  - rewrite !filter_cons_True by done. cbn [length]. by rewrite IH.
  - rewrite !filter_cons_False by (rewrite ?Ha; done). done.
Qed.

(** Where the fallback is taken it does bound the requests.  When the
    store is not configured, or every [fetch] rejects, [checkRateLimit]
    answers with the in-process limiter under the preset's
    fallbackMax; the calls admitted in a window (the opening call and
    any number of further calls before its reset time) never exceed
    fallbackMax; and fallbackMax is strictly below max. *)
Lemma fallback_bounded_and_stricter {S : Type}
    (upstash : Z -> Command -> S -> FetchOutcome * S)
    identifier preset namespace (w : @World S) :
  fallbackTaken upstash w ->
  let key := rateLimitKey identifier preset namespace in
  let config := RATE_LIMITS preset in
  fallbackMax config < max config
  /\ (forall now sweep, exists s',
        checkRateLimit upstash identifier preset namespace now sweep w =
          (let rm := checkInMemoryRateLimit key (window config) (fallbackMax config)
                       now sweep (inMemoryRateLimits w) in
           (rm.1, {| configured := configured w; store := s';
                     inMemoryRateLimits := rm.2 |})))
  /\ (forall t0 sweep0 rest,
        match inMemoryRateLimits w !! key with
        | Some e => resetAt e <? t0
        | None => true
        end = true ->
        Forall (fun call : Z * bool => call.1 <= t0 + window config * 1000) rest ->
        exists rs w',
          checkMany upstash identifier preset namespace ((t0, sweep0) :: rest) w
            = (rs, w')
          /\ Z.of_nat (admitted rs) <= fallbackMax config).
Proof.
  intros Hun key config. split; [|split].
  - unfold config. break_preset preset; lia.
  - intros now sweep. by apply fallbackTaken_uses_fallback.
  - intros t0 sweep0 rest Hopen Hin.
    destruct (fallbackTaken_uses_fallback upstash identifier preset namespace
                t0 sweep0 w Hun) as [s' Hstep].
    destruct (inMemory_new_window key (window config) (fallbackMax config)
                t0 sweep0 _ Hopen) as (m' & Hm & Hm').
    fold key config in Hstep. rewrite Hm in Hstep. simpl in Hstep.
    destruct (fallback_run_in_window upstash identifier preset namespace rest
                {| configured := configured w; store := s';
                   inMemoryRateLimits := m' |}
                {| count := 1; resetAt := t0 + window config * 1000 |})
      as (rs & w2 & Hrs & Hv); [by eapply fallbackTaken_preserved | done | done |].
    eexists (_ :: rs), w2. cbn [checkMany]. rewrite Hstep, Hrs.
    split; [done|].
    rewrite admitted_map. cbn [map allowed].
    rewrite filter_cons_True by done. cbn [length]. rewrite Hv.
    fold config. cbn [count].
    pose proof (verdicts_admit_at_most (fallbackMax config) (length rest) 1) as Hb.
    assert (1 <= fallbackMax config) by (unfold config; break_preset preset; lia).
    specialize (Hb ltac:(lia)). lia.
Qed.

(** The bound on a concrete world: a configured store on which every
    [fetch] rejects, INTAKE preset. *)
Lemma fallback_bounded_and_stricter_example :
  let w := {| configured := true; store := tt; inMemoryRateLimits := ∅ |} in
  let key := rateLimitKey "198.51.100.4" INTAKE (Some "formspree") in
  fallbackMax (RATE_LIMITS INTAKE) < max (RATE_LIMITS INTAKE)
  /\ (forall now sweep, exists s',
        checkRateLimit storeDown "198.51.100.4" INTAKE (Some "formspree") now sweep w =
          (let rm := checkInMemoryRateLimit key 60 5 now sweep ∅ in
           (rm.1, {| configured := true; store := s'; inMemoryRateLimits := rm.2 |})))
  /\ (forall t0 sweep0 rest,
        match inMemoryRateLimits w !! key with
        | Some e => resetAt e <? t0
        | None => true
        end = true ->
        Forall (fun call : Z * bool => call.1 <= t0 + 60 * 1000) rest ->
        exists rs w',
          checkMany storeDown "198.51.100.4" INTAKE (Some "formspree")
            ((t0, sweep0) :: rest) w = (rs, w')
          /\ Z.of_nat (admitted rs) <= 5).
Proof.
  apply (fallback_bounded_and_stricter storeDown "198.51.100.4" INTAKE
           (Some "formspree")
           {| configured := true; store := tt; inMemoryRateLimits := ∅ |}).
  right. intros now command s. exists "fetch failed". reflexivity.
Qed.

(** C8 fails for a store that is reached but answers without success.
    When the store is configured and answers every call with a non-OK
    status, [checkRateLimit] never takes the fallback: every call of a
    run, however long, is admitted, each reporting the preset's full
    max as remaining, and the in-process map is never consulted.  The
    requests are unbounded. *)
Theorem failing_store_admits_every_call {S : Type}
    (upstash : Z -> Command -> S -> FetchOutcome * S)
    identifier preset namespace calls (w : @World S) :
  configured w = true ->
  answersNotOk upstash ->
  exists rs w',
    checkMany upstash identifier preset namespace calls w = (rs, w')
    /\ length rs = length calls
    /\ admitted rs = length calls
    /\ Forall (fun r => remaining r = max (RATE_LIMITS preset)) rs
    /\ inMemoryRateLimits w' = inMemoryRateLimits w.
Proof.
  intros Hcfg Hup. revert w Hcfg.
  induction calls as [|[now sweep] calls IH]; intros w Hcfg.
  - by exists [], w.
  - destruct (answersNotOk_step upstash identifier preset namespace now sweep w
                Hcfg Hup) as (r & w1 & Hstep & Hallowed & Hremaining & Hcfg1 & Hmap1).
    destruct (IH w1 Hcfg1) as (rs & w2 & Hrun & Hlen & Hadm & Hrem & Hmap2).
    exists (r :: rs), w2. cbn [checkMany]. rewrite Hstep, Hrun.
    split; [done|]. split; [cbn; by rewrite Hlen|].
    split; [|split; [by constructor|congruence]].
    unfold admitted in *. rewrite filter_cons_True by done.
    cbn [length]. by rewrite Hadm.
Qed.

(** C8 on a concrete run: a configured store that answers every call
    with a non-OK status, AUTH preset (max 5, fallbackMax 3), twelve
    calls in the same second - all twelve are admitted. *)
Lemma failing_store_admits_every_call_witness :
  exists rs w',
    checkMany storeFailing "203.0.113.7" AUTH None (replicate 12 (1000, false))
      {| configured := true; store := tt; inMemoryRateLimits := ∅ |} = (rs, w')
    /\ length rs = 12%nat
    /\ admitted rs = 12%nat
    /\ Forall (fun r => remaining r = 5) rs
    /\ inMemoryRateLimits w' = ∅.
Proof.
  apply (failing_store_admits_every_call storeFailing "203.0.113.7" AUTH None
           (replicate 12 (1000, false))
           {| configured := true; store := tt; inMemoryRateLimits := ∅ |}).
  - reflexivity.
  - intros now command s. reflexivity.
Defined.


End RateLimitProofs.

(* ===================================================================== *)
(** * Properties of the crypto vault                                      *)
(* ===================================================================== *)

Section EncryptionProofs.
Import Encryption.

(** *** Bytes *)

Lemma Z_of_byte_range b : 0 <= Z_of_byte b < 256.
Proof.
  unfold Z_of_byte. pose proof (Byte.to_N_bounded b) as H. lia.
Qed.

Lemma Z_of_byte_of_Z z : Z_of_byte (byte_of_Z z) = z mod 256.
Proof.
  unfold Z_of_byte, byte_of_Z.
  assert (Hr : 0 <= z mod 256 < 256) by (apply Z.mod_pos_bound; lia).
  destruct (Byte.of_N (Z.to_N (z mod 256))) as [b|] eqn:Hb.
  - apply Byte.to_of_N in Hb. rewrite Hb. lia.
  - apply Byte.of_N_None_iff in Hb. lia.
Qed.

Lemma Z_of_byte_of_Z_small z : 0 <= z < 256 -> Z_of_byte (byte_of_Z z) = z.
Proof. intros H. rewrite Z_of_byte_of_Z. by apply Z.mod_small. Qed.

Lemma byte_of_Z_of_byte b : byte_of_Z (Z_of_byte b) = b.
Proof.
  unfold byte_of_Z, Z_of_byte.
  pose proof (Byte.to_N_bounded b) as H.
  rewrite Z.mod_small by lia. rewrite N2Z.id. by rewrite Byte.of_to_N.
Qed.

(** *** Base64 *)

Ltac settle_tests :=
  repeat match goal with
         | |- context [Z.ltb ?a ?b] =>
             first [ replace (Z.ltb a b) with true by lia
                   | replace (Z.ltb a b) with false by lia ]
         | |- context [Z.leb ?a ?b] =>
             first [ replace (Z.leb a b) with true by lia
                   | replace (Z.leb a b) with false by lia ]
         | |- context [Z.eqb ?a ?b] =>
             first [ replace (Z.eqb a b) with true by lia
                   | replace (Z.eqb a b) with false by lia ]
         end;
  cbn [andb orb negb].

Lemma lowByte_small c : 0 <= c < 256 -> lowByte c = c.
Proof. intros Hc. unfold lowByte. by apply Z.mod_small. Qed.

Lemma unbase64_base64Char v :
  0 <= v < 64 ->
  unbase64 (base64Char v) = Some v /\ (lowByte (base64Char v) =? 61) = false.
Proof.
  intros Hv. unfold unbase64. cbv zeta. unfold base64Char.
  destruct (Z.ltb_spec v 26); [|destruct (Z.ltb_spec v 52);
    [|destruct (Z.ltb_spec v 62); [|destruct (Z.eqb_spec v 62)]]];
    rewrite lowByte_small by lia;
    settle_tests; (split; [f_equal; lia | reflexivity]).
Qed.

Lemma sextets_cons v r :
  0 <= v < 64 -> sextets (base64Char v :: r) = v :: sextets r.
Proof.
  intros Hv. destruct (unbase64_base64Char v Hv) as [H1 H2].
  cbn [sextets]. by rewrite H2, H1.
Qed.

Ltac byte_bounds :=
  repeat match goal with
         | |- context [Z_of_byte ?b] =>
             lazymatch goal with
             | _ : 0 <= Z_of_byte b < 256 |- _ => fail
             | _ => pose proof (Z_of_byte_range b)
             end
         end.

Lemma byte_eq_Z z b : 0 <= z < 256 -> z = Z_of_byte b -> byte_of_Z z = b.
Proof. intros _ ->. apply byte_of_Z_of_byte. Qed.

Lemma base64_group a b c rest :
  base64Decode (base64Encode (a :: b :: c :: rest))
  = a :: b :: c :: base64Decode (base64Encode rest).
Proof.
  unfold base64Decode. cbn [base64Encode].
  pose proof (Z_of_byte_range a). pose proof (Z_of_byte_range b).
  pose proof (Z_of_byte_range c).
  rewrite !sextets_cons by (Z.div_mod_to_equations; lia).
  cbn [bytesOfSextets].
  f_equal; [|f_equal; [|f_equal]];
    apply byte_eq_Z; Z.div_mod_to_equations; lia.
Qed.

Lemma base64_roundtrip_bounded n :
  forall bs : Buffer, (length bs <= n)%nat -> base64Decode (base64Encode bs) = bs.
Proof.
  induction n as [n IH] using lt_wf_ind. intros bs Hlen.
  destruct bs as [|a [|b [|c rest]]].
  - reflexivity.
  - unfold base64Decode. cbn [base64Encode].
    pose proof (Z_of_byte_range a).
    rewrite !sextets_cons by (Z.div_mod_to_equations; lia).
    cbn. f_equal. apply byte_eq_Z; Z.div_mod_to_equations; lia.
  - unfold base64Decode. cbn [base64Encode].
    pose proof (Z_of_byte_range a). pose proof (Z_of_byte_range b).
    rewrite !sextets_cons by (Z.div_mod_to_equations; lia).
    cbn. f_equal; [|f_equal]; apply byte_eq_Z; Z.div_mod_to_equations; lia.
  - rewrite base64_group. do 3 f_equal.
    apply (IH (length rest)); cbn [length] in Hlen; lia.
Qed.

(** Decoding the base64 text of a buffer gives the buffer back. *)
Lemma base64_roundtrip (bs : Buffer) : base64Decode (base64Encode bs) = bs.
Proof. by apply (base64_roundtrip_bounded (length bs)). Qed.

Lemma base64Encode_nonEmpty (bs : Buffer) : bs <> [] -> nonEmpty (base64Encode bs) = true.
Proof. destruct bs as [|a [|b [|c rest]]]; [done|..]; intros _; reflexivity. Qed.

(** *** UTF-8 *)

Lemma utf8_decode_1 cp rest :
  0 <= cp < 0x80 ->
  utf8Decode (utf8OfCodePoint cp ++ rest) = cp :: utf8Decode rest.
Proof.
  intros H. unfold utf8OfCodePoint. settle_tests.
  cbn [app utf8Decode]. unfold decodeSequence.
  rewrite Z_of_byte_of_Z_small by lia. by settle_tests.
Qed.

Lemma utf8_decode_2 cp rest :
  0x80 <= cp < 0x800 ->
  utf8Decode (utf8OfCodePoint cp ++ rest) = cp :: utf8Decode rest.
Proof.
  intros H. unfold utf8OfCodePoint. settle_tests.
  cbn [app utf8Decode]. unfold decodeSequence, inRange.
  pose proof (Z.div_mod cp 64 ltac:(lia)) as Hdm.
  pose proof (Z.mod_pos_bound cp 64 ltac:(lia)) as Hm.
  set (q := cp / 64) in *. set (r := cp mod 64) in *.
  rewrite !Z_of_byte_of_Z_small by lia. settle_tests.
  f_equal. lia.
Qed.

Lemma utf8_decode_3 cp rest :
  0x800 <= cp < 0x10000 -> ~ (0xD800 <= cp <= 0xDFFF) ->
  utf8Decode (utf8OfCodePoint cp ++ rest) = cp :: utf8Decode rest.
Proof.
  intros H Hs. unfold utf8OfCodePoint. settle_tests.
  cbn [app utf8Decode]. unfold decodeSequence, inRange.
  pose proof (Z.div_mod cp 64 ltac:(lia)) as Hdm.
  pose proof (Z.mod_pos_bound cp 64 ltac:(lia)) as Hm.
  replace (cp / 4096) with ((cp / 64) / 64)
    by (rewrite Z.div_div by lia; reflexivity).
  set (q := cp / 64) in *. set (r := cp mod 64) in *.
  pose proof (Z.div_mod q 64 ltac:(lia)) as Hdm2.
  pose proof (Z.mod_pos_bound q 64 ltac:(lia)) as Hm2.
  set (q2 := q / 64) in *. set (r2 := q mod 64) in *.
  rewrite !Z_of_byte_of_Z_small by lia.
  destruct (Z.eqb_spec (224 + q2) 224), (Z.eqb_spec (224 + q2) 237);
    try lia; settle_tests; f_equal; lia.
Qed.

Lemma utf8_decode_4 c d rest :
  0xD800 <= c <= 0xDBFF -> 0xDC00 <= d <= 0xDFFF ->
  utf8Decode (utf8OfCodePoint (0x10000 + (c - 0xD800) * 0x400 + (d - 0xDC00)) ++ rest)
  = c :: d :: utf8Decode rest.
Proof.
  intros Hc Hd. set (cp := 0x10000 + (c - 0xD800) * 0x400 + (d - 0xDC00)).
  assert (Hcp : 0x10000 <= cp < 0x110000) by (unfold cp; lia).
  unfold utf8OfCodePoint. settle_tests.
  cbn [app utf8Decode]. unfold decodeSequence, inRange.
  pose proof (Z.div_mod cp 64 ltac:(lia)) as Hdm.
  pose proof (Z.mod_pos_bound cp 64 ltac:(lia)) as Hm.
  replace (cp / 262144) with (((cp / 64) / 64) / 64)
    by (rewrite !Z.div_div by lia; reflexivity).
  replace (cp / 4096) with ((cp / 64) / 64)
    by (rewrite Z.div_div by lia; reflexivity).
  set (q := cp / 64) in *. set (r := cp mod 64) in *.
  pose proof (Z.div_mod q 64 ltac:(lia)) as Hdm2.
  pose proof (Z.mod_pos_bound q 64 ltac:(lia)) as Hm2.
  set (q2 := q / 64) in *. set (r2 := q mod 64) in *.
  pose proof (Z.div_mod q2 64 ltac:(lia)) as Hdm3.
  pose proof (Z.mod_pos_bound q2 64 ltac:(lia)) as Hm3.
  set (q3 := q2 / 64) in *. set (r3 := q2 mod 64) in *.
  rewrite !Z_of_byte_of_Z_small by lia.
  destruct (Z.eqb_spec (240 + q3) 240), (Z.eqb_spec (240 + q3) 244);
    try lia; settle_tests.
  all: replace ((240 + q3 - 240) * 262144 + (128 + r3 - 128) * 4096
           + (128 + r2 - 128) * 64 + (128 + r - 128)) with cp by lia.
  all: unfold codeUnits; settle_tests; cbn [app].
  all: replace (cp - 65536) with ((c - 55296) * 1024 + (d - 56320))
         by (unfold cp; lia).
  all: f_equal; [|f_equal].
  all: clear - Hc Hd; Z.div_mod_to_equations; lia.
Qed.

Lemma utf8_roundtrip_bounded n :
  forall s : jsstring, (length s <= n)%nat -> wellFormed s = true ->
  utf8Decode (utf8Encode s) = s.
Proof.
  induction n as [n IH] using lt_wf_ind. intros s Hlen Hwf.
  destruct s as [|c rest]; [reflexivity|].
  cbn [utf8Encode wellFormed] in *.
  destruct (isHighSurrogate c) eqn:Hh.
  - destruct rest as [|d rest']; [done|].
    apply andb_true_iff in Hwf as [Hl Hwf]. rewrite Hl.
    unfold isHighSurrogate, isLowSurrogate in *.
    rewrite utf8_decode_4 by lia.
    do 2 f_equal. apply (IH (length rest')); [cbn [length] in Hlen; lia|done|done].
  - destruct (isLowSurrogate c) eqn:Hl; [done|].
    apply andb_true_iff in Hwf as [Hr Hwf].
    unfold isHighSurrogate, isLowSurrogate in *.
    assert (Hrest : utf8Decode (utf8Encode rest) = rest)
      by (apply (IH (length rest)); [cbn [length] in Hlen; lia|done|done]).
    destruct (Z.ltb_spec c 0x80); [rewrite utf8_decode_1 by lia; congruence|].
    destruct (Z.ltb_spec c 0x800); [rewrite utf8_decode_2 by lia; congruence|].
    rewrite utf8_decode_3 by lia. congruence.
Qed.

(** Encoding a well-formed string to UTF-8 and decoding it gives the
    string back. *)
Lemma utf8_roundtrip (s : jsstring) :
  wellFormed s = true -> utf8Decode (utf8Encode s) = s.
Proof. by apply (utf8_roundtrip_bounded (length s)). Qed.

(** *** The sample primitives satisfy the contract *)

Lemma byte_of_Z_mod z : byte_of_Z (z mod 256) = byte_of_Z z.
Proof. unfold byte_of_Z. by rewrite Z.mod_mod by lia. Qed.

Lemma shift_back k b : shift (- k) (shift k b) = b.
Proof.
  unfold shift. rewrite Z_of_byte_of_Z, <- byte_of_Z_mod.
  rewrite Z.add_opp_r, Zminus_mod_idemp_l, byte_of_Z_mod.
  replace (Z_of_byte b + k - k) with (Z_of_byte b) by lia.
  apply byte_of_Z_of_byte.
Qed.

Lemma toyCrypto_lawful : Lawful toyCrypto.
Proof.
  split.
  - intros key salt info n. simpl.
    rewrite length_app, length_take, length_replicate. lia.
  - intros key iv pt Hk Hiv. simpl. rewrite !decide_True by done.
    eexists _, _. split; [reflexivity|]. split.
    + unfold checksum. by rewrite length_replicate.
    + unfold sameBytes. rewrite bool_decide_true by done.
      rewrite ?decide_True by done. f_equal.
      induction pt as [|b pt IH]; [done|].
      cbn [map]. by rewrite shift_back, IH.
Qed.


(** *** The vault *)

Lemma getEncryptionKey_configured env :
  keyConfigured env -> exists key, getEncryptionKey env = Return key.
Proof.
  intros (k & Hk & Hlen). unfold getEncryptionKey. rewrite Hk.
  destruct k as [|c k]; [done|]. simpl. rewrite decide_True by done. eauto.
Qed.

Lemma getEncryptionKey_unusable env :
  keyUnusable env -> exists msg, getEncryptionKey env = Throw msg.
Proof.
  unfold keyUnusable, getEncryptionKey.
  destruct (ENCRYPTION_KEY env) as [k|]; [|eauto].
  intros Hlen. destruct (nonEmpty k); [|eauto].
  rewrite decide_False by done. eauto.
Qed.

(** The four parts of the combined buffer come back at the offsets
    used by [decrypt]. *)
Lemma combined_offsets (salt iv tag ct : Buffer) :
  length salt = SALT_LENGTH -> length iv = IV_LENGTH ->
  length tag = AUTH_TAG_LENGTH ->
  let combined := salt ++ iv ++ tag ++ ct in
  subarray 0 SALT_LENGTH combined = salt
  /\ subarray SALT_LENGTH (SALT_LENGTH + IV_LENGTH) combined = iv
  /\ subarray (SALT_LENGTH + IV_LENGTH)
       (SALT_LENGTH + IV_LENGTH + AUTH_TAG_LENGTH) combined = tag
  /\ subarrayFrom (SALT_LENGTH + IV_LENGTH + AUTH_TAG_LENGTH) combined = ct.
Proof.
  intros Hs Hi Ht combined. unfold subarray, subarrayFrom, combined.
  repeat split.
  - rewrite drop_0, Nat.sub_0_r. by apply take_app_length'.
  - rewrite drop_app_length' by done.
    replace (SALT_LENGTH + IV_LENGTH - SALT_LENGTH)%nat with IV_LENGTH by lia.
    by apply take_app_length'.
  - rewrite (app_assoc salt iv), drop_app_length'
      by (rewrite length_app; lia).
    replace (SALT_LENGTH + IV_LENGTH + AUTH_TAG_LENGTH
             - (SALT_LENGTH + IV_LENGTH))%nat with AUTH_TAG_LENGTH by lia.
    by apply take_app_length'.
  - rewrite (app_assoc salt iv), (app_assoc (salt ++ iv) tag).
    apply drop_app_length'. rewrite !length_app. lia.
Qed.

(** With a configured key, [decrypt] after [encrypt] returns the
    UTF-8 decoding of the UTF-8 encoding of the plaintext. *)
Lemma decrypt_encrypt_utf8 c env plaintext e :
  Lawful c -> keyConfigured env -> nonEmpty plaintext = true ->
  exists blob e',
    encrypt c env plaintext e = (Return blob, e')
    /\ decrypt c env blob = Return (utf8Decode (utf8Encode plaintext)).
Proof.
  intros Hlaw Hcfg Hne.
  destruct (getEncryptionKey_configured env Hcfg) as [key Hkey].
  unfold encrypt. rewrite Hne, Hkey. cbn [negb randomBytes].
  set (iv := map (supply e) (seq (position e) IV_LENGTH)).
  set (salt := map _ (seq _ SALT_LENGTH)).
  assert (Hiv : length iv = IV_LENGTH) by (unfold iv; by rewrite length_map, length_seq).
  assert (Hsalt : length salt = SALT_LENGTH)
    by (unfold salt; by rewrite length_map, length_seq).
  set (derivedKey := hkdfSync c key salt hkdfInfo 32).
  destruct (gcm_inverse c Hlaw derivedKey iv (utf8Encode plaintext))
    as (ct & tag & Henc & Htag & Hdec);
    [apply (hkdf_length c Hlaw) | done |].
  rewrite Henc. eexists _, _. split; [reflexivity|].
  unfold decrypt.
  rewrite base64Encode_nonEmpty by (destruct salt; [done|done]).
  rewrite Hkey. cbn [negb]. rewrite base64_roundtrip.
  destruct (combined_offsets salt iv tag ct Hsalt Hiv Htag) as (-> & -> & -> & ->).
  fold derivedKey. by rewrite Hdec.
Qed.




(** C5 does not hold for "correct base64 framing": the blob of the
    plaintext "a" with an exclamation mark after each character is not
    base64 - the exclamation mark is in neither alphabet -, yet it
    passes the blob check and [safeDecrypt] returns the plaintext, not
    the input. *)
Lemma punctuated_blob_is_decrypted :
  punctuatedBlob !! 1%nat = Some 33
  /\ unbase64 33 = None
  /\ isEncrypted punctuatedBlob = true
  /\ safeDecrypt toyCrypto sampleEnv punctuatedBlob = ([97], false)
  /\ (safeDecrypt toyCrypto sampleEnv punctuatedBlob).1 <> punctuatedBlob.
Proof.
  repeat split; try (vm_compute; reflexivity).
  vm_compute. discriminate.
Qed.

(** C5, with the blob check the code makes.  [safeDecrypt] never
    throws.  It returns its input unchanged, without attempting
    decryption, whenever the input decodes to fewer than 45 bytes
    (salt, nonce, tag and one more) under the lenient base64 decoding,
    which skips every character outside the alphabet and stops at the
    first padding character; and it returns its input unchanged, after
    writing the error, whenever the input decodes to 45 bytes or more
    but [decrypt] throws.  In the one remaining case it returns what
    [decrypt] returns.  The characters the decoder skips play no part:
    two non-empty inputs with the same alphabet characters before the
    first padding pass or fail the blob check together and decrypt
    alike. *)
Theorem safeDecrypt_returns_input c env (value : jsstring) :
  ((length (base64Decode value) < 45)%nat ->
   safeDecrypt c env value = (value, false))
  /\ ((45 <= length (base64Decode value))%nat ->
      forall msg, decrypt c env value = Throw msg ->
      safeDecrypt c env value = (value, true))
  /\ ((45 <= length (base64Decode value))%nat ->
      forall plaintext, decrypt c env value = Return plaintext ->
      safeDecrypt c env value = (plaintext, false))
  /\ (forall value' : jsstring,
        nonEmpty value = true -> nonEmpty value' = true ->
        sextets value' = sextets value ->
        isEncrypted value' = isEncrypted value
        /\ decrypt c env value' = decrypt c env value).
Proof.
  assert (Hshort : forall v : jsstring,
             (length (base64Decode v) < 45)%nat -> isEncrypted v = false).
  { intros v Hv. unfold isEncrypted. destruct (nonEmpty v); cbn [negb]; [|done].
    apply Nat.leb_gt. exact Hv. }
  assert (Hlong : forall v : jsstring,
             (45 <= length (base64Decode v))%nat ->
             nonEmpty v = true /\ isEncrypted v = true).
  { intros v Hv. unfold isEncrypted. destruct v as [|u v]; [cbn in Hv; lia|].
    split; [done|]. cbn [nonEmpty negb]. apply Nat.leb_le. exact Hv. }
  split; [|split; [|split]].
  - intros H. unfold safeDecrypt. rewrite (Hshort _ H).
    by destruct value.
  - intros H msg Hthrows. destruct (Hlong _ H) as [Hne Hblob].
    unfold safeDecrypt. by rewrite Hne, Hblob, Hthrows.
  - intros H plaintext Hreturns. destruct (Hlong _ H) as [Hne Hblob].
    unfold safeDecrypt. by rewrite Hne, Hblob, Hreturns.
  - intros value' Hne Hne' Hsame. unfold isEncrypted, decrypt, base64Decode.
    by rewrite Hne, Hne', Hsame.
Qed.

(** C5 on concrete values: a forged blob passes the blob check, fails
    authentication, and comes back unchanged; a short value comes back
    unchanged without an attempt. *)
Lemma safeDecrypt_returns_input_witness :
  safeDecrypt toyCrypto sampleEnv forgedBlob = (forgedBlob, true)
  /\ safeDecrypt toyCrypto sampleEnv [104; 105] = ([104; 105], false).
Proof.
  split.
  - apply (proj1 (proj2 (safeDecrypt_returns_input toyCrypto sampleEnv forgedBlob)))
      with (msg := "Unsupported state or unable to authenticate data").
    + vm_compute. lia.
    + vm_compute. reflexivity.
  - apply (proj1 (safeDecrypt_returns_input toyCrypto sampleEnv [104; 105])).
    vm_compute. lia.
Defined.

(** C6 does not extend to the empty input, nor to [safeDecrypt]:
    without any key, [encrypt] of the empty string returns the empty
    string instead of failing, and [safeDecrypt] hands a blob back. *)
Lemma encrypt_empty_without_key :
  keyUnusable noKeyEnv
  /\ encrypt toyCrypto noKeyEnv [] sampleEntropy = (Return [], sampleEntropy)
  /\ decrypt toyCrypto noKeyEnv [] = Return []
  /\ secureHash toyCrypto noKeyEnv [] = Return []
  /\ safeDecrypt toyCrypto noKeyEnv forgedBlob = (forgedBlob, true).
Proof. split; [exact I|]. repeat split; reflexivity. Qed.

(** C6, with the empty input set apart.  If the vault key is absent or
    does not decode to exactly 32 bytes, then [isEncryptionConfigured]
    is false and, on every non-empty input, [encrypt], [decrypt] and
    [secureHash] fail with an error: no ciphertext, no plaintext and no
    hash is returned, and no randomness is drawn.  On the empty input
    the three return the empty string, the key never being read.
    [safeDecrypt] alone tolerates the missing key and returns its
    input. *)
Theorem unusable_key_is_fatal c env (input : jsstring) e :
  keyUnusable env ->
  isEncryptionConfigured env = false
  /\ (nonEmpty input = true ->
      (exists msg, encrypt c env input e = (Throw msg, e))
      /\ (exists msg, decrypt c env input = Throw msg)
      /\ (exists msg, secureHash c env input = Throw msg))
  /\ (encrypt c env [] e = (Return [], e)
      /\ decrypt c env [] = Return []
      /\ secureHash c env [] = Return [])
  /\ (safeDecrypt c env input).1 = input.
Proof.
  intros Hkey.
  destruct (getEncryptionKey_unusable env Hkey) as [msg Hmsg].
  split; [unfold isEncryptionConfigured; by rewrite Hmsg|].
  split; [|split; [by repeat split|]].
  - intros Hne. unfold encrypt, decrypt, secureHash.
    rewrite Hne, Hmsg. cbn [negb]. repeat split; eauto.
  - unfold safeDecrypt, decrypt.
    destruct (nonEmpty input) eqn:Hne; cbn [negb]; [|by destruct input].
    rewrite Hmsg. by destruct (isEncrypted input).
Qed.

(** C6 on a concrete input: no key in the environment, input "a". *)
Lemma unusable_key_is_fatal_witness :
  isEncryptionConfigured noKeyEnv = false
  /\ (nonEmpty [97] = true ->
      (exists msg, encrypt toyCrypto noKeyEnv [97] sampleEntropy
                   = (Throw msg, sampleEntropy))
      /\ (exists msg, decrypt toyCrypto noKeyEnv [97] = Throw msg)
      /\ (exists msg, secureHash toyCrypto noKeyEnv [97] = Throw msg))
  /\ (encrypt toyCrypto noKeyEnv [] sampleEntropy = (Return [], sampleEntropy)
      /\ decrypt toyCrypto noKeyEnv [] = Return []
      /\ secureHash toyCrypto noKeyEnv [] = Return [])
  /\ (safeDecrypt toyCrypto noKeyEnv [97]).1 = [97].
Proof.
  apply (unusable_key_is_fatal toyCrypto noKeyEnv [97] sampleEntropy).
  exact I.
Defined.

End EncryptionProofs.

(* ===================================================================== *)
(** * Properties of the notifier                                          *)
(* ===================================================================== *)

Section NotificationsProofs.
Import Notifications.

(** X14.  Once the message is built, nothing that happens to the
    request makes [sendPaymentNotification] throw; and without
    credentials it returns before building anything. *)
Lemma sendPaymentNotification_returns format pushover env data fx :
  truthy (PUSHOVER_API_TOKEN env) = false
  \/ truthy (PUSHOVER_USER_KEY env) = false
  \/ isWellFormedCurrencyCode
       (if String.eqb (currency data) "" then "CAD" else currency data) = true ->
  exists fx', sendPaymentNotification format pushover env data fx = (Return tt, fx').
Proof.
  intros H. unfold sendPaymentNotification.
  destruct (truthy (PUSHOVER_API_TOKEN env)) eqn:Ht; [|simpl; eauto].
  destruct (truthy (PUSHOVER_USER_KEY env)) eqn:Hu; [|simpl; eauto].
  destruct H as [H|[H|H]]; [done|done|]. simpl.
  assert (Hfmt : numberFormat format (currency data)
                 = Return (format (if String.eqb (currency data) "" then "CAD"
                                   else currency data)))
    by (unfold numberFormat; by rewrite H).
  rewrite Hfmt.
  assert (exists t m u ut, buildMessage format data
            (format (if String.eqb (currency data) "" then "CAD" else currency data)
               (amount data)) = Return (t, m, u, ut)) as (t & m & u & ut & ->).
  { unfold buildMessage. rewrite Hfmt.
    destruct (type data); [eauto 6| |destruct (truthy (disputeId data)); eauto 6].
    destruct (default false (isPartialRefund data)); [|eauto 6].
    destruct (truthyNumber (originalAmount data)); eauto 6. }
  destruct (pushover _) as [err|[|] [text|err]]; eauto.
Qed.

(** C9 fails on a malformed currency code.  With credentials configured,
    a notification whose currency code is not three letters makes
    [sendPaymentNotification] throw before anything is sent: the
    amount is formatted ahead of the [try] block. *)
Theorem sendPaymentNotification_throws_on_bad_currency :
  sendPaymentNotification plainFormat pushoverUp sampleEnv twoLetterCurrency noEffects
  = (Throw "Invalid currency code : US", noEffects).
Proof. reflexivity. Qed.

End NotificationsProofs.

(* ===================================================================== *)
(** * Properties of the webhook endpoint                                  *)
(* ===================================================================== *)

Section WebhookProofs.
Import StripeWebhook.

Context (keys : MetadataKeys)
        (verify : string -> string -> string -> Completion StripeEvent)
        (checkout : CheckoutParams -> DB -> Completion CheckoutResult * DB)
        (refundOf : RefundParams -> DB -> Completion RefundResult * DB)
        (format : string -> Q -> string)
        (pushover : Notifications.PushoverMessage -> Notifications.FetchResult)
        (env : ProcessEnv).

Local Abbreviation POST' := (POST keys verify checkout refundOf format pushover env).

(** Up to the idempotency check, [POST] only touches the limiter. *)
Lemma POST_verified request now cleanupAt w event :
  verifiedAs verify env request now cleanupAt w event ->
  exists l,
    POST' request now cleanupAt w =
      (if isEventProcessed (event_id event) (db w) then
         (json 200 (received "already_processed"), withLimiter w l)
       else
         match dispatch keys checkout refundOf format pushover env event now
                 (withLimiter w l) with
         | (Return response, w') => (response, w')
         | (Throw _, w') => (json 500 [("error", JString "Internal error")], w')
         end).
Proof.
  intros ((Hadm & Hsecret) & Hsig & rawBody & Htext & Hverify).
  unfold POST.
  destruct (checkRateLimit (clientIp request) now cleanupAt (limiter w)) as [adm l] eqn:Hrl.
  simpl in Hadm. subst adm. exists l.
  cbn [negb]. rewrite Hsecret, Hsig. cbn [negb]. rewrite Htext, Hverify.
  reflexivity.
Qed.

(** C1.  When a delivery that reaches the idempotency check carries an
    event whose id is already recorded, [POST] answers 200 with status
    already_processed and changes neither the database (projects,
    invoices, payment_events) nor the notifier: no handler runs. *)
Theorem redelivery_acknowledged_once request now cleanupAt w event :
  verifiedAs verify env request now cleanupAt w event ->
  isEventProcessed (event_id event) (db w) = true ->
  (POST' request now cleanupAt w).1 = json 200 (received "already_processed")
  /\ db (POST' request now cleanupAt w).2 = db w
  /\ notifier (POST' request now cleanupAt w).2 = notifier w.
Proof.
  intros Hv Hdone. destruct (POST_verified request now cleanupAt w event Hv) as [l ->].
  by rewrite Hdone.
Qed.

(** C2, with the status of each rejection.  Whenever signature verification fails on a request
    that reached it, nothing is processed: the database and the
    notifier are unchanged.  The response is 401 when
    [verifyStripeWebhook] rejects the signature header, and 400 when
    the header is missing. *)
Theorem rejected_signature_not_processed request now cleanupAt w :
  reachesVerification env request now cleanupAt w ->
  verificationFails verify env request ->
  httpStatus (POST' request now cleanupAt w).1
    = (if truthy (stripe_signature request) then 401 else 400)
  /\ db (POST' request now cleanupAt w).2 = db w
  /\ notifier (POST' request now cleanupAt w).2 = notifier w.
Proof.
  intros (Hadm & Hsecret) Hfail. unfold POST.
  destruct (checkRateLimit (clientIp request) now cleanupAt (limiter w)) as [adm l] eqn:Hrl.
  simpl in Hadm. subst adm. cbn [negb]. rewrite Hsecret. cbn [negb].
  destruct (truthy (stripe_signature request)) eqn:Hsig; cbn [negb];
    [|by repeat split].
  destruct Hfail as [Hmissing|(rawBody & msg & Htext & Hverify)]; [congruence|].
  rewrite Htext, Hverify. by repeat split.
Qed.

(** The unmatched branch of [handleCheckoutSessionCompleted]. *)
Lemma unmatched_checkout_handler event session now w :
  noCorrelationId keys session = true ->
  foreignEnvironment keys env session = false ->
  isEventProcessed (event_id event) (db w) = false ->
  exists row,
    handleCheckoutSessionCompleted keys checkout format pushover env event session now w
      = (Return (json 200 (received "unmatched")),
         withDb w {| projects := projects (db w); invoices := invoices (db w);
                     payment_events := payment_events (db w) ++ [row] |})
    /\ eventId row = event_id event
    /\ row_status row = UNMATCHED.
Proof.
  unfold noCorrelationId, foreignEnvironment, handleCheckoutSessionCompleted.
  intros Hids Henv Hnew. apply andb_true_iff in Hids as [Hproj Hinv].
  apply negb_true_iff in Hproj, Hinv.
  rewrite Henv, Hproj, Hinv. cbn [negb].
  eexists. unfold bind, onDb, payment_events_create. cbn [eventId].
  rewrite Hnew. split; [reflexivity|]. by split.
Qed.

(** C3, for first deliveries in the current environment.  For every verified checkout-completed event that is
    delivered for the first time, names neither a project nor an
    invoice, and carries no environment tag other than the current
    environment: exactly one payment_events row is added, with status
    UNMATCHED and the event's id; projects and invoices are unchanged;
    nothing is notified; and the response is 200 with status unmatched. *)
Theorem unmatched_checkout_recorded request now cleanupAt w event session :
  verifiedAs verify env request now cleanupAt w event ->
  data event = CheckoutSessionCompleted session ->
  isEventProcessed (event_id event) (db w) = false ->
  noCorrelationId keys session = true ->
  foreignEnvironment keys env session = false ->
  exists row,
    (POST' request now cleanupAt w).1 = json 200 (received "unmatched")
    /\ payment_events (db (POST' request now cleanupAt w).2) = payment_events (db w) ++ [row]
    /\ eventId row = event_id event
    /\ row_status row = UNMATCHED
    /\ projects (db (POST' request now cleanupAt w).2) = projects (db w)
    /\ invoices (db (POST' request now cleanupAt w).2) = invoices (db w)
    /\ notifier (POST' request now cleanupAt w).2 = notifier w.
Proof.
  intros Hv Hdata Hnew Hids Henv.
  destruct (POST_verified request now cleanupAt w event Hv) as [l ->].
  rewrite Hnew. unfold dispatch. rewrite Hdata.
  destruct (unmatched_checkout_handler event session now (withLimiter w l)
              Hids Henv Hnew) as (row & -> & Hid & Hst).
  exists row. by repeat split.
Qed.

(** C10.  When the session of a checkout-completed event carries an
    environment tag (a non-empty value under the environment key) that
    differs from the current environment, the handler returns 200 with
    status wrong_environment and leaves the world exactly as it was:
    no payment_events row, no project or invoice update, no
    notification. *)
Theorem foreign_environment_skipped event session now w tag :
  metadataGet session (ENVIRONMENT keys) = Some tag ->
  tag <> "" ->
  tag <> currentEnv env ->
  handleCheckoutSessionCompleted keys checkout format pushover env event session now w
  = (Return (json 200 (received "wrong_environment")), w).
Proof.
  intros Htag Hne Hdiff. unfold handleCheckoutSessionCompleted.
  rewrite Htag. change (default "" (Some tag)) with tag. cbn [truthy].
  apply String.eqb_neq in Hne, Hdiff. by rewrite Hne, Hdiff.
Qed.

End WebhookProofs.

Section WebhookExamples.
Import StripeWebhook.

Lemma signedRequest_verifiedAs rawBody event now cleanupAt w :
  sampleParse rawBody = Some event ->
  (checkRateLimit (clientIp (signedRequest rawBody)) now cleanupAt (limiter w)).1 = true ->
  verifiedAs sampleVerify sampleEnv (signedRequest rawBody) now cleanupAt w event.
Proof.
  intros Hparse Hadm. split; [by split|]. split; [done|].
  exists rawBody. split; [done|]. simpl. unfold sampleVerify.
  rewrite String.eqb_refl. by rewrite Hparse.
Qed.

(** C1 on a concrete delivery: event evt_1 delivered again after it was
    recorded. *)
Lemma redelivery_acknowledged_once_witness :
  (samplePOST (signedRequest "no-ids") 1000 1001 recordedWorld).1
    = json 200 (received "already_processed")
  /\ db (samplePOST (signedRequest "no-ids") 1000 1001 recordedWorld).2 = db recordedWorld
  /\ notifier (samplePOST (signedRequest "no-ids") 1000 1001 recordedWorld).2
     = notifier recordedWorld.
Proof.
  apply (redelivery_acknowledged_once sampleKeys sampleVerify sampleCheckout
           sampleRefund Notifications.plainFormat Notifications.pushoverUp
           sampleEnv (signedRequest "no-ids") 1000 1001 recordedWorld
           {| event_id := "evt_1"; data := CheckoutSessionCompleted (sampleSession []) |}).
  - apply signedRequest_verifiedAs; reflexivity.
  - reflexivity.
Defined.

(** C2 on a concrete request: a forged signature header. *)
Lemma rejected_signature_not_processed_witness :
  httpStatus (samplePOST (forgedRequest "no-ids") 1000 1001 emptyWorld).1 = 401
  /\ db (samplePOST (forgedRequest "no-ids") 1000 1001 emptyWorld).2 = db emptyWorld
  /\ notifier (samplePOST (forgedRequest "no-ids") 1000 1001 emptyWorld).2
     = notifier emptyWorld.
Proof.
  apply (rejected_signature_not_processed sampleKeys sampleVerify sampleCheckout
           sampleRefund Notifications.plainFormat Notifications.pushoverUp
           sampleEnv (forgedRequest "no-ids") 1000 1001 emptyWorld).
  - split; reflexivity.
  - right. exists "no-ids". eexists. split; reflexivity.
Defined.

(** C2 does not give 401 for a missing header: a request without the signature header fails
    verification and is answered 400, not 401. *)
Lemma missing_signature_answered_400 :
  reachesVerification sampleEnv (unsignedRequest "no-ids") 1000 1001 emptyWorld
  /\ verificationFails sampleVerify sampleEnv (unsignedRequest "no-ids")
  /\ httpStatus (samplePOST (unsignedRequest "no-ids") 1000 1001 emptyWorld).1 = 400
  /\ httpStatus (samplePOST (unsignedRequest "no-ids") 1000 1001 emptyWorld).1 <> 401.
Proof.
  split; [split; reflexivity|]. split; [by left|]. split; [reflexivity|].
  vm_compute. discriminate.
Qed.

(** C3 on a concrete delivery: event evt_1, first delivery. *)
Lemma unmatched_checkout_recorded_witness :
  exists row,
    (samplePOST (signedRequest "no-ids") 1000 1001 emptyWorld).1
      = json 200 (received "unmatched")
    /\ payment_events (db (samplePOST (signedRequest "no-ids") 1000 1001 emptyWorld).2)
       = payment_events (db emptyWorld) ++ [row]
    /\ eventId row = "evt_1"
    /\ row_status row = UNMATCHED
    /\ projects (db (samplePOST (signedRequest "no-ids") 1000 1001 emptyWorld).2)
       = projects (db emptyWorld)
    /\ invoices (db (samplePOST (signedRequest "no-ids") 1000 1001 emptyWorld).2)
       = invoices (db emptyWorld)
    /\ notifier (samplePOST (signedRequest "no-ids") 1000 1001 emptyWorld).2
       = notifier emptyWorld.
Proof.
  apply (unmatched_checkout_recorded sampleKeys sampleVerify sampleCheckout
           sampleRefund Notifications.plainFormat Notifications.pushoverUp
           sampleEnv (signedRequest "no-ids") 1000 1001 emptyWorld
           {| event_id := "evt_1"; data := CheckoutSessionCompleted (sampleSession []) |}
           (sampleSession [])).
  - apply signedRequest_verifiedAs; reflexivity.
  - reflexivity.
  - reflexivity.
  - reflexivity.
  - reflexivity.
Defined.

(** C3 does not hold across environments: a verified checkout-completed event without
    any correlation identifier, tagged for production and delivered to
    a development process, is answered wrong_environment and no
    payment_events row is created. *)
Lemma unmatched_checkout_skipped_in_foreign_environment :
  verifiedAs sampleVerify sampleEnv (signedRequest "no-ids-production") 1000 1001 emptyWorld
    {| event_id := "evt_2";
       data := CheckoutSessionCompleted (sampleSession [("environment", "production")]) |}
  /\ noCorrelationId sampleKeys (sampleSession [("environment", "production")]) = true
  /\ isEventProcessed "evt_2" (db emptyWorld) = false
  /\ (samplePOST (signedRequest "no-ids-production") 1000 1001 emptyWorld).1
     = json 200 (received "wrong_environment")
  /\ payment_events (db (samplePOST (signedRequest "no-ids-production") 1000 1001 emptyWorld).2)
     = [].
Proof.
  split; [apply signedRequest_verifiedAs; reflexivity|].
  repeat split; reflexivity.
Qed.

(** C10 on a concrete session: a production-tagged session in a development
    process. *)
Lemma foreign_environment_skipped_witness :
  handleCheckoutSessionCompleted sampleKeys sampleCheckout Notifications.plainFormat
    Notifications.pushoverUp sampleEnv
    {| event_id := "evt_3";
       data := CheckoutSessionCompleted
                 (sampleSession [("project_public_id", "prj_1");
                                 ("environment", "production")]) |}
    (sampleSession [("project_public_id", "prj_1"); ("environment", "production")])
    1000 emptyWorld
  = (Return (json 200 (received "wrong_environment")), emptyWorld).
Proof.
  apply (foreign_environment_skipped sampleKeys sampleCheckout
           Notifications.plainFormat Notifications.pushoverUp sampleEnv _ _
           1000 emptyWorld "production").
  - reflexivity.
  - discriminate.
  - discriminate.
Defined.

End WebhookExamples.

(* ===================================================================== *)
(** * Further properties of the rate limiter                              *)
(* ===================================================================== *)

Section RateLimitFurther.
Import RateLimit.

Ltac break_preset p := destruct p; simpl in *.

Lemma sweepExpired_lookup now (m : gmap string Entry) k :
  sweepExpired now m !! k =
    match m !! k with
    | Some e => if resetAt e <? now then None else Some e
    | None => None
    end.
Proof.
  unfold sweepExpired. destruct (m !! k) as [e|] eqn:Hk.
  - destruct (resetAt e <? now) eqn:Hr.
    + apply map_lookup_filter_None. right. intros e' He'. simpl.
      assert (e' = e) as -> by congruence. by rewrite Hr.
    + apply map_lookup_filter_Some. split; [done|]. simpl. by rewrite Hr.
  - apply map_lookup_filter_None. by left.
Qed.

(** The caller's own entry after a call does not depend on the sweep. *)
Lemma checkInMemory_own_entry key win mx now sweep (m : gmap string Entry) :
  (checkInMemoryRateLimit key win mx now sweep m).2 !! key =
    match m !! key with
    | Some e =>
        if resetAt e <? now
        then Some {| count := 1; resetAt := now + win * 1000 |}
        else Some {| count := count e + 1; resetAt := resetAt e |}
    | None => Some {| count := 1; resetAt := now + win * 1000 |}
    end.
Proof.
  unfold checkInMemoryRateLimit.
  destruct (m !! key) as [e|] eqn:Hk; [|simpl; by rewrite lookup_insert_eq].
  destruct (resetAt e <? now) eqn:Hr; simpl; [by rewrite lookup_insert_eq|].
  rewrite lookup_alter_eq. destruct sweep.
  - by rewrite sweepExpired_lookup, Hk, Hr.
  - by rewrite Hk.
Qed.

(** Another key's entry after a call: untouched, or removed by the
    sweep when it had expired. *)
Lemma checkInMemory_other_entry key win mx now sweep (m : gmap string Entry) k :
  k <> key ->
  (checkInMemoryRateLimit key win mx now sweep m).2 !! k =
    if sweep then
      match m !! k with
      | Some e => if resetAt e <? now then None else Some e
      | None => None
      end
    else m !! k.
Proof.
  intros Hne. unfold checkInMemoryRateLimit.
  assert (Hm1 : (if sweep then sweepExpired now m else m) !! k =
                if sweep then
                  match m !! k with
                  | Some e => if resetAt e <? now then None else Some e
                  | None => None
                  end
                else m !! k)
    by (destruct sweep; [apply sweepExpired_lookup|done]).
  destruct (m !! key) as [e|]; [destruct (resetAt e <? now)|]; simpl;
    rewrite ?lookup_insert_ne, ?lookup_alter_ne by done; exact Hm1.
Qed.

(** X1.  The opportunistic sweep of [checkInMemoryRateLimit] changes
    neither the answer nor the caller's own entry nor any entry whose
    window is still open: with and without the sweep the results are
    equal, and the two maps agree on the caller's key and on every key
    that has not expired. *)
Theorem sweep_changes_no_live_entry key win mx now (m : gmap string Entry) :
  (checkInMemoryRateLimit key win mx now true m).1
    = (checkInMemoryRateLimit key win mx now false m).1
  /\ (checkInMemoryRateLimit key win mx now true m).2 !! key
     = (checkInMemoryRateLimit key win mx now false m).2 !! key
  /\ forall k e, k <> key -> m !! k = Some e ->
       (checkInMemoryRateLimit key win mx now true m).2 !! k
       = if resetAt e <? now then None else Some e.
Proof.
  split; [|split].
  - unfold checkInMemoryRateLimit.
    destruct (m !! key) as [e|]; [destruct (resetAt e <? now)|]; reflexivity.
  - by rewrite !checkInMemory_own_entry.
  - intros k e Hne Hk. rewrite checkInMemory_other_entry by done. by rewrite Hk.
Qed.

(** The answer of the in-process limiter is a function of the caller's
    entry alone. *)
Lemma checkInMemory_answer key win mx now sweep (m : gmap string Entry) :
  (checkInMemoryRateLimit key win mx now sweep m).1 =
    match m !! key with
    | Some e =>
        if resetAt e <? now
        then {| allowed := true; remaining := mx - 1;
                resetAtDate := now + win * 1000 |}
        else {| allowed := (count e + 1 <=? mx);
                remaining := Z.max 0 (mx - (count e + 1));
                resetAtDate := resetAt e |}
    | None => {| allowed := true; remaining := mx - 1;
                 resetAtDate := now + win * 1000 |}
    end.
Proof.
  unfold checkInMemoryRateLimit.
  destruct (m !! key) as [e|]; [destruct (resetAt e <? now)|]; reflexivity.
Qed.

(** X2.  Callers do not consume each other's allowance in the
    in-process limiter: a call for another key at an earlier or equal
    time leaves the answer given to this key unchanged. *)
Theorem other_key_does_not_change_answer key key' win win' mx mx'
    now1 now2 sweep1 sweep2 (m : gmap string Entry) :
  key <> key' -> now1 <= now2 ->
  (checkInMemoryRateLimit key win mx now2 sweep2
     (checkInMemoryRateLimit key' win' mx' now1 sweep1 m).2).1
  = (checkInMemoryRateLimit key win mx now2 sweep2 m).1.
Proof.
  intros Hne Htime. rewrite !checkInMemory_answer.
  rewrite checkInMemory_other_entry by done.
  destruct sweep1; [|done].
  destruct (m !! key) as [e|]; [|done].
  destruct (resetAt e <? now1) eqn:Hr; [|done].
  by replace (resetAt e <? now2) with true by lia.
Qed.

(** X2 on concrete callers: a call for 198.51.100.4 between two calls
    for 203.0.113.7. *)
Lemma other_key_does_not_change_answer_witness :
  (checkInMemoryRateLimit "rate_limit:auth:203.0.113.7" 60 3 2000 false
     (checkInMemoryRateLimit "rate_limit:auth:198.51.100.4" 60 3 1000 true ∅).2).1
  = (checkInMemoryRateLimit "rate_limit:auth:203.0.113.7" 60 3 2000 false ∅).1.
Proof.
  apply (other_key_does_not_change_answer "rate_limit:auth:203.0.113.7"
           "rate_limit:auth:198.51.100.4" 60 60 3 3 1000 2000 true false ∅).
  - discriminate.
  - lia.
Defined.

(** X3.  Which callers share a counter.  Without a namespace, two calls
    build the same key exactly when preset and identifier are both the
    same.  With a (non-empty) namespace the preset is not part of the
    key: two calls build the same key exactly when the identifiers are
    the same. *)
Theorem rateLimitKey_separates_callers id1 id2 p1 p2 ns :
  (rateLimitKey id1 p1 None = rateLimitKey id2 p2 None <-> p1 = p2 /\ id1 = id2)
  /\ (ns <> "" ->
      (rateLimitKey id1 p1 (Some ns) = rateLimitKey id2 p2 (Some ns) <-> id1 = id2)).
Proof.
  split.
  - unfold rateLimitKey. simpl. split.
    + intros H. apply (inj (String.app "rate_limit:")) in H.
      destruct p1, p2; simpl in H; try discriminate H;
        (split; [reflexivity|]); by injection H.
    + by intros [-> ->].
  - intros Hns. unfold rateLimitKey. simpl.
    apply String.eqb_neq in Hns. rewrite Hns. simpl. split.
    + intros H. apply (inj (String.app "rate_limit:")) in H.
      apply (inj (String.app ns)) in H. by injection H.
    + by intros ->.
Qed.

(** X4.  Whatever the store answers (or fails to answer), the result of
    [checkRateLimit] never reports a negative [remaining], and a
    rejected call reports [remaining = 0]. *)
Theorem remaining_is_consistent {S : Type}
    (upstash : Z -> Command -> S -> FetchOutcome * S)
    identifier preset namespace now sweep (w : @World S) :
  let r := (checkRateLimit upstash identifier preset namespace now sweep w).1 in
  0 <= remaining r /\ (allowed r = false -> remaining r = 0).
Proof.
  assert (Hfb : forall key (w' : @World S),
            let r := (fallback key (RATE_LIMITS preset) now sweep w').1 in
            0 <= remaining r /\ (allowed r = false -> remaining r = 0)).
  { intros key w'. unfold fallback.
    pose proof (checkInMemory_answer key (window (RATE_LIMITS preset))
                  (fallbackMax (RATE_LIMITS preset)) now sweep
                  (inMemoryRateLimits w')) as Hans.
    destruct (checkInMemoryRateLimit _ _ _ _ _ _) as [r m']. simpl in *. subst r.
    destruct (inMemoryRateLimits w' !! key) as [e|];
      [destruct (resetAt e <? now)|]; simpl;
      (split; [break_preset preset; lia | intros; try done; lia]). }
  unfold checkRateLimit. destruct (negb (configured w)); [apply Hfb|].
  destruct (redisCommand upstash now (INCR _) w) as [[count|msg] w1]; [|apply Hfb].
  destruct (if decide (count = Some 1) then _ else _) as [[x|msg] w2]; [|apply Hfb].
  destruct (redisCommand upstash now (TTL _) w2) as [[ttl|msg] w3]; [|apply Hfb].
  simpl. split; lia.
Qed.

Lemma verdicts_lookup c N k i :
  (i < k)%nat -> verdicts c N k !! i = Some (c + Z.of_nat i + 1 <=? N).
Proof.
  revert c i. induction k as [|k IH]; intros c i Hi; [lia|].
  destruct i as [|i]; simpl.
  - do 2 f_equal. lia.
  - rewrite IH by lia. do 2 f_equal. lia.
Qed.

Lemma verdicts_length c N k : length (verdicts c N k) = k.
Proof. revert c. induction k as [|k IH]; intros c; simpl; [done|by rewrite IH]. Qed.

(** X5.  Inside one window the limiter admits exactly the first N
    calls, on either path (N = max with the store, fallbackMax
    without): when a call opens a window and any number of further
    calls arrive before the window ends, the call at position i
    (counting the opening call as 0) is admitted if and only if
    i < N; every later call of the window is rejected. *)
Theorem window_admits_exactly_first_N identifier preset namespace
    (w : @World (gmap string RedisEntry)) t0 sweep0 (rest : list (Z * bool)) :
  noOpenWindow (rateLimitKey identifier preset namespace) t0 w = true ->
  Forall (fun call : Z * bool =>
            call.1 < t0 + window (RATE_LIMITS preset) * 1000) rest ->
  exists rs w',
    checkMany redis identifier preset namespace ((t0, sweep0) :: rest) w = (rs, w')
    /\ length rs = S (length rest)
    /\ forall i r, rs !! i = Some r ->
         allowed r = (Z.of_nat i <? effectiveMax preset w).
Proof.
  intros Hfresh Hin.
  destruct (check_opens_window identifier preset namespace t0 sweep0 w Hfresh)
    as (r & w1 & Hr & Ha & Hcfg & Hc).
  destruct (checkMany_in_window identifier preset namespace rest w1 1
              (t0 + window (RATE_LIMITS preset) * 1000) Hc ltac:(lia) Hin)
    as (rs & w2 & Hrs & Hv & Hcfg2 & Hc2).
  assert (HN : 1 <= effectiveMax preset w)
    by (unfold effectiveMax; destruct (configured w); break_preset preset; lia).
  assert (Hsame : effectiveMax preset w1 = effectiveMax preset w)
    by (unfold effectiveMax; by rewrite Hcfg).
  assert (Hlen : length rs = length rest)
    by (rewrite <- (length_map allowed), Hv; apply verdicts_length).
  exists (r :: rs), w2. cbn [checkMany]. rewrite Hr, Hrs.
  split; [done|]. split; [cbn [length]; by rewrite Hlen|].
  intros i r' Hi. destruct i as [|i]; simpl in Hi.
  - injection Hi as <-. rewrite Ha. symmetry. apply Z.ltb_lt. lia.
  - assert (Hmap : map allowed rs !! i = Some (allowed r'))
      by (rewrite list_lookup_fmap, Hi; done).
    rewrite Hv, Hsame in Hmap.
    rewrite verdicts_lookup in Hmap
      by (apply lookup_lt_Some in Hi; lia).
    injection Hmap as <-.
    destruct (Z.leb_spec (1 + Z.of_nat i + 1) (effectiveMax preset w));
      symmetry; [apply Z.ltb_lt|apply Z.ltb_ge]; lia.
Qed.

(** X5 on a concrete run: INTAKE preset with the store (threshold 10),
    twelve calls within the minute. *)
Lemma window_admits_exactly_first_N_witness :
  exists rs w',
    checkMany redis "198.51.100.4" INTAKE (Some "formspree")
      ((0, false) :: map (fun i => (Z.of_nat i * 1000, false)) (seq 1 11))
      {| configured := true; store := ∅; inMemoryRateLimits := ∅ |} = (rs, w')
    /\ length rs = 12%nat
    /\ forall i r, rs !! i = Some r -> allowed r = (Z.of_nat i <? 10).
Proof.
  apply (window_admits_exactly_first_N "198.51.100.4" INTAKE (Some "formspree")
           {| configured := true; store := ∅; inMemoryRateLimits := ∅ |}
           0 false (map (fun i => (Z.of_nat i * 1000, false)) (seq 1 11))).
  - reflexivity.
  - simpl. repeat constructor; simpl; lia.
Defined.

End RateLimitFurther.

(* ===================================================================== *)
(** * Further properties of the crypto vault                              *)
(* ===================================================================== *)

Section EncryptionFurther.
Import Encryption Tokens Leads.

Lemma utf8OfCodePoint_nonEmpty cp : utf8OfCodePoint cp <> [].
Proof.
  unfold utf8OfCodePoint.
  destruct (cp <? 128); [done|]. destruct (cp <? 2048); [done|].
  by destruct (cp <? 65536).
Qed.

Lemma utf8Encode_nonEmpty (s : jsstring) : nonEmpty s = true -> utf8Encode s <> [].
Proof.
  destruct s as [|c rest]; [done|]. intros _. cbn [utf8Encode].
  pose proof (utf8OfCodePoint_nonEmpty) as Hcp.
  destruct (isHighSurrogate c).
  - destruct rest as [|d rest']; [done|].
    destruct (isLowSurrogate d); [|done].
    intros H. apply app_eq_nil in H as [H _]. by apply Hcp in H.
  - destruct (isLowSurrogate c); [done|].
    intros H. apply app_eq_nil in H as [H _]. by apply Hcp in H.
Qed.

Lemma keyConfigured_of_key env key :
  getEncryptionKey env = Return key -> keyConfigured env.
Proof.
  unfold getEncryptionKey, keyConfigured.
  destruct (ENCRYPTION_KEY env) as [k|]; [|done].
  destruct (nonEmpty k); [|done].
  destruct (decide (length (base64Decode k) = 32%nat)); [|done]. eauto.
Qed.

(** What a successful [encrypt] of a non-empty plaintext returns: the
    base64 text of salt, nonce, tag and ciphertext, where the nonce is
    the first 12 bytes drawn and the salt the next 16. *)
Lemma encrypt_layout c env (plaintext : jsstring) e blob e' :
  nonEmpty plaintext = true ->
  encrypt c env plaintext e = (Return blob, e') ->
  exists key tag ct,
    let iv := map (supply e) (seq (position e) IV_LENGTH) in
    let salt := map (supply e) (seq (position e + IV_LENGTH) SALT_LENGTH) in
    getEncryptionKey env = Return key
    /\ aesGcmEncrypt c (hkdfSync c key salt hkdfInfo 32) iv (utf8Encode plaintext)
       = Some (ct, tag)
    /\ blob = base64Encode (salt ++ iv ++ tag ++ ct)
    /\ position e' = (position e + IV_LENGTH + SALT_LENGTH)%nat.
Proof.
  intros Hne. unfold encrypt. rewrite Hne. cbn [negb].
  destruct (getEncryptionKey env) as [key|msg]; [|done].
  cbn [randomBytes supply position].
  destruct (aesGcmEncrypt c _ _ _) as [[ct tag]|] eqn:Henc; [|done].
  intros [= <- <-]. exists key, tag, ct. by repeat split.
Qed.

(** X6.  Two encryptions return the same blob only if they drew the
    same nonce and salt: whenever [encrypt] returns one and the same
    blob for two non-empty plaintexts, the 28 random bytes drawn by the
    two calls are equal. *)
Theorem same_blob_same_randomness c env (v1 v2 : jsstring) e1 e2 blob e1' e2' :
  nonEmpty v1 = true -> nonEmpty v2 = true ->
  encrypt c env v1 e1 = (Return blob, e1') ->
  encrypt c env v2 e2 = (Return blob, e2') ->
  (randomBytes (IV_LENGTH + SALT_LENGTH) e1).1
  = (randomBytes (IV_LENGTH + SALT_LENGTH) e2).1.
Proof.
  intros Hne1 Hne2 H1 H2.
  destruct (encrypt_layout c env v1 e1 blob e1' Hne1 H1)
    as (key1 & tag1 & ct1 & _ & _ & Hb1 & _).
  destruct (encrypt_layout c env v2 e2 blob e2' Hne2 H2)
    as (key2 & tag2 & ct2 & _ & _ & Hb2 & _).
  cbv zeta in Hb1, Hb2. rewrite Hb1 in Hb2.
  apply (f_equal base64Decode) in Hb2. rewrite !base64_roundtrip in Hb2.
  apply app_inj_1 in Hb2 as [Hsalt Hrest];
    [|by rewrite !length_map, !length_seq].
  apply app_inj_1 in Hrest as [Hiv _];
    [|by rewrite !length_map, !length_seq].
  cbn [randomBytes fst]. rewrite !seq_app, !map_app. by rewrite Hsalt, Hiv.
Qed.

(** X6 on concrete draws: two entropy states that hold the same next
    28 bytes at different positions. *)
Lemma same_blob_same_randomness_witness :
  (randomBytes (IV_LENGTH + SALT_LENGTH) sampleEntropy).1
  = (randomBytes (IV_LENGTH + SALT_LENGTH)
       {| supply := fun i => supply sampleEntropy (i - 5); position := 5 |}).1.
Proof.
  eapply (same_blob_same_randomness toyCrypto Encryption.sampleEnv [97] [97]
            sampleEntropy
            {| supply := fun i => supply sampleEntropy (i - 5); position := 5 |}).
  - reflexivity.
  - reflexivity.
  - vm_compute. reflexivity.
  - vm_compute. reflexivity.
Defined.

(** The toy cipher keeps the length of the plaintext. *)
Lemma toyCrypto_ciphertextLength : CiphertextLength toyCrypto.
Proof.
  intros key iv pt ct tag. simpl.
  destruct (decide (length key = 32%nat)); [|done].
  intros [= <- _]. by rewrite length_map.
Qed.

(** A blob made by [encrypt] from a non-empty plaintext passes
    [isEncrypted], and [safeDecrypt] turns it back into the plaintext
    when that is well formed. *)
Lemma safeDecrypt_encrypt c env (v : jsstring) e :
  Lawful c -> CiphertextLength c -> keyConfigured env -> wellFormed v = true ->
  exists blob e',
    encrypt c env v e = (Return blob, e')
    /\ (nonEmpty v = true -> isEncrypted blob = true)
    /\ (nonEmpty v = true -> nonEmpty blob = true)
    /\ safeDecrypt c env blob = (v, false).
Proof.
  intros Hlaw Hlen Hcfg Hwf.
  destruct (nonEmpty v) eqn:Hne.
  - destruct (decrypt_encrypt_utf8 c env v e Hlaw Hcfg Hne)
      as (blob & e' & Henc & Hdec).
    rewrite (utf8_roundtrip v Hwf) in Hdec.
    destruct (encrypt_layout c env v e blob e' Hne Henc)
      as (key & tag & ct & _ & Hgcm & Hblob & _). cbv zeta in Hblob.
    assert (Hblobne : nonEmpty blob = true).
    { rewrite Hblob. apply base64Encode_nonEmpty.
      intros H. apply (f_equal length) in H.
      rewrite length_app, length_map, length_seq in H. by cbn in H. }
    assert (Hframed : isEncrypted blob = true).
    { unfold isEncrypted. rewrite Hblobne. cbn [negb].
      rewrite Hblob, base64_roundtrip.
      pose proof (Hlen _ _ _ _ _ Hgcm) as Hct.
      pose proof (utf8Encode_nonEmpty v Hne) as Hpt.
      destruct (utf8Encode v) as [|b bs]; [done|].
      assert (Htag : length tag = AUTH_TAG_LENGTH).
      { destruct (gcm_inverse c Hlaw (hkdfSync c key
                    (map (supply e) (seq (position e + IV_LENGTH) SALT_LENGTH))
                    hkdfInfo 32)
                    (map (supply e) (seq (position e) IV_LENGTH)) (b :: bs))
          as (ct' & tag' & Henc' & Htag' & _);
          [apply (hkdf_length c Hlaw) | by rewrite length_map, length_seq |].
        congruence. }
      rewrite !length_app, !length_map, !length_seq, Htag, Hct.
      cbn [length]. apply Nat.leb_le. unfold SALT_LENGTH, IV_LENGTH, AUTH_TAG_LENGTH.
      lia. }
    exists blob, e'. repeat split; try done.
    unfold safeDecrypt. by rewrite Hblobne, Hframed, Hdec.
  - destruct v; [|done]. exists [], e. by repeat split.
Qed.






(** Without a usable key [safeDecrypt] is the identity. *)
Lemma safeDecrypt_without_key c env (v : jsstring) :
  isEncryptionConfigured env = false -> (safeDecrypt c env v).1 = v.
Proof.
  unfold isEncryptionConfigured, safeDecrypt, decrypt. intros Hk.
  destruct v as [|u v]; [done|]. cbn [nonEmpty negb].
  destruct (isEncrypted (u :: v)); [|done]. cbn [negb].
  by destruct (getEncryptionKey env).
Qed.

(** X9.  What the intake route stores, the lead data-access layer
    reads back.  In one and the same environment, whether or not a key
    is configured, for well-formed email, phone and message: the three
    columns computed by the intake route are computed without error,
    and [decryptLeadFields] on the stored row returns the email, and
    the phone and message when non-empty ([null] otherwise), leaving
    the other columns alone. *)
Theorem stored_lead_reads_back {A} c env (email phone message : jsstring) e (rest : A) :
  Lawful c -> CiphertextLength c ->
  wellFormed email = true -> wellFormed phone = true -> wellFormed message = true ->
  exists storedEmail storedPhone storedMessage e',
    storedColumns c env email phone message e
      = (Return (storedEmail, storedPhone, storedMessage), e')
    /\ decryptLeadFields c env
         {| row_email := Some storedEmail; row_phone := storedPhone;
            row_message := storedMessage; row_rest := rest |}
       = {| row_email := Some email;
            row_phone := if nonEmpty phone then Some phone else None;
            row_message := if nonEmpty message then Some message else None;
            row_rest := rest |}.
Proof.
  intros Hlaw Hlen Hwe Hwp Hwm. unfold storedColumns, decryptLeadFields.
  cbn [row_email row_phone row_message row_rest].
  destruct (isEncryptionConfigured env) eqn:Hcfg.
  - assert (Hkey : keyConfigured env).
    { unfold isEncryptionConfigured in Hcfg.
      destruct (getEncryptionKey env) as [key|] eqn:Hk; [|done].
      by eapply keyConfigured_of_key. }
    destruct (safeDecrypt_encrypt c env email e Hlaw Hlen Hkey Hwe)
      as (eb & e1 & -> & _ & _ & Hse).
    assert (Hopt : forall (x : jsstring) e0, wellFormed x = true ->
              exists r e0',
                (if nonEmpty x
                 then match encrypt c env x e0 with
                      | (Return v, e') => (Return (Some v), e')
                      | (Throw msg, e') => (Throw msg, e')
                      end
                 else (Return None, e0)) = (Return r, e0')
                /\ decryptField c env r = if nonEmpty x then Some x else None).
    { intros x e0 Hwx. destruct (nonEmpty x) eqn:Hx; [|by exists None, e0].
      destruct (safeDecrypt_encrypt c env x e0 Hlaw Hlen Hkey Hwx)
        as (xb & e0' & -> & _ & Hxb & Hsx).
      exists (Some xb), e0'. split; [done|].
      unfold decryptField. cbn [present default from_option id]. by rewrite (Hxb Hx), Hsx. }
    destruct (Hopt phone e1 Hwp) as (pb & e2 & -> & Hp).
    destruct (Hopt message e2 Hwm) as (mb & e3 & -> & Hm).
    eexists _, _, _, _. split; [reflexivity|]. rewrite Hp, Hm. f_equal.
    unfold decryptField. cbn [present default from_option id].
    destruct (nonEmpty eb) eqn:Heb; [by rewrite Hse|].
    destruct eb; [|done]. f_equal.
    unfold safeDecrypt in Hse. simpl in Hse. by injection Hse.
  - assert (Hfield : forall x : jsstring,
              decryptField c env (if nonEmpty x then Some x else None)
              = if nonEmpty x then Some x else None).
    { intros x. destruct (nonEmpty x) eqn:Hx; [|done].
      unfold decryptField. cbn [present default from_option id]. rewrite Hx.
      by rewrite safeDecrypt_without_key. }
    exists email, (if nonEmpty phone then Some phone else None),
      (if nonEmpty message then Some message else None), e.
    split; [by destruct (nonEmpty phone), (nonEmpty message)|].
    rewrite !Hfield. f_equal.
    unfold decryptField. cbn [present default from_option id].
    destruct (nonEmpty email); [|done]. by rewrite safeDecrypt_without_key.
Qed.

(** X9 on a concrete submission, in an environment without a key. *)
Lemma stored_lead_reads_back_witness :
  exists storedEmail storedPhone storedMessage e',
    storedColumns toyCrypto noKeyEnv [97; 64; 98; 46; 99] [] [233; 8364] sampleEntropy
      = (Return (storedEmail, storedPhone, storedMessage), e')
    /\ decryptLeadFields toyCrypto noKeyEnv
         {| row_email := Some storedEmail; row_phone := storedPhone;
            row_message := storedMessage; row_rest := tt |}
       = {| row_email := Some [97; 64; 98; 46; 99];
            row_phone := None;
            row_message := Some [233; 8364];
            row_rest := tt |}.
Proof.
  apply (stored_lead_reads_back toyCrypto noKeyEnv [97; 64; 98; 46; 99] []
           [233; 8364] sampleEntropy tt).
  - exact toyCrypto_lawful.
  - exact toyCrypto_ciphertextLength.
  - reflexivity.
  - reflexivity.
  - reflexivity.
Defined.

(** *** Short values are never taken for blobs *)

Lemma sextets_length (s : jsstring) : (length (sextets s) <= length s)%nat.
Proof.
  induction s as [|c r IH]; [done|]. cbn [sextets length].
  destruct (lowByte c =? 61); [cbn; lia|]. destruct (unbase64 c); cbn [length]; lia.
Qed.

Lemma bytesOfSextets_length_bounded n :
  forall vs : list Z, (length vs <= n)%nat ->
  (4 * length (bytesOfSextets vs) <= 3 * length vs)%nat.
Proof.
  induction n as [n IH] using lt_wf_ind. intros vs Hn.
  destruct vs as [|a [|b [|c [|d rest]]]]; cbn [bytesOfSextets length]; try lia.
  specialize (IH (length rest) ltac:(cbn [length] in Hn; lia) rest ltac:(lia)). lia.
Qed.

Lemma base64Decode_length (s : jsstring) :
  (4 * length (base64Decode s) <= 3 * length s)%nat.
Proof.
  unfold base64Decode.
  pose proof (bytesOfSextets_length_bounded _ (sextets s) (le_n _)).
  pose proof (sextets_length s). lia.
Qed.

(** X10.  A value shorter than 60 characters is never taken for an
    encrypted blob: [isEncrypted] is false and [safeDecrypt] returns
    the value unchanged without attempting decryption, whatever the
    key and the cipher. *)
Theorem short_value_passes_through c env (value : jsstring) :
  (length value < 60)%nat ->
  isEncrypted value = false /\ safeDecrypt c env value = (value, false).
Proof.
  intros Hshort.
  assert (Hno : isEncrypted value = false).
  { unfold isEncrypted. destruct (nonEmpty value); [|done]. cbn [negb].
    pose proof (base64Decode_length value).
    apply Nat.leb_gt. unfold SALT_LENGTH, IV_LENGTH, AUTH_TAG_LENGTH. lia. }
  split; [done|]. unfold safeDecrypt. rewrite Hno.
  by destruct value.
Qed.

(** X10 on a concrete value: a phone number. *)
Lemma short_value_passes_through_witness :
  isEncrypted [43; 49; 55; 48; 53; 53; 53; 48; 49; 52; 50] = false
  /\ safeDecrypt toyCrypto Encryption.sampleEnv [43; 49; 55; 48; 53; 53; 53; 48; 49; 52; 50]
     = ([43; 49; 55; 48; 53; 53; 53; 48; 49; 52; 50], false).
Proof.
  apply (short_value_passes_through toyCrypto Encryption.sampleEnv
           [43; 49; 55; 48; 53; 53; 53; 48; 49; 52; 50]).
  simpl. lia.
Defined.



(** *** Comparison and tokens *)

Lemma Z_of_byte_inj a b : Z_of_byte a = Z_of_byte b -> a = b.
Proof. intros H. by rewrite <- (byte_of_Z_of_byte a), H, byte_of_Z_of_byte. Qed.

Lemma sameBytes_eq (a b : Buffer) : sameBytes a b = true <-> a = b.
Proof.
  unfold sameBytes. rewrite bool_decide_eq_true. split; [|by intros ->].
  revert b. induction a as [|x a IH]; intros [|y b] H; try done.
  cbn [map] in H. injection H as Hxy Hab.
  f_equal; [by apply Z_of_byte_inj | by apply IH].
Qed.

(** X12.  On well-formed strings [secureCompare] is equality: it
    returns true exactly when the two strings are the same. *)
Theorem secureCompare_is_equality (a b : jsstring) :
  wellFormed a = true -> wellFormed b = true ->
  (secureCompare a b = true <-> a = b).
Proof.
  intros Ha Hb. unfold secureCompare. split.
  - destruct (length (utf8Encode a) =? length (utf8Encode b))%nat; [|done].
    cbn [negb]. intros H. apply sameBytes_eq in H.
    by rewrite <- (utf8_roundtrip a Ha), H, utf8_roundtrip.
  - intros ->. rewrite Nat.eqb_refl. cbn [negb]. by apply sameBytes_eq.
Qed.

(** X12 on two concrete tokens. *)
Lemma secureCompare_is_equality_witness :
  secureCompare [97; 98; 233] [97; 98; 233] = true <-> [97; 98; 233] = [97; 98; 233].
Proof.
  apply (secureCompare_is_equality [97; 98; 233] [97; 98; 233]); reflexivity.
Defined.

Lemma hexDigit_isHexDigit v : 0 <= v < 16 -> isHexDigit (hexDigit v) = true.
Proof.
  intros Hv. unfold isHexDigit, hexDigit.
  destruct (Z.ltb_spec v 10).
  - replace (48 <=? 48 + v) with true by lia.
    by replace (48 + v <=? 57) with true by lia.
  - replace (48 <=? 87 + v) with true by lia.
    replace (87 + v <=? 57) with false by lia.
    replace (97 <=? 87 + v) with true by lia.
    by replace (87 + v <=? 102) with true by lia.
Qed.

Lemma hexEncode_shape (bs : Buffer) :
  length (hexEncode bs) = (2 * length bs)%nat
  /\ forallb isHexDigit (hexEncode bs) = true.
Proof.
  induction bs as [|b bs [IHlen IHhex]]; [done|].
  cbn [hexEncode length forallb]. pose proof (Z_of_byte_range b).
  rewrite !hexDigit_isHexDigit, IHhex by (Z.div_mod_to_equations; lia).
  split; [lia|done].
Qed.

(** X13.  For a size between 0 and 268435444 (half the longest
    string), [generateSecureToken] returns a token of exactly twice
    that many characters, all of them lower-case hexadecimal digits,
    and draws exactly that many random bytes.  For a larger size up to
    2^31 - 1 it draws the bytes and then throws, the token being too
    long for a string; for any other integer size it throws and draws
    nothing. *)
Theorem generateSecureToken_shape (size : Z) e :
  (0 <= size <= 268435444 ->
   exists token e',
     generateSecureToken size e = (Return token, e')
     /\ Z.of_nat (length token) = 2 * size
     /\ forallb isHexDigit token = true
     /\ Z.of_nat (position e') = Z.of_nat (position e) + size)
  /\ (268435444 < size <= 2147483647 ->
      exists msg e',
        generateSecureToken size e = (Throw msg, e')
        /\ Z.of_nat (position e') = Z.of_nat (position e) + size)
  /\ (~ 0 <= size <= 2147483647 ->
      exists msg, generateSecureToken size e = (Throw msg, e)).
Proof.
  unfold generateSecureToken, MAX_STRING_LENGTH.
  split; [|split]; intros Hsize.
  - replace ((0 <=? size) && (size <=? 2147483647)) with true by lia.
    cbn [randomBytes].
    replace (2 * size <=? 536870888) with true by lia.
    eexists _, _. split; [reflexivity|].
    destruct (hexEncode_shape (map (supply e) (seq (position e) (Z.to_nat size))))
      as [Hlen Hhex].
    rewrite Hlen, length_map, length_seq. cbn [position]. repeat split; [lia|done|lia].
  - replace ((0 <=? size) && (size <=? 2147483647)) with true by lia.
    cbn [randomBytes].
    replace (2 * size <=? 536870888) with false by lia.
    eexists _, _. split; [reflexivity|]. cbn [position]. lia.
  - replace ((0 <=? size) && (size <=? 2147483647)) with false by lia. eauto.
Qed.

End EncryptionFurther.

(* ===================================================================== *)
(** * Further properties of the notifier and the webhook endpoint         *)
(* ===================================================================== *)

Section NotifierFurther.
Import Notifications RouteFacts.

(** X14 on a concrete notice: credentials configured, currency CAD,
    Pushover unreachable. *)
Lemma sendPaymentNotification_returns_witness :
  exists fx',
    sendPaymentNotification plainFormat pushoverDown sampleEnv
      {| type := dispute; amount := 1200 # 1; currency := "CAD";
         projectName := "Website refresh"; projectId := None; chargeId := None;
         disputeId := Some "dp_1"; reason := Some "fraudulent"; priority := None;
         isPartialRefund := None; originalAmount := None |} noEffects
    = (Return tt, fx').
Proof.
  apply (sendPaymentNotification_returns plainFormat pushoverDown sampleEnv).
  right. right. reflexivity.
Defined.

(** X15.  One call of [sendPaymentNotification] hands at most one
    request to [fetch] and keeps the earlier ones; the request carries
    the configured token and user, the given priority (1 for a dispute
    and 0 otherwise when none is given) and the siren sound exactly for
    disputes; and without both credentials nothing is handed over. *)
Theorem sendPaymentNotification_sends_at_most_one format pushover env data fx :
  let fx' := (sendPaymentNotification format pushover env data fx).2 in
  (sent fx' = sent fx
   \/ exists m,
        sent fx' = sent fx ++ [m]
        /\ token m = default "" (PUSHOVER_API_TOKEN env)
        /\ user m = default "" (PUSHOVER_USER_KEY env)
        /\ msgPriority m = match priority data with
                           | Some p => p
                           | None => match type data with dispute => 1 | _ => 0 end
                           end
        /\ sound m = match type data with dispute => "siren" | _ => "cashregister" end)
  /\ (truthy (PUSHOVER_API_TOKEN env) && truthy (PUSHOVER_USER_KEY env) = false ->
      sent fx' = sent fx).
Proof.
  unfold sendPaymentNotification.
  destruct (truthy (PUSHOVER_API_TOKEN env)), (truthy (PUSHOVER_USER_KEY env));
    cbn [negb orb andb]; try (split; [by left|done]).
  split; [|done].
  destruct (numberFormat format (currency data)) as [fmt|msg]; [|by left].
  destruct (buildMessage format data _) as [[[[t m] u] ut]|msg]; [|by left].
  right. eexists. split.
  - by destruct (pushover _) as [err|[|] [text|err]].
  - by repeat split.
Qed.

Lemma wellFormed_currency_nonEmpty code :
  isWellFormedCurrencyCode code = true -> String.eqb code "" = false.
Proof. by destruct code. Qed.

(** With a well-formed currency code the notifier returns, having
    handed over exactly one request when the credentials are set and
    none otherwise. *)
Lemma sendPaymentNotification_outcome format pushover env data fx :
  isWellFormedCurrencyCode (currency data) = true ->
  exists fx',
    sendPaymentNotification format pushover env data fx = (Return tt, fx')
    /\ notifiedOnce env (titleOf data)
         (match priority data with
          | Some p => p
          | None => match type data with dispute => 1 | _ => 0 end
          end)
         (match type data with dispute => "siren" | _ => "cashregister" end)
         fx fx'.
Proof.
  intros Hwf. unfold sendPaymentNotification, notifiedOnce, credentialsSet.
  destruct (truthy (PUSHOVER_API_TOKEN env)), (truthy (PUSHOVER_USER_KEY env));
    cbn [negb orb andb]; try (eexists; split; [reflexivity|done]).
  assert (Hfmt : numberFormat format (currency data) = Return (format (currency data)))
    by (unfold numberFormat; by rewrite (wellFormed_currency_nonEmpty _ Hwf), Hwf).
  rewrite Hfmt.
  assert (exists m u ut, buildMessage format data (format (currency data) (amount data))
            = Return (titleOf data, m, u, ut)) as (m & u & ut & ->).
  { unfold buildMessage, titleOf. rewrite Hfmt.
    destruct (type data); [eauto| |destruct (truthy (disputeId data)); eauto].
    destruct (default false (isPartialRefund data)); [|eauto].
    destruct (truthyNumber (originalAmount data)); eauto. }
  destruct (pushover _) as [err|[|] [text|err]];
    (eexists; split; [reflexivity|]); eexists; by repeat split.
Qed.

End NotifierFurther.

Section WebhookFurther.
Import StripeWebhook RouteFacts.

Context (keys : MetadataKeys)
        (verify : string -> string -> string -> Completion StripeEvent)
        (checkout : CheckoutParams -> DB -> Completion CheckoutResult * DB)
        (refundOf : RefundParams -> DB -> Completion RefundResult * DB)
        (format : string -> Q -> string)
        (pushover : Notifications.PushoverMessage -> Notifications.FetchResult)
        (env : ProcessEnv).

Local Abbreviation POST' := (POST keys verify checkout refundOf format pushover env).
Local Abbreviation notify := (sendPaymentNotification format pushover env).

(** *** How the pieces of a handler compose *)

Lemma answers_ret status body :
  status = 200 \/ status = 500 -> answers200or500 (ret (json status body)).
Proof. intros H w r w' [= <- _]. exact H. Qed.

Lemma answers_bind {A} (m : M A) (k : A -> M Response) :
  (forall a, answers200or500 (k a)) -> answers200or500 (bind m k).
Proof.
  intros Hk w r w'. unfold bind.
  destruct (m w) as [[a|msg] w1]; [apply Hk|done].
Qed.

Lemma answers_tryCatch (m : M Response) (h : string -> M Response) :
  answers200or500 m -> (forall e, answers200or500 (h e)) ->
  answers200or500 (tryCatch m h).
Proof.
  intros Hm Hh w r w'. unfold tryCatch.
  destruct (m w) as [[a|msg] w1] eqn:Hmw.
  - intros [= <- <-]. by eapply Hm.
  - apply Hh.
Qed.

Lemma keeps_ret {A} (a : A) : keepsLimiter (ret a).
Proof. done. Qed.

Lemma keeps_bind {A B} (m : M A) (k : A -> M B) :
  keepsLimiter m -> (forall a, keepsLimiter (k a)) -> keepsLimiter (bind m k).
Proof.
  intros Hm Hk w. unfold bind. specialize (Hm w).
  destruct (m w) as [[a|msg] w1]; simpl in *; [|done].
  by rewrite Hk.
Qed.

Lemma keeps_tryCatch {A} (m : M A) (h : string -> M A) :
  keepsLimiter m -> (forall e, keepsLimiter (h e)) -> keepsLimiter (tryCatch m h).
Proof.
  intros Hm Hh w. unfold tryCatch. specialize (Hm w).
  destruct (m w) as [[a|msg] w1]; simpl in *; [done|].
  by rewrite Hh.
Qed.

Lemma keeps_onDb {A} (op : DB -> Completion A * DB) : keepsLimiter (onDb op).
Proof. intros w. unfold onDb. by destruct (op (db w)). Qed.

Lemma keeps_readDb {A} (q : DB -> A) : keepsLimiter (readDb q).
Proof. done. Qed.

Lemma keeps_notify data : keepsLimiter (notify data).
Proof.
  intros w. unfold sendPaymentNotification.
  by destruct (Notifications.sendPaymentNotification _ _ _ _ _).
Qed.

Lemma keeps_if {A} (b : bool) (m1 m2 : M A) :
  keepsLimiter m1 -> keepsLimiter m2 -> keepsLimiter (if b then m1 else m2).
Proof. by destruct b. Qed.

Lemma answers_if (b : bool) (m1 m2 : M Response) :
  answers200or500 m1 -> answers200or500 m2 ->
  answers200or500 (if b then m1 else m2).
Proof. by destruct b. Qed.

Ltac keeps :=
  repeat first
    [ apply keeps_ret | apply keeps_onDb | apply keeps_readDb | apply keeps_notify
    | apply keeps_bind; [|intros ?] | apply keeps_tryCatch; [|intros ?]
    | apply keeps_if
    | match goal with |- keepsLimiter (match ?x with _ => _ end) => destruct x end ].

Ltac answers :=
  repeat first
    [ apply answers_ret; auto
    | apply answers_bind; intros ?
    | apply answers_tryCatch; [|intros ?]
    | apply answers_if ].

Lemma dispatch_answers event now :
  answers200or500 (dispatch keys checkout refundOf format pushover env event now).
Proof.
  unfold dispatch. destruct (data event); [| | | | |by answers].
  - unfold handleCheckoutSessionCompleted. answers.
  - unfold handleCheckoutSessionExpired. answers.
  - unfold handlePaymentIntentFailed. answers.
  - unfold handleChargeRefunded. answers.
  - unfold handleChargeDisputeCreated. answers.
Qed.

Lemma dispatch_keepsLimiter event now :
  keepsLimiter (dispatch keys checkout refundOf format pushover env event now).
Proof.
  unfold dispatch. destruct (data event); [| | | | |by keeps].
  - unfold handleCheckoutSessionCompleted. keeps.
  - unfold handleCheckoutSessionExpired. keeps.
  - unfold handlePaymentIntentFailed. keeps.
  - unfold handleChargeRefunded. keeps.
  - unfold handleChargeDisputeCreated. keeps.
Qed.

(** X16.  The status codes of the webhook endpoint.  Whatever the
    request, the world and the collaborators, [POST] answers 200, 400,
    401, 429 or 500; a 400, 401 or 429 leaves the database and the
    notifier untouched; and the event handlers never touch the per-IP
    limiter, which is left as the admission check left it. *)
Theorem POST_status_codes request now cleanupAt w :
  let r := POST' request now cleanupAt w in
  (httpStatus r.1 = 200 \/ httpStatus r.1 = 400 \/ httpStatus r.1 = 401
   \/ httpStatus r.1 = 429 \/ httpStatus r.1 = 500)
  /\ (httpStatus r.1 = 400 \/ httpStatus r.1 = 401 \/ httpStatus r.1 = 429 ->
      db r.2 = db w /\ notifier r.2 = notifier w)
  /\ limiter r.2 = (checkRateLimit (clientIp request) now cleanupAt (limiter w)).2.
Proof.
  unfold POST.
  destruct (checkRateLimit (clientIp request) now cleanupAt (limiter w)) as [adm l].
  destruct adm; cbn [negb]; [|simpl; by intuition].
  destruct (truthy (STRIPE_WEBHOOK_SECRET env)); cbn [negb]; [|simpl; by intuition].
  destruct (truthy (stripe_signature request)); cbn [negb]; [|simpl; by intuition].
  destruct (text request) as [rawBody|msg]; [|simpl; by intuition].
  destruct (verify _ _ _) as [event|msg]; [|simpl; by intuition].
  destruct (isEventProcessed _ _); [simpl; by intuition|].
  pose proof (dispatch_answers event now (withLimiter w l)) as Hans.
  pose proof (dispatch_keepsLimiter event now (withLimiter w l)) as Hkeep.
  destruct (dispatch keys checkout refundOf format pushover env event now _)
    as [[response|msg] w'].
  - specialize (Hans response w' eq_refl). simpl in *.
    split; [intuition|]. split; [|done]. intros [H|[H|H]]; lia.
  - simpl in *. split; [intuition|]. split; [|done]. intros [H|[H|H]]; lia.
Qed.

(** *** Upper-casing keeps a currency code well formed *)

Lemma upperAscii_letter a :
  Notifications.isAsciiLetter a = true ->
  Notifications.isAsciiLetter (upperAscii a) = true.
Proof.
  unfold Notifications.isAsciiLetter, upperAscii.
  pose proof (nat_ascii_bounded a) as Hb.
  destruct ((97 <=? nat_of_ascii a) && (nat_of_ascii a <=? 122))%nat eqn:Hlow;
    [|by rewrite Hlow].
  intros _. apply andb_true_iff in Hlow as [H1 H2].
  apply Nat.leb_le in H1, H2.
  rewrite nat_ascii_embedding by lia.
  apply orb_true_iff. left. apply andb_true_iff.
  split; apply Nat.leb_le; lia.
Qed.

Lemma toUpperCase_wellFormed code :
  Notifications.isWellFormedCurrencyCode code = true ->
  Notifications.isWellFormedCurrencyCode (toUpperCase code) = true.
Proof.
  unfold Notifications.isWellFormedCurrencyCode.
  destruct code as [|a1 [|a2 [|a3 [|a4 rest]]]]; try done.
  cbn. intros H.
  repeat (apply andb_true_iff in H as [? H]).
  by rewrite !upperAscii_letter.
Qed.

Lemma bind_returns {A B} (m : M A) (k : A -> M B) w a w' :
  m w = (Return a, w') -> bind m k w = k a w'.
Proof. unfold bind. by intros ->. Qed.

Lemma bind_throws {A B} (m : M A) (k : A -> M B) w e w' :
  m w = (Throw e, w') -> bind m k w = (Throw e, w').
Proof. unfold bind. by intros ->. Qed.

Lemma bind_bind_returns {A B C} (m : M A) (k : A -> M B) (k2 : B -> M C) w a w' :
  m w = (Return a, w') -> bind (bind m k) k2 w = bind (k a) k2 w'.
Proof. unfold bind. by intros ->. Qed.

Lemma create_first row w :
  isEventProcessed (eventId row) (db w) = false ->
  onDb (payment_events_create row) w
  = (Return tt,
     withDb w {| projects := projects (db w); invoices := invoices (db w);
                 payment_events := payment_events (db w) ++ [row] |}).
Proof. intros H. unfold onDb, payment_events_create. by rewrite H. Qed.

(** The notifier as the route calls it. *)
Lemma notify_outcome data w :
  Notifications.isWellFormedCurrencyCode (Notifications.currency data) = true ->
  exists fx',
    notify data w = (Return tt, withNotifier w fx')
    /\ notifiedOnce (pushoverEnv env) (titleOf data)
         (match Notifications.priority data with
          | Some p => p
          | None => match Notifications.type data with
                    | Notifications.dispute => 1 | _ => 0 end
          end)
         (match Notifications.type data with
          | Notifications.dispute => "siren" | _ => "cashregister" end)
         (notifier w) fx'.
Proof.
  intros Hwf. unfold sendPaymentNotification.
  destruct (sendPaymentNotification_outcome format pushover (pushoverEnv env)
              data (notifier w) Hwf) as (fx' & -> & Hn).
  by exists fx'.
Qed.

(** What [POST] returns for a first delivery of a log-only event. *)
Lemma log_only_POST request now cleanupAt w event :
  verifiedAs verify env request now cleanupAt w event ->
  isEventProcessed (event_id event) (db w) = false ->
  (exists session, data event = CheckoutSessionExpired session)
  \/ (exists paymentIntent, data event = PaymentIntentPaymentFailed paymentIntent) ->
  exists l row,
    POST' request now cleanupAt w
    = (json 200 (received "logged"),
       withDb (withLimiter w l)
         {| projects := projects (db w); invoices := invoices (db w);
            payment_events := payment_events (db w) ++ [row] |})
    /\ eventId row = event_id event
    /\ row_status row = match data event with
                        | PaymentIntentPaymentFailed _ => FAILED
                        | _ => SUCCESS
                        end.
Proof.
  intros Hv Hnew Hkind.
  destruct (POST_verified keys verify checkout refundOf format pushover env
              request now cleanupAt w event Hv) as [l ->].
  exists l. rewrite Hnew. unfold dispatch.
  destruct Hkind as [[session ->]|[paymentIntent ->]].
  - unfold handleCheckoutSessionExpired. cbv zeta.
    erewrite bind_returns by (by apply create_first).
    eexists. by repeat split.
  - unfold handlePaymentIntentFailed. cbv zeta.
    erewrite bind_returns by (by apply create_first).
    eexists. by repeat split.
Qed.

Lemma isEventProcessed_snoc id d row :
  eventId row = id ->
  isEventProcessed id
    {| projects := projects d; invoices := invoices d;
       payment_events := payment_events d ++ [row] |} = true.
Proof.
  intros <-. unfold isEventProcessed. cbn [payment_events].
  rewrite existsb_app. cbn. rewrite String.eqb_refl. by rewrite orb_true_r.
Qed.

Lemma no_rows_of_unprocessed id d :
  isEventProcessed id d = false ->
  filter (fun row => eventId row = id) (payment_events d) = [].
Proof.
  unfold isEventProcessed. induction (payment_events d) as [|row rows IH];
    [done|].
  cbn [existsb]. intros [Hrow Hrows]%orb_false_iff.
  apply String.eqb_neq in Hrow.
  rewrite filter_cons, decide_False by done. by apply IH.
Qed.

(** X17.  The log-only events.  A verified first delivery of
    checkout.session.expired or payment_intent.payment_failed is
    answered 200 with status logged and adds exactly one
    payment_events row carrying the event id (status SUCCESS for an
    expired session, FAILED for a failed payment); projects, invoices
    and the notifier are left untouched. *)
Theorem log_only_events_are_recorded request now cleanupAt w event :
  verifiedAs verify env request now cleanupAt w event ->
  isEventProcessed (event_id event) (db w) = false ->
  (exists session, data event = CheckoutSessionExpired session)
  \/ (exists paymentIntent, data event = PaymentIntentPaymentFailed paymentIntent) ->
  (POST' request now cleanupAt w).1 = json 200 (received "logged")
  /\ (exists row,
        payment_events (db (POST' request now cleanupAt w).2) = payment_events (db w) ++ [row]
        /\ eventId row = event_id event
        /\ row_status row = match data event with
                            | PaymentIntentPaymentFailed _ => FAILED
                            | _ => SUCCESS
                            end)
  /\ projects (db (POST' request now cleanupAt w).2) = projects (db w)
  /\ invoices (db (POST' request now cleanupAt w).2) = invoices (db w)
  /\ notifier (POST' request now cleanupAt w).2 = notifier w.
Proof.
  intros Hv Hnew Hkind.
  destruct (log_only_POST request now cleanupAt w event Hv Hnew Hkind)
    as (l & row & -> & Hid & Hstatus).
  split; [done|]. split; [|done]. by exists row.
Qed.

(** X18.  A log-only event is processed once.  When the same
    checkout.session.expired or payment_intent.payment_failed event is
    delivered twice, both times verified, the second delivery is
    answered 200 with status already_processed and changes neither the
    database nor the notifier, and the database then holds exactly one
    payment_events row for the event. *)
Theorem log_only_event_is_processed_once request1 now1 cleanupAt1 request2 now2 cleanupAt2 w event :
  verifiedAs verify env request1 now1 cleanupAt1 w event ->
  isEventProcessed (event_id event) (db w) = false ->
  (exists session, data event = CheckoutSessionExpired session)
  \/ (exists paymentIntent, data event = PaymentIntentPaymentFailed paymentIntent) ->
  verifiedAs verify env request2 now2 cleanupAt2 (POST' request1 now1 cleanupAt1 w).2 event ->
  (POST' request2 now2 cleanupAt2 (POST' request1 now1 cleanupAt1 w).2).1
    = json 200 (received "already_processed")
  /\ db (POST' request2 now2 cleanupAt2 (POST' request1 now1 cleanupAt1 w).2).2
     = db (POST' request1 now1 cleanupAt1 w).2
  /\ notifier (POST' request2 now2 cleanupAt2 (POST' request1 now1 cleanupAt1 w).2).2 = notifier w
  /\ length (filter (fun row => eventId row = event_id event)
               (payment_events (db (POST' request2 now2 cleanupAt2 (POST' request1 now1 cleanupAt1 w).2).2)))
     = 1%nat.
Proof.
  intros Hv Hnew Hkind.
  destruct (log_only_POST request1 now1 cleanupAt1 w event Hv Hnew Hkind)
    as (l & row & -> & Hid & Hstatus).
  cbn [snd]. intros Hv2.
  destruct (POST_verified keys verify checkout refundOf format pushover env
              request2 now2 cleanupAt2 _ event Hv2) as [l2 ->].
  cbn [db withDb withLimiter].
  rewrite isEventProcessed_snoc by done.
  cbn. split; [done|]. split; [done|]. split; [done|].
  rewrite filter_app, no_rows_of_unprocessed by done.
  cbn. by rewrite decide_True.
Qed.

(** X19.  A dispute is never dropped.  A verified first delivery of
    charge.dispute.created with a well-formed currency code is
    answered 200 with status logged; exactly one payment_events row
    with status DISPUTE is added, linked to the project when the
    dispute carries a payment intent (an expanded object, or a
    non-empty id) that resolves to one, and to none otherwise - an
    empty id is not looked up -; projects and invoices are unchanged;
    and, when the Pushover credentials are set, exactly one alert is
    handed over, with priority 1 and the siren sound. *)
Theorem dispute_is_recorded_and_alerted request now cleanupAt w event dispute :
  verifiedAs verify env request now cleanupAt w event ->
  isEventProcessed (event_id event) (db w) = false ->
  data event = ChargeDisputeCreated dispute ->
  Notifications.isWellFormedCurrencyCode (dispute_currency dispute) = true ->
  (POST' request now cleanupAt w).1 = json 200 (received "logged")
  /\ (exists row,
        payment_events (db (POST' request now cleanupAt w).2) = payment_events (db w) ++ [row]
        /\ eventId row = event_id event
        /\ row_status row = DISPUTE
        /\ row_projectId row = project_id <$> disputeProject dispute (db w))
  /\ projects (db (POST' request now cleanupAt w).2) = projects (db w)
  /\ invoices (db (POST' request now cleanupAt w).2) = invoices (db w)
  /\ notifiedOnce (pushoverEnv env) "⚠️ DISPUTE ALERT" 1 "siren"
       (notifier w) (notifier (POST' request now cleanupAt w).2).
Proof.
  intros Hv Hnew Hdata Hwf.
  destruct (POST_verified keys verify checkout refundOf format pushover env
              request now cleanupAt w event Hv) as [l ->].
  rewrite Hnew. unfold dispatch. rewrite Hdata.
  unfold handleChargeDisputeCreated. cbv zeta.
  set (project := disputeProject dispute (db w)).
  assert (Hproject :
            (if truthyReference (dispute_payment_intent dispute)
             then readDb (projects_findByPaymentIntent
                            (default "" (referenceId <$> dispute_payment_intent dispute)))
             else ret None) (withLimiter w l) = (Return project, withLimiter w l))
    by (unfold project, disputeProject;
        by destruct (truthyReference (dispute_payment_intent dispute))).
  rewrite (bind_returns _ _ _ _ _ Hproject).
  erewrite bind_returns by (by apply create_first).
  match goal with
  | |- context [bind (notify ?d) _ ?w0] =>
      destruct (notify_outcome d w0) as (fx' & Hnotify & Honce);
        [by apply toUpperCase_wellFormed
        | rewrite (bind_returns _ _ _ _ _ Hnotify)]
  end.
  cbn. split; [done|]. split; [eexists; by repeat split|]. by repeat split.
Qed.

(** X20.  A refund is always announced.  On a verified first delivery
    of charge.refunded with a well-formed currency code, when
    [processStripeRefund] returns, the database is left exactly as
    [processStripeRefund] left it, the response is 200 with status
    success or logged according to the result, and when the Pushover
    credentials are set exactly one notice is handed over, titled as a
    full refund when the charge is flagged refunded and as a partial
    refund otherwise - whether or not the refund could be recorded. *)
Theorem refund_is_always_announced request now cleanupAt w event charge result d' :
  verifiedAs verify env request now cleanupAt w event ->
  isEventProcessed (event_id event) (db w) = false ->
  data event = ChargeRefunded charge ->
  Notifications.isWellFormedCurrencyCode (charge_currency charge) = true ->
  refundOf (refundParamsOf event charge (db w)) (db w) = (Return result, d') ->
  (POST' request now cleanupAt w).1
    = json 200 (received (if rr_success result then "success" else "logged"))
  /\ db (POST' request now cleanupAt w).2 = d'
  /\ notifiedOnce (pushoverEnv env)
       (if refunded charge then "↩️ Full Refund" else "↩️ Partial Refund")
       0 "cashregister" (notifier w) (notifier (POST' request now cleanupAt w).2).
Proof.
  intros Hv Hnew Hdata Hwf Hrefund.
  destruct (POST_verified keys verify checkout refundOf format pushover env
              request now cleanupAt w event Hv) as [l ->].
  rewrite Hnew. unfold dispatch. rewrite Hdata.
  unfold handleChargeRefunded. cbv zeta.
  set (project := refundProject charge (db w)).
  assert (Hproject :
            (if truthy (stringOnly (charge_payment_intent charge))
             then readDb (projects_findByPaymentIntent
                            (default "" (stringOnly (charge_payment_intent charge))))
             else ret None) (withLimiter w l) = (Return project, withLimiter w l))
    by (unfold project, refundProject;
        by destruct (truthy (stringOnly (charge_payment_intent charge)))).
  rewrite (bind_returns _ _ _ _ _ Hproject).
  assert (Hresult :
            onDb (refundOf
                    {| rp_eventId := event_id event;
                       rp_eventType := eventType event;
                       rp_chargeId := charge_id charge;
                       rp_paymentIntentId := stringOnly (charge_payment_intent charge);
                       rp_refundAmount := amount_refunded charge;
                       rp_originalAmount := charge_amount charge;
                       rp_isFullRefund := refunded charge;
                       rp_currency := toUpperCase (charge_currency charge);
                       rp_projectId := project_id <$> project |})
              (withLimiter w l)
            = (Return result, withDb (withLimiter w l) d')).
  { unfold onDb. cbn [db withLimiter].
    change (refundOf _ (db w))
      with (refundOf (refundParamsOf event charge (db w)) (db w)).
    by rewrite Hrefund. }
  rewrite (bind_returns _ _ _ _ _ Hresult).
  match goal with
  | |- context [bind (notify ?d) _ ?w0] =>
      destruct (notify_outcome d w0) as (fx' & Hnotify & Honce);
        [by apply toUpperCase_wellFormed
        | rewrite (bind_returns _ _ _ _ _ Hnotify)]
  end.
  cbn. split; [done|]. split; [done|].
  unfold titleOf in Honce. cbn in Honce. by destruct (refunded charge).
Qed.

Lemma tryCatch_returns {A} (m : M A) handler w a w' :
  m w = (Return a, w') -> tryCatch m handler w = (Return a, w').
Proof. unfold tryCatch. by intros ->. Qed.

Lemma tryCatch_throws {A} (m : M A) handler w e w' :
  m w = (Throw e, w') -> tryCatch m handler w = handler e w'.
Proof. unfold tryCatch. by intros ->. Qed.

(** X21.  A checkout that names only an invoice.  On a verified first
    delivery of checkout.session.completed in the current environment
    whose metadata carries an invoice_id and no project id, when the
    invoice exists and the session's currency code is well formed: the
    invoice becomes PAID with paidAt set to the time of the call and
    its number kept, no other invoice changes, exactly one SUCCESS row
    with the event id is added, projects are unchanged, the answer is
    200, and a payment notice goes out exactly when the session has a
    non-zero amount. *)
Theorem invoice_only_checkout_marks_invoice_paid
    request now cleanupAt w event session invoiceId invoice :
  verifiedAs verify env request now cleanupAt w event ->
  isEventProcessed (event_id event) (db w) = false ->
  data event = CheckoutSessionCompleted session ->
  foreignEnvironment keys env session = false ->
  truthy (metadataGet session (PROJECT_PUBLIC_ID keys)) = false ->
  metadataGet session "invoice_id" = Some invoiceId ->
  invoiceId <> "" ->
  invoices (db w) !! invoiceId = Some invoice ->
  Notifications.isWellFormedCurrencyCode (checkoutCurrency session) = true ->
  (POST' request now cleanupAt w).1
    = json 200 (received "success" ++ [("invoiceId", JString invoiceId)])
  /\ invoices (db (POST' request now cleanupAt w).2)
     = <[invoiceId := {| invoiceNumber := invoiceNumber invoice;
                         invoice_status := "PAID";
                         paidAt := Some now |}]> (invoices (db w))
  /\ (exists row,
        payment_events (db (POST' request now cleanupAt w).2) = payment_events (db w) ++ [row]
        /\ eventId row = event_id event
        /\ row_status row = SUCCESS)
  /\ projects (db (POST' request now cleanupAt w).2) = projects (db w)
  /\ (if truthyAmount (amount_total session)
      then notifiedOnce (pushoverEnv env) "💰 Payment Received" 0 "cashregister"
             (notifier w) (notifier (POST' request now cleanupAt w).2)
      else notifier (POST' request now cleanupAt w).2 = notifier w).
Proof.
  intros Hv Hnew Hdata Hforeign Hproj Hinv Hne Hlookup Hwf.
  destruct (POST_verified keys verify checkout refundOf format pushover env
              request now cleanupAt w event Hv) as [l ->].
  rewrite Hnew. unfold dispatch. rewrite Hdata.
  unfold handleCheckoutSessionCompleted. cbv zeta.
  unfold foreignEnvironment in Hforeign. cbv zeta in Hforeign.
  rewrite Hforeign, Hproj, Hinv. cbn [negb truthy].
  apply String.eqb_neq in Hne. rewrite Hne. cbn [negb default from_option id].
  set (w1 := withDb (withLimiter w l)
               {| projects := projects (db w);
                  invoices := <[invoiceId := {| invoiceNumber := invoiceNumber invoice;
                                                invoice_status := "PAID";
                                                paidAt := Some now |}]> (invoices (db w));
                  payment_events := payment_events (db w) |}).
  assert (Hpaid : onDb (invoices_markPaid invoiceId now) (withLimiter w l)
                  = (Return tt, w1)).
  { unfold onDb, invoices_markPaid. cbn [db withLimiter]. by rewrite Hlookup. }
  unfold tryCatch. rewrite (bind_returns _ _ _ _ _ Hpaid).
  erewrite bind_returns by (by apply create_first).
  destruct (truthyAmount (amount_total session)) eqn:Hamount.
  - unfold bind, readDb. cbv beta iota.
    match goal with
    | |- context [notify ?d ?w0] =>
        destruct (notify_outcome d w0) as (fx' & Hnotify & Honce);
          [exact Hwf | rewrite Hnotify]
    end.
    cbn. split; [done|]. split; [done|]. split; [eexists; by repeat split|].
    by split.
  - cbn. split; [done|]. split; [done|]. split; [eexists; by repeat split|].
    by split.
Qed.

(** X22.  An invoice-only checkout that names an unknown invoice.  On
    a verified first delivery of checkout.session.completed in the
    current environment whose metadata carries an invoice_id and no
    project id, when no invoice has that id, the update throws before
    anything is written: the answer is 500 with error Failed to
    process, the database and the notifier are unchanged, and the event
    stays unrecorded, so that a redelivery is processed again rather
    than acknowledged. *)
Theorem invoice_only_checkout_of_unknown_invoice
    request now cleanupAt w event session invoiceId :
  verifiedAs verify env request now cleanupAt w event ->
  isEventProcessed (event_id event) (db w) = false ->
  data event = CheckoutSessionCompleted session ->
  foreignEnvironment keys env session = false ->
  truthy (metadataGet session (PROJECT_PUBLIC_ID keys)) = false ->
  metadataGet session "invoice_id" = Some invoiceId ->
  invoiceId <> "" ->
  invoices (db w) !! invoiceId = None ->
  (POST' request now cleanupAt w).1 = json 500 [("error", JString "Failed to process")]
  /\ db (POST' request now cleanupAt w).2 = db w
  /\ notifier (POST' request now cleanupAt w).2 = notifier w
  /\ isEventProcessed (event_id event) (db (POST' request now cleanupAt w).2) = false.
Proof.
  intros Hv Hnew Hdata Hforeign Hproj Hinv Hne Hlookup.
  destruct (POST_verified keys verify checkout refundOf format pushover env
              request now cleanupAt w event Hv) as [l ->].
  rewrite Hnew. unfold dispatch. rewrite Hdata.
  unfold handleCheckoutSessionCompleted. cbv zeta.
  unfold foreignEnvironment in Hforeign. cbv zeta in Hforeign.
  rewrite Hforeign, Hproj, Hinv. cbn [negb truthy].
  apply String.eqb_neq in Hne. rewrite Hne. cbn [negb default from_option id].
  assert (Hthrows : onDb (invoices_markPaid invoiceId now) (withLimiter w l)
                    = (Throw "Record to update not found.", withLimiter w l)).
  { unfold onDb, invoices_markPaid. cbn [db withLimiter]. rewrite Hlookup.
    by destruct w. }
  erewrite tryCatch_throws by (erewrite bind_throws by exact Hthrows; reflexivity).
  cbn. by repeat split.
Qed.

(** X27.  A reconciliation that fails, is unmatched, or was skipped as
    already recorded has no further effect.  On a verified first
    delivery of checkout.session.completed in the current environment
    that names a project, when [processStripeCheckoutCompleted]
    returns without success, or with success and the skipped flag: the
    database is left exactly as [processStripeCheckoutCompleted] left
    it - no invoice is marked paid -, nothing is notified, and the
    answer is 200 success with the project id when skipped, 200
    unmatched when unmatched, and 500 with the result's error
    otherwise. *)
Theorem project_checkout_without_new_payment
    request now cleanupAt w event session result d' :
  verifiedAs verify env request now cleanupAt w event ->
  isEventProcessed (event_id event) (db w) = false ->
  data event = CheckoutSessionCompleted session ->
  foreignEnvironment keys env session = false ->
  truthy (metadataGet session (PROJECT_PUBLIC_ID keys)) = true ->
  checkout (checkoutParamsOf keys event session) (db w) = (Return result, d') ->
  cr_success result = false \/ cr_skipped result = true ->
  (POST' request now cleanupAt w).1
    = (if cr_success result then
         json 200 (received "success"
                     ++ [("projectId", jsonOfString (cr_projectId result))])
       else if cr_unmatched result then json 200 (received "unmatched")
       else json 500 [("error", jsonOfString (cr_error result))])
  /\ db (POST' request now cleanupAt w).2 = d'
  /\ notifier (POST' request now cleanupAt w).2 = notifier w.
Proof.
  intros Hv Hnew Hdata Hforeign Hproj Hcheckout Hkind.
  destruct (POST_verified keys verify checkout refundOf format pushover env
              request now cleanupAt w event Hv) as [l ->].
  rewrite Hnew. unfold dispatch. rewrite Hdata.
  unfold handleCheckoutSessionCompleted. cbv zeta.
  unfold foreignEnvironment in Hforeign. cbv zeta in Hforeign.
  rewrite Hforeign, Hproj. cbn [negb].
  assert (Hresult :
            onDb (checkout (checkoutParamsOf keys event session)) (withLimiter w l)
            = (Return result, withDb (withLimiter w l) d'))
    by (unfold onDb; cbn [db withLimiter]; by rewrite Hcheckout).
  change (onDb (checkout _)) with (onDb (checkout (checkoutParamsOf keys event session))).
  rewrite (bind_returns _ _ _ _ _ Hresult).
  destruct (cr_success result) eqn:Hsuccess; cbn [negb].
  - destruct Hkind as [|Hskipped]; [done|]. rewrite Hskipped. by cbn.
  - by destruct (cr_unmatched result).
Qed.

(** X28.  A new project payment.  On a verified first delivery of
    checkout.session.completed in the current environment that names a
    project, when [processStripeCheckoutCompleted] returns success
    without the skipped flag and the session's currency code is well
    formed: the
    answer is 200 success with the project id; projects and
    payment_events are as [processStripeCheckoutCompleted] left them;
    the invoice the metadata names becomes PAID when the database holds
    it, and when it does not the failed update is swallowed and the
    invoices stay as they were; and a payment notice goes out exactly
    when the session has a non-zero amount. *)
Theorem project_checkout_with_new_payment
    request now cleanupAt w event session result d' :
  verifiedAs verify env request now cleanupAt w event ->
  isEventProcessed (event_id event) (db w) = false ->
  data event = CheckoutSessionCompleted session ->
  foreignEnvironment keys env session = false ->
  truthy (metadataGet session (PROJECT_PUBLIC_ID keys)) = true ->
  checkout (checkoutParamsOf keys event session) (db w) = (Return result, d') ->
  cr_success result = true ->
  cr_skipped result = false ->
  Notifications.isWellFormedCurrencyCode (checkoutCurrency session) = true ->
  (POST' request now cleanupAt w).1
    = json 200 (received "success"
                  ++ [("projectId", jsonOfString (cr_projectId result))])
  /\ projects (db (POST' request now cleanupAt w).2) = projects d'
  /\ payment_events (db (POST' request now cleanupAt w).2) = payment_events d'
  /\ invoices (db (POST' request now cleanupAt w).2)
     = match linkedInvoice session d' with
       | Some (invoiceId, invoice) =>
           <[invoiceId := {| invoiceNumber := invoiceNumber invoice;
                             invoice_status := "PAID";
                             paidAt := Some now |}]> (invoices d')
       | None => invoices d'
       end
  /\ (if truthyAmount (amount_total session)
      then notifiedOnce (pushoverEnv env) "💰 Payment Received" 0 "cashregister"
             (notifier w) (notifier (POST' request now cleanupAt w).2)
      else notifier (POST' request now cleanupAt w).2 = notifier w).
Proof.
  intros Hv Hnew Hdata Hforeign Hproj Hcheckout Hsuccess Hskipped Hwf.
  destruct (POST_verified keys verify checkout refundOf format pushover env
              request now cleanupAt w event Hv) as [l ->].
  rewrite Hnew. unfold dispatch. rewrite Hdata.
  unfold handleCheckoutSessionCompleted. cbv zeta.
  unfold foreignEnvironment in Hforeign. cbv zeta in Hforeign.
  rewrite Hforeign, Hproj. cbn [negb].
  assert (Hresult :
            onDb (checkout (checkoutParamsOf keys event session)) (withLimiter w l)
            = (Return result, withDb (withLimiter w l) d'))
    by (unfold onDb; cbn [db withLimiter]; by rewrite Hcheckout).
  change (onDb (checkout _)) with (onDb (checkout (checkoutParamsOf keys event session))).
  rewrite (bind_returns _ _ _ _ _ Hresult).
  rewrite Hsuccess, Hskipped. cbn [negb].
  set (w1 := withDb (withLimiter w l) d').
  assert (Hinvoice :
            exists w2,
              (if truthy (metadataGet session "invoice_id")
               then tryCatch
                      (onDb (invoices_markPaid
                               (default "" (metadataGet session "invoice_id")) now))
                      (fun _ => ret tt)
               else ret tt) w1 = (Return tt, w2)
              /\ projects (db w2) = projects d'
              /\ payment_events (db w2) = payment_events d'
              /\ invoices (db w2)
                 = match linkedInvoice session d' with
                   | Some (invoiceId, invoice) =>
                       <[invoiceId := {| invoiceNumber := invoiceNumber invoice;
                                         invoice_status := "PAID";
                                         paidAt := Some now |}]> (invoices d')
                   | None => invoices d'
                   end
              /\ limiter w2 = l /\ notifier w2 = notifier w).
  { unfold linkedInvoice. cbv zeta.
    destruct (truthy (metadataGet session "invoice_id")).
    - unfold tryCatch, onDb, invoices_markPaid. cbn [db withDb w1].
      destruct (invoices d' !! default "" (metadataGet session "invoice_id"))
        as [invoice|]; eexists; (split; [reflexivity|]); by cbn.
    - eexists. split; [reflexivity|]. by cbn. }
  destruct Hinvoice as (w2 & Hpaid & Hprojects & Hevents & Hinvoices & Hl & Hn).
  rewrite (bind_bind_returns _ _ _ _ _ _ Hpaid).
  destruct (truthyAmount (amount_total session)) eqn:Hamount.
  - erewrite bind_bind_returns by reflexivity. cbv beta.
    match goal with
    | |- context [bind (notify ?d) _ ?w0] =>
        destruct (notify_outcome d w0) as (fx' & Hnotify & Honce);
          [exact Hwf | rewrite (bind_returns _ _ _ _ _ Hnotify)]
    end.
    cbn. rewrite Hn in Honce. by repeat split.
  - cbn. by repeat split.
Qed.

End WebhookFurther.

Section WebhookFurtherExamples.
Import StripeWebhook RouteFacts.

Lemma moreRequest_verifiedAs rawBody event now cleanupAt w :
  moreParse rawBody = Some event ->
  (checkRateLimit (clientIp (signedRequest rawBody)) now cleanupAt (limiter w)).1 = true ->
  verifiedAs moreVerify sampleEnv (signedRequest rawBody) now cleanupAt w event.
Proof.
  intros Hparse Hadm. split; [by split|]. split; [done|].
  exists rawBody. split; [done|]. simpl. unfold moreVerify.
  rewrite String.eqb_refl. by rewrite Hparse.
Qed.

(** X17 on a concrete delivery: an expired checkout session. *)
Lemma log_only_events_are_recorded_witness :
  (morePOST (signedRequest "expired") 1000 1001 emptyWorld).1
  = json 200 (received "logged").
Proof.
  apply (log_only_events_are_recorded sampleKeys moreVerify sampleCheckout
           sampleRefund Notifications.plainFormat Notifications.pushoverUp
           sampleEnv (signedRequest "expired") 1000 1001 emptyWorld
           {| event_id := "evt_10";
              data := CheckoutSessionExpired (sampleSession []) |}).
  - apply moreRequest_verifiedAs; reflexivity.
  - reflexivity.
  - left. by eexists.
Defined.

(** X18 on a concrete pair of deliveries of the same expired session. *)
Lemma log_only_event_is_processed_once_witness :
  (morePOST (signedRequest "expired") 2000 2001
     (morePOST (signedRequest "expired") 1000 1001 emptyWorld).2).1
  = json 200 (received "already_processed").
Proof.
  apply (log_only_event_is_processed_once sampleKeys moreVerify sampleCheckout
           sampleRefund Notifications.plainFormat Notifications.pushoverUp
           sampleEnv (signedRequest "expired") 1000 1001 (signedRequest "expired") 2000 2001
           emptyWorld
           {| event_id := "evt_10";
              data := CheckoutSessionExpired (sampleSession []) |}).
  - apply moreRequest_verifiedAs; reflexivity.
  - reflexivity.
  - left. by eexists.
  - apply moreRequest_verifiedAs; reflexivity.
Defined.

(** X19 on a concrete delivery: a dispute on a charge no project
    matches. *)
Lemma dispute_is_recorded_and_alerted_witness :
  (morePOST (signedRequest "dispute") 1000 1001 emptyWorld).1
  = json 200 (received "logged").
Proof.
  apply (dispute_is_recorded_and_alerted sampleKeys moreVerify sampleCheckout
           sampleRefund Notifications.plainFormat Notifications.pushoverUp
           sampleEnv (signedRequest "dispute") 1000 1001 emptyWorld
           {| event_id := "evt_11"; data := ChargeDisputeCreated sampleDispute |}
           sampleDispute).
  - apply moreRequest_verifiedAs; reflexivity.
  - reflexivity.
  - reflexivity.
  - reflexivity.
Defined.

(** X20 on a concrete delivery: a partial refund. *)
Lemma refund_is_always_announced_witness :
  (morePOST (signedRequest "refund") 1000 1001 emptyWorld).1
  = json 200 (received "success")
  /\ db (morePOST (signedRequest "refund") 1000 1001 emptyWorld).2 = db emptyWorld.
Proof.
  pose proof (refund_is_always_announced sampleKeys moreVerify sampleCheckout
                sampleRefund Notifications.plainFormat Notifications.pushoverUp
                sampleEnv (signedRequest "refund") 1000 1001 emptyWorld
                {| event_id := "evt_12"; data := ChargeRefunded sampleCharge |}
                sampleCharge
                {| rr_success := true; rr_isPartial := true;
                   rr_projectId := None; rr_error := None |}
                (db emptyWorld)) as H.
  destruct H as (Hresponse & Hdb & _).
  - apply moreRequest_verifiedAs; reflexivity.
  - reflexivity.
  - reflexivity.
  - reflexivity.
  - reflexivity.
  - by split.
Defined.

(** X21 on a concrete delivery: invoice inv_1 is paid. *)
Lemma invoice_only_checkout_marks_invoice_paid_witness :
  (morePOST (signedRequest "invoice-only") 1000 1001 invoiceWorld).1
  = json 200 (received "success" ++ [("invoiceId", JString "inv_1")]).
Proof.
  apply (invoice_only_checkout_marks_invoice_paid sampleKeys moreVerify
           sampleCheckout sampleRefund Notifications.plainFormat
           Notifications.pushoverUp sampleEnv (signedRequest "invoice-only") 1000 1001
           invoiceWorld
           {| event_id := "evt_13";
              data := CheckoutSessionCompleted
                        (sampleSession [("invoice_id", "inv_1")]) |}
           (sampleSession [("invoice_id", "inv_1")]) "inv_1"
           {| invoiceNumber := "INV-0001"; invoice_status := "SENT";
              paidAt := None |}).
  - apply moreRequest_verifiedAs; reflexivity.
  - reflexivity.
  - reflexivity.
  - reflexivity.
  - reflexivity.
  - reflexivity.
  - done.
  - reflexivity.
  - reflexivity.
Defined.

(** X22 on a concrete delivery: the session names invoice inv_404. *)
Lemma invoice_only_checkout_of_unknown_invoice_witness :
  (morePOST (signedRequest "invoice-missing") 1000 1001 invoiceWorld).1
  = json 500 [("error", JString "Failed to process")].
Proof.
  apply (invoice_only_checkout_of_unknown_invoice sampleKeys moreVerify
           sampleCheckout sampleRefund Notifications.plainFormat
           Notifications.pushoverUp sampleEnv (signedRequest "invoice-missing") 1000 1001
           invoiceWorld
           {| event_id := "evt_14";
              data := CheckoutSessionCompleted
                        (sampleSession [("invoice_id", "inv_404")]) |}
           (sampleSession [("invoice_id", "inv_404")]) "inv_404").
  - apply moreRequest_verifiedAs; reflexivity.
  - reflexivity.
  - reflexivity.
  - reflexivity.
  - reflexivity.
  - reflexivity.
  - done.
  - reflexivity.
Defined.

(** X27 on a concrete delivery: the project named is unknown to the
    reconciliation. *)
Lemma project_checkout_without_new_payment_witness :
  (morePOST (signedRequest "project") 1000 1001 emptyWorld).1
  = json 200 (received "unmatched")
  /\ db (morePOST (signedRequest "project") 1000 1001 emptyWorld).2 = db emptyWorld
  /\ notifier (morePOST (signedRequest "project") 1000 1001 emptyWorld).2
     = notifier emptyWorld.
Proof.
  apply (project_checkout_without_new_payment sampleKeys moreVerify sampleCheckout
           sampleRefund Notifications.plainFormat Notifications.pushoverUp
           sampleEnv (signedRequest "project") 1000 1001 emptyWorld
           {| event_id := "evt_15";
              data := CheckoutSessionCompleted
                        (sampleSession [("project_public_id", "prj_1");
                                        ("invoice_id", "inv_404")]) |}
           (sampleSession [("project_public_id", "prj_1"); ("invoice_id", "inv_404")])
           {| cr_success := false; cr_error := Some "Project not found";
              cr_unmatched := true; cr_skipped := false; cr_projectId := None |}
           (db emptyWorld)).
  - apply moreRequest_verifiedAs; reflexivity.
  - reflexivity.
  - reflexivity.
  - reflexivity.
  - reflexivity.
  - reflexivity.
  - by left.
Defined.

(** X28 on a concrete delivery: the payment is new and the session
    names an invoice the database does not hold. *)
Lemma project_checkout_with_new_payment_witness :
  (paidPOST (signedRequest "project") 1000 1001 invoiceWorld).1
  = json 200 (received "success" ++ [("projectId", JString "project-1")]).
Proof.
  apply (project_checkout_with_new_payment sampleKeys moreVerify payingCheckout
           sampleRefund Notifications.plainFormat Notifications.pushoverUp
           sampleEnv (signedRequest "project") 1000 1001 invoiceWorld
           {| event_id := "evt_15";
              data := CheckoutSessionCompleted
                        (sampleSession [("project_public_id", "prj_1");
                                        ("invoice_id", "inv_404")]) |}
           (sampleSession [("project_public_id", "prj_1"); ("invoice_id", "inv_404")])
           {| cr_success := true; cr_error := None; cr_unmatched := false;
              cr_skipped := false; cr_projectId := Some "project-1" |}
           (db invoiceWorld)).
  - apply moreRequest_verifiedAs; reflexivity.
  - reflexivity.
  - reflexivity.
  - reflexivity.
  - reflexivity.
  - reflexivity.
  - reflexivity.
  - reflexivity.
  - reflexivity.
Defined.

End WebhookFurtherExamples.

(* ===================================================================== *)
(** * The limiters of the two routes, the checkout metadata, helpers      *)
(* ===================================================================== *)

Section RoutesFurther.

(** X23.  What the periodic cleanup can and cannot change.  In both
    routes the limiter rejects a key exactly when the map holds an
    entry for it whose window has not ended at the caller's clock
    reading, whose count has reached the route's maximum (100 for the
    webhook, 10 for checkout creation), and which the cleanup of this
    call did not delete - the cleanup did not run, or the window had
    not ended at the cleanup's own, later clock reading either.  So the
    cleanup never turns an admission into a rejection; it turns a
    rejection into an admission only for a window that ends between the
    two readings; and a rejected call leaves the key's entry as it
    was. *)
Theorem route_limiters_reject_only_live_full_windows key now cleanupAt :
  (forall l,
     (StripeWebhook.checkRateLimit key now cleanupAt l).1
     = match StripeWebhook.rateLimitMap l !! key with
       | Some entry =>
           (RateLimit.resetAt entry <? now) || (RateLimit.count entry <? 100)
           || (negb ((cleanupAt - StripeWebhook.lastCleanup l
                        <? StripeWebhook.RATE_LIMIT_CLEANUP_INTERVAL)
                     && (Z.of_nat (size (StripeWebhook.rateLimitMap l))
                           <? StripeWebhook.RATE_LIMIT_MAX_ENTRIES))
               && (RateLimit.resetAt entry <? cleanupAt))
       | None => true
       end
     /\ ((StripeWebhook.checkRateLimit key now cleanupAt l).1 = false ->
         StripeWebhook.rateLimitMap
           (StripeWebhook.checkRateLimit key now cleanupAt l).2 !! key
         = StripeWebhook.rateLimitMap l !! key))
  /\ (forall l,
        (CheckoutSessionRoute.checkRateLimit key now cleanupAt l).1
        = match CheckoutSessionRoute.rateLimitMap l !! key with
          | Some entry =>
              (RateLimit.resetAt entry <? now) || (RateLimit.count entry <? 10)
              || (negb ((cleanupAt - CheckoutSessionRoute.lastCleanup l
                           <? CheckoutSessionRoute.RATE_LIMIT_CLEANUP_INTERVAL)
                        && (Z.of_nat (size (CheckoutSessionRoute.rateLimitMap l))
                              <? CheckoutSessionRoute.RATE_LIMIT_MAX_ENTRIES))
                  && (RateLimit.resetAt entry <? cleanupAt))
          | None => true
          end
        /\ ((CheckoutSessionRoute.checkRateLimit key now cleanupAt l).1 = false ->
            CheckoutSessionRoute.rateLimitMap
              (CheckoutSessionRoute.checkRateLimit key now cleanupAt l).2 !! key
            = CheckoutSessionRoute.rateLimitMap l !! key)).
Proof.
  split; intros l.
  - unfold StripeWebhook.checkRateLimit, StripeWebhook.cleanupRateLimitMap,
      StripeWebhook.RATE_LIMIT_MAX.
    cbv zeta.
    destruct (_ && _); cbn [negb andb StripeWebhook.rateLimitMap StripeWebhook.lastCleanup].
    + destruct (StripeWebhook.rateLimitMap l !! key) as [entry|] eqn:Hentry;
        [|done].
      rewrite orb_false_r.
      destruct (RateLimit.resetAt entry <? now); [done|].
      cbn [orb]. destruct (100 <=? RateLimit.count entry) eqn:Hfull.
      * cbn. split; [|done]. symmetry. apply Z.ltb_ge. by apply Z.leb_le.
      * cbn. split; [|done]. symmetry. apply Z.ltb_lt. by apply Z.leb_gt.
    + rewrite sweepExpired_lookup.
      destruct (StripeWebhook.rateLimitMap l !! key) as [entry|] eqn:Hentry;
        [|done].
      destruct (RateLimit.resetAt entry <? cleanupAt) eqn:Hended.
      * cbn. by rewrite orb_true_r.
      * rewrite orb_false_r.
        destruct (RateLimit.resetAt entry <? now); [done|].
        cbn [orb]. destruct (100 <=? RateLimit.count entry) eqn:Hfull.
        -- cbn. split.
           ++ symmetry. apply Z.ltb_ge. by apply Z.leb_le.
           ++ intros _. rewrite sweepExpired_lookup, Hentry. by rewrite Hended.
        -- cbn. split; [|done]. symmetry. apply Z.ltb_lt. by apply Z.leb_gt.
  - unfold CheckoutSessionRoute.checkRateLimit, CheckoutSessionRoute.cleanupRateLimitMap,
      CheckoutSessionRoute.RATE_LIMIT_MAX.
    cbv zeta.
    destruct (_ && _); cbn [negb andb CheckoutSessionRoute.rateLimitMap CheckoutSessionRoute.lastCleanup].
    + destruct (CheckoutSessionRoute.rateLimitMap l !! key) as [entry|] eqn:Hentry;
        [|done].
      rewrite orb_false_r.
      destruct (RateLimit.resetAt entry <? now); [done|].
      cbn [orb]. destruct (10 <=? RateLimit.count entry) eqn:Hfull.
      * cbn. split; [|done]. symmetry. apply Z.ltb_ge. by apply Z.leb_le.
      * cbn. split; [|done]. symmetry. apply Z.ltb_lt. by apply Z.leb_gt.
    + rewrite sweepExpired_lookup.
      destruct (CheckoutSessionRoute.rateLimitMap l !! key) as [entry|] eqn:Hentry;
        [|done].
      destruct (RateLimit.resetAt entry <? cleanupAt) eqn:Hended.
      * cbn. by rewrite orb_true_r.
      * rewrite orb_false_r.
        destruct (RateLimit.resetAt entry <? now); [done|].
        cbn [orb]. destruct (10 <=? RateLimit.count entry) eqn:Hfull.
        -- cbn. split.
           ++ symmetry. apply Z.ltb_ge. by apply Z.leb_le.
           ++ intros _. rewrite sweepExpired_lookup, Hentry. by rewrite Hended.
        -- cbn. split; [|done]. symmetry. apply Z.ltb_lt. by apply Z.leb_gt.
Qed.

(** X24.  What checkout creation writes, the webhook reads back.  When
    the six metadata names are pairwise distinct, a session carrying
    the metadata built for an invoice is never skipped as belonging to
    another environment by a webhook running with the same NODE_ENV,
    its invoice_id is the invoice's id, and it names a project exactly
    when the invoice is linked to one with a non-empty public id. *)
Theorem created_checkout_is_recognised keys projectPayment env invoice session :
  NoDup (CheckoutSessionRoute.metadataNames keys) ->
  StripeWebhook.metadata session
  = Some (CheckoutSessionRoute.checkoutMetadata keys projectPayment
            (StripeWebhook.NODE_ENV env) invoice) ->
  StripeWebhook.foreignEnvironment (CheckoutSessionRoute.shared keys) env session
  = false
  /\ StripeWebhook.metadataGet session "invoice_id"
     = Some (CheckoutSessionRoute.payable_id invoice)
  /\ StripeWebhook.metadataGet session
       (StripeWebhook.PROJECT_PUBLIC_ID (CheckoutSessionRoute.shared keys))
     = match CheckoutSessionRoute.payable_project invoice with
       | Some project =>
           if String.eqb (CheckoutSessionRoute.linked_publicId project) ""
           then None
           else Some (CheckoutSessionRoute.linked_publicId project)
       | None => None
       end.
Proof.
  unfold CheckoutSessionRoute.metadataNames.
  intros Hnames Hmeta.
  repeat match goal with
         | H : NoDup (_ :: _) |- _ => apply NoDup_cons in H as [? H]
         end.
  repeat match goal with
         | H : _ ∉ _ :: _ |- _ => apply not_elem_of_cons in H as [? H]
         end.
  unfold StripeWebhook.foreignEnvironment, StripeWebhook.metadataGet.
  rewrite Hmeta. unfold CheckoutSessionRoute.checkoutMetadata. cbv zeta.
  destruct (CheckoutSessionRoute.payable_project invoice) as [project|];
    cbn [fmap option_fmap option_map truthy];
    [destruct (String.eqb (CheckoutSessionRoute.linked_publicId project) "");
     cbn [negb]|];
    repeat (rewrite ?lookup_insert_eq, ?lookup_insert_ne by done);
    rewrite ?lookup_empty;
    (split; [|by split]);
    unfold StripeWebhook.currentEnv; cbn [truthy default from_option id];
    rewrite String.eqb_refl; cbn [negb]; by rewrite andb_false_r.
Qed.

(** X25.  The limiter is never keyed on the empty string.  Whatever
    the headers hold, and whatever [trim] does, [getClientIP] returns a
    non-empty string, and so does the webhook's own reading of
    x-forwarded-for: a missing or empty header falls through to the
    next source and in the end to the constant unknown. *)
Theorem client_address_is_never_empty trim headers request :
  ClientAddress.getClientIP trim headers <> ""
  /\ StripeWebhook.clientIp request <> "".
Proof.
  split.
  - unfold ClientAddress.getClientIP. cbv zeta.
    destruct (ClientAddress.x_forwarded_for headers) as [forwarded|]; cbn.
    + destruct (String.eqb (trim (StripeWebhook.firstSegment forwarded)) "") eqn:Hfirst;
        cbn.
      * destruct (ClientAddress.x_real_ip headers) as [real|]; cbn; [|done].
        destruct (String.eqb real "") eqn:Hreal; cbn; [done|].
        by apply String.eqb_neq.
      * by apply String.eqb_neq.
    + destruct (ClientAddress.x_real_ip headers) as [real|]; cbn; [|done].
      destruct (String.eqb real "") eqn:Hreal; cbn; [done|].
      by apply String.eqb_neq.
  - unfold StripeWebhook.clientIp. cbv zeta.
    destruct (StripeWebhook.x_forwarded_for request) as [forwarded|]; cbn; [|done].
    destruct (String.eqb (StripeWebhook.firstSegment forwarded) "") eqn:Hfirst;
      cbn; [done|].
    by apply String.eqb_neq.
Qed.

(** X26.  The generic notifier fails silently.  [sendNotification]
    returns normally whatever the Pushover endpoint does - the request
    rejected, a non-OK answer, an answer whose body cannot be read -;
    it hands over no request when a credential is missing and exactly
    one otherwise, carrying the given title and message and priority 0
    when none is given; and it writes a console line in every case but
    an OK answer. *)
Theorem sendNotification_fails_silently pushover env notice fx :
  let r := GenericNotification.sendNotification pushover env notice fx in
  r.1 = Return tt
  /\ (if RouteFacts.credentialsSet env then
        exists m,
          GenericNotification.posted r.2 = GenericNotification.posted fx ++ [m]
          /\ GenericNotification.posted_title m = GenericNotification.notice_title notice
          /\ GenericNotification.posted_message m
             = GenericNotification.notice_message notice
          /\ GenericNotification.posted_priority m
             = default 0 (GenericNotification.notice_priority notice)
          /\ (GenericNotification.logged r.2 = GenericNotification.logged fx
              <-> exists text, pushover m = Notifications.FetchResponse true text)
      else
        GenericNotification.posted r.2 = GenericNotification.posted fx
        /\ length (GenericNotification.logged r.2)
           = S (length (GenericNotification.logged fx))).
Proof.
  unfold GenericNotification.sendNotification, RouteFacts.credentialsSet.
  cbv zeta.
  destruct (truthy (Notifications.PUSHOVER_API_TOKEN env));
    destruct (truthy (Notifications.PUSHOVER_USER_KEY env)); cbn [negb orb andb];
    try (cbn; split; [done|]; split; [done|]; rewrite length_app; cbn; lia).
  match goal with
  | |- context [pushover ?m] => remember m as request eqn:Hrequest
  end.
  assert (Hgrow : forall (l : list (Notifications.LogLevel * string)) x,
             l ++ [x] = l -> False).
  { intros l x H. apply (f_equal length) in H. rewrite length_app in H.
    cbn in H. lia. }
  destruct (pushover request) as [err|[|] [text|err]] eqn:Hfetch; cbn;
    (split; [done|]); exists request; subst request; cbn;
    repeat (split; [done|]); rewrite Hfetch;
    (split; [intros H; try (by apply Hgrow in H); by eexists
            | intros [text' H]; by try discriminate H]).
Qed.

(** X24 on the metadata built for a sample invoice without a project. *)
Lemma created_checkout_is_recognised_witness :
  StripeWebhook.foreignEnvironment StripeWebhook.sampleKeys StripeWebhook.sampleEnv
    CheckoutSessionRoute.createdSession = false
  /\ StripeWebhook.metadataGet CheckoutSessionRoute.createdSession "invoice_id"
     = Some "inv_1"
  /\ StripeWebhook.metadataGet CheckoutSessionRoute.createdSession "project_public_id"
     = None.
Proof.
  apply (created_checkout_is_recognised CheckoutSessionRoute.sampleKeys
           "project_payment" StripeWebhook.sampleEnv
           CheckoutSessionRoute.sampleInvoice CheckoutSessionRoute.createdSession).
  - by apply (bool_decide_unpack
                (NoDup (CheckoutSessionRoute.metadataNames
                          CheckoutSessionRoute.sampleKeys))).
  - reflexivity.
Defined.

End RoutesFurther.
